(** * album-downloader: a shallow embedding of [download_album.py]

    The development follows the source file top to bottom: the Python
    built-ins the program relies on ([str] methods, [int()], [re.match],
    [float] arithmetic, string formatting), then [parse_config],
    [timestamp_to_seconds], [split_audio], [add_metadata] and [main] with
    the two functions it calls besides, then the properties of each.

    Conventions.
    - A Python [str] is a [list ascii]; a character [c] stands for the code
      point U+0000..U+00FF with the same number, so the model covers texts
      over that range.  On it the character classes below are exactly
      Python's.
    - A Python [int] is a [Z] (unbounded, as in Python).  The one limit the
      interpreter puts on it that the program can meet is modelled: [int()]
      refuses a text of more than 4300 digits, the default of
      [sys.get_int_max_str_digits()], which the program does not change.
    - A Python [float] is a binary64 number: Rocq's primitive [float].
    - A raised exception is a value of [exn]; code that can raise returns a
      [result].
    - The transcoder is a parameter of [split_audio]: what a run of [ffmpeg]
      does is not the program's to decide.  [split_audio] returns the runs
      it made next to its result.  A run stands for the whole statement
      [subprocess.run([...], ...)]: its arguments are kept as the numbers
      and paths they are, and turning them into text belongs to the run.
    - The tagging library is modelled by a store of saved tags, in which a
      frame holds the text it was given.  In [add_metadata] on its own the
      library is taken to work; in [main] loading or saving a tag can
      raise.
    - Console output is left out, except for what [parse_config] prints
      before it exits and for the one format that can raise.
    - [get_audio_duration], [download_audio] and [main] come after the
      functions they call: there the outside (the file system, the three
      external programs and the tagging library) is a record of functions,
      [world], and a run returns the trace of what it did to the outside.
      [parse_config] is first given as a function of what the file holds,
      then, as [parse_config_file], with the reading that can fail. *)

From Stdlib Require Import Ascii String.
From Stdlib Require Import List Bool ZArith QArith Lia.
From Stdlib Require Import Floats.
From Stdlib Require Import DecimalString DecimalZ.
Import ListNotations.

Local Open Scope Z_scope.
Local Open Scope list_scope.

(* ================================================================== *)
(** * Python built-ins                                                  *)
(* ================================================================== *)

Module Py.

(** ** Strings *)

Definition str := list ascii.

(** A string literal of the source. *)
Definition py (s : string) : str := list_ascii_of_string s.

Definition code (c : ascii) : N := N_of_ascii c.

Definition in_range (lo hi : N) (c : ascii) : bool :=
  ((lo <=? code c) && (code c <=? hi))%N.

(** [str.isspace] on one character, which is also what [str.strip()] removes
    and what [\s] matches: TAB..CR, FS..US, SPACE, NEL and NBSP. *)
Definition is_space (c : ascii) : bool :=
  in_range 9 13 c || in_range 28 31 c || in_range 32 32 c
  || in_range 133 133 c || in_range 160 160 c.

(** The decimal digits, [\d]: in this range only [0]..[9]. *)
Definition is_digit (c : ascii) : bool := in_range 48 57 c.

Definition digit_value (c : ascii) : Z := Z.of_N (code c) - 48.

(** The line boundaries of [str.splitlines]: LF, VT, FF, CR, FS, GS, RS, NEL. *)
Definition is_linebreak (c : ascii) : bool :=
  in_range 10 13 c || in_range 28 30 c || in_range 133 133 c.

Definition LF : ascii := ascii_of_N 10.
Definition CR : ascii := ascii_of_N 13.

Fixpoint dropwhile (p : ascii -> bool) (s : str) : str :=
  match s with
  | c :: s' => if p c then dropwhile p s' else s
  | [] => []
  end.

Definition lstrip (s : str) : str := dropwhile is_space s.
Definition rstrip (s : str) : str := rev (dropwhile is_space (rev s)).

(** [s.strip()] *)
Definition strip (s : str) : str := lstrip (rstrip s).

(** [s.startswith(prefix)] *)
Fixpoint startswith (prefix s : str) : bool :=
  match prefix, s with
  | [], _ => true
  | p :: prefix', c :: s' => Ascii.eqb p c && startswith prefix' s'
  | _ :: _, [] => false
  end.

(** [s.split(sep)] for a one-character separator: every occurrence splits,
    and the empty string gives one empty field. *)
Fixpoint split (sep : ascii) (s : str) : list str :=
  match s with
  | [] => [[]]
  | c :: s' =>
      if Ascii.eqb c sep then [] :: split sep s'
      else match split sep s' with
           | field :: fields => (c :: field) :: fields
           | [] => [[c]]
           end
  end.

(** [s.split(sep, 1)]: at most one split, at the first occurrence. *)
Fixpoint split1 (sep : ascii) (s : str) : list str :=
  match s with
  | [] => [[]]
  | c :: s' =>
      if Ascii.eqb c sep then [[]; s']
      else match split1 sep s' with
           | field :: fields => (c :: field) :: fields
           | [] => [[c]]
           end
  end.

(** [s.replace(old, new)] for one-character [old] and [new]. *)
Definition replace (old new : ascii) (s : str) : str :=
  map (fun c => if Ascii.eqb c old then new else c) s.

(** [sep.join(items)] *)
Fixpoint join (sep : str) (items : list str) : str :=
  match items with
  | [] => []
  | [x] => x
  | x :: rest => x ++ sep ++ join sep rest
  end.

(** [s.splitlines()]: [cur] is the current line, reversed.  CR LF is one
    boundary, and a boundary at the very end opens no further line. *)
Fixpoint splitlines_from (cur : str) (s : str) : list str :=
  match s with
  | [] => match cur with [] => [] | _ :: _ => [rev cur] end
  | c :: s' =>
      if is_linebreak c then
        rev cur ::
          match s' with
          | d :: s'' =>
              if Ascii.eqb c CR && Ascii.eqb d LF
              then splitlines_from [] s''
              else splitlines_from [] s'
          | [] => splitlines_from [] s'
          end
      else splitlines_from (c :: cur) s'
  end.

Definition splitlines (s : str) : list str := splitlines_from [] s.

(** ** Exceptions *)

Inductive exn : Type :=
| ValueError_int (literal : str)
    (* int(): invalid literal for int() with base 10, or
       exceeds the limit (4300 digits) for integer string conversion *)
| ValueError_timestamp (timestamp : str)
    (* raise ValueError(f"Invalid timestamp format: {timestamp}") *)
| OverflowError
    (* int too large to convert to float *)
| IndexError
    (* list index out of range *)
| ValueError_unpack
    (* not enough, or too many, values to unpack *)
| CalledProcessError (returncode : Z)
    (* subprocess.run(..., check=True) on a non-zero exit status *)
| OSError
    (* subprocess.run when the program cannot be started *)
| SystemExit (status : Z).
    (* sys.exit(status) *)

Inductive result (A : Type) : Type :=
| Ok (a : A)
| Raise (e : exn).

Arguments Ok {A} a.
Arguments Raise {A} e.

Definition bind {A B : Type} (r : result A) (k : A -> result B) : result B :=
  match r with
  | Ok a => k a
  | Raise e => Raise e
  end.

Declare Scope py_scope.
Delimit Scope py_scope with py.
Notation "x <- r ;; k" := (bind r (fun x => k))
  (at level 61, r at next level, right associativity) : py_scope.

(** ** [int(s)] in base 10

    Surrounding whitespace is skipped, one sign is allowed, and the digits
    may be grouped by single underscores.  The whitespace [int] skips is not
    [str.isspace]: FS..US are refused.  A text of more digits than
    [sys.get_int_max_str_digits()] is refused with a [ValueError] too;
    leading zeros count, underscores do not. *)

(** The default of [sys.get_int_max_str_digits()]. *)
Definition INT_MAX_STR_DIGITS : nat := 4300.

Definition digit_count (s : str) : nat := length (filter is_digit s).

Definition is_int_space (c : ascii) : bool :=
  in_range 9 13 c || in_range 32 32 c || in_range 133 133 c || in_range 160 160 c.

Definition underscore : ascii := ascii_of_N 95.

(** The digits that follow the first one; returns the value and what is left. *)
Fixpoint scan_digits (acc : Z) (s : str) : Z * str :=
  match s with
  | c :: s' =>
      if is_digit c then scan_digits (10 * acc + digit_value c) s'
      else if Ascii.eqb c underscore then
        match s' with
        | d :: s'' =>
            if is_digit d then scan_digits (10 * acc + digit_value d) s''
            else (acc, s)
        | [] => (acc, s)
        end
      else (acc, s)
  | [] => (acc, s)
  end.

Definition scan_sign (s : str) : bool * str :=
  match s with
  | c :: s' =>
      if Ascii.eqb c (ascii_of_N 45) then (true, s')
      else if Ascii.eqb c (ascii_of_N 43) then (false, s')
      else (false, s)
  | [] => (false, s)
  end.

Definition int (s : str) : result Z :=
  let (negative, body) := scan_sign (dropwhile is_int_space s) in
  match body with
  | d :: rest =>
      if is_digit d then
        let (magnitude, trailing) := scan_digits (digit_value d) rest in
        if (INT_MAX_STR_DIGITS <? digit_count body - digit_count trailing)%nat
        then Raise (ValueError_int s)
        else if forallb is_int_space trailing
        then Ok (if negative then - magnitude else magnitude)
        else Raise (ValueError_int s)
      else Raise (ValueError_int s)
  | [] => Raise (ValueError_int s)
  end.

(** [seq[i]] *)
Definition index {A : Type} (l : list A) (i : nat) : result A :=
  match nth_error l i with
  | Some x => Ok x
  | None => Raise IndexError
  end.

(** ** [re.match]

    The regular expressions the source needs, and a backtracking matcher for
    them: [re_run] lists the ways a pattern can match at the current
    position, the one Python prefers first (greedy operators try the
    longest repetition first).  A state is what is left of the subject
    together with the groups captured so far. *)

Inductive charclass : Type :=
| cc_digit                (* \d *)
| cc_space                (* \s *)
| cc_dot                  (* .  : anything but a newline *)
| cc_lit (c : ascii).     (* a literal character *)

Definition cc_match (cc : charclass) (c : ascii) : bool :=
  match cc with
  | cc_digit => is_digit c
  | cc_space => is_space c
  | cc_dot => negb (Ascii.eqb c LF)
  | cc_lit x => Ascii.eqb c x
  end.

Inductive regex : Type :=
| re_char (cc : charclass)      (* one character of the class *)
| re_plus (cc : charclass)      (* cc+ *)
| re_opt (r : regex)            (* (?:r)? *)
| re_seq (r1 r2 : regex)        (* r1 r2 *)
| re_group (r : regex)          (* (r) *)
| re_bol                        (* ^ *)
| re_eol.                       (* $ *)

Definition re_state : Type := str * list str.

(** What can be left after [cc+], the longest repetition first. *)
Fixpoint plus_rests (cc : charclass) (s : str) : list str :=
  match s with
  | c :: s' => if cc_match cc c then plus_rests cc s' ++ [s'] else []
  | [] => []
  end.

(** Groups are numbered as they close, which is the order of their opening
    parentheses as long as no group is nested in another. *)
Fixpoint re_run (subject : str) (r : regex) (st : re_state) : list re_state :=
  match r with
  | re_char cc =>
      match fst st with
      | c :: s' => if cc_match cc c then [(s', snd st)] else []
      | [] => []
      end
  | re_plus cc => map (fun s' => (s', snd st)) (plus_rests cc (fst st))
  | re_opt r1 => re_run subject r1 st ++ [st]
  | re_seq r1 r2 => flat_map (re_run subject r2) (re_run subject r1 st)
  | re_group r1 =>
      map (fun st' =>
             (fst st',
              snd st' ++ [firstn (length (fst st) - length (fst st')) (fst st)]))
          (re_run subject r1 st)
  | re_bol => if (length (fst st) =? length subject)%nat then [st] else []
  | re_eol =>
      match fst st with
      | [] => [st]
      | [c] => if Ascii.eqb c LF then [st] else []
      | _ :: _ :: _ => []
      end
  end.

(** [re.match(r, s)] followed by [.groups()]; [None] when nothing matches. *)
Definition re_match (r : regex) (s : str) : option (list str) :=
  match re_run s r (s, []) with
  | st :: _ => Some (snd st)
  | [] => None
  end.

Declare Scope regex_scope.
Delimit Scope regex_scope with regex.
Infix "~~" := re_seq (at level 60, right associativity) : regex_scope.

(** ** [float]

    [float - int] converts the [int] first: to the nearest double, ties to
    even, and with [OverflowError] beyond the largest one. *)

Definition float_of_int (z : Z) : result float :=
  let f := SF2Prim (binary_normalize prec emax z 0 false) in
  if PrimFloat.is_infinity f then Raise OverflowError else Ok f.

Definition float_sub_int (x : float) (z : Z) : result float :=
  (y <- float_of_int z ;; Ok (PrimFloat.sub x y))%py.

(** A value that is an [int] or a [float]. *)
Inductive number : Type :=
| Int (z : Z)
| Float (f : float).

(** The exact value of a finite double, as a rational. *)
Definition Q_of_spec_float (f : spec_float) : option Q :=
  match f with
  | S754_zero _ => Some 0%Q
  | S754_finite s m e =>
      let magnitude := (inject_Z (Z.pos m) * Qpower 2 e)%Q in
      Some (if s then Qopp magnitude else magnitude)
  | S754_infinity _ | S754_nan => None
  end.

Definition float_value (f : float) : option Q := Q_of_spec_float (Prim2SF f).

Definition number_value (x : number) : option Q :=
  match x with
  | Int z => Some (inject_Z z)
  | Float f => float_value f
  end.

(** [f"{x:.1f}"].  The text goes to the console, which is not modelled; but
    an [int] is converted to a [float] to be formatted, and that can
    raise. *)
Definition format_1f (x : number) : result unit :=
  match x with
  | Int z => bind (float_of_int z) (fun _ => Ok tt)
  | Float _ => Ok tt
  end.

(** [f"{n}"] and [f"{n:02d}"] for an [int]. *)
Definition format_d (n : Z) : str := py (NilZero.string_of_int (Z.to_int n)).

Definition format_02d (n : Z) : str :=
  let digits := format_d (Z.abs n) in
  let padded := repeat "0"%char (2 - length digits) ++ digits in
  if n <? 0 then "-"%char :: repeat "0"%char (1 - length digits) ++ digits
  else padded.

End Py.

Import Py.

(* ================================================================== *)
(** * Config parser                                                     *)
(* ================================================================== *)

(** The dictionary [parse_config] builds; its keys are fixed. *)
Record config : Type := mk_config {
  url : option str;
  artist : option str;
  album : option str;
  year : option str;
  tracklist : list (str * str)     (* (title, timestamp) *)
}.

Definition empty_config : config :=
  {| url := None; artist := None; album := None; year := None;
     tracklist := [] |}.

Definition set_url (cfg : config) (v : str) : config :=
  {| url := Some v; artist := artist cfg; album := album cfg;
     year := year cfg; tracklist := tracklist cfg |}.

Definition set_artist (cfg : config) (v : str) : config :=
  {| url := url cfg; artist := Some v; album := album cfg;
     year := year cfg; tracklist := tracklist cfg |}.

Definition set_album (cfg : config) (v : str) : config :=
  {| url := url cfg; artist := artist cfg; album := Some v;
     year := year cfg; tracklist := tracklist cfg |}.

Definition set_year (cfg : config) (v : str) : config :=
  {| url := url cfg; artist := artist cfg; album := album cfg;
     year := Some v; tracklist := tracklist cfg |}.

Definition append_track (cfg : config) (entry : str * str) : config :=
  {| url := url cfg; artist := artist cfg; album := album cfg;
     year := year cfg; tracklist := tracklist cfg ++ [entry] |}.

(** [r'^(\d+:\d+(?::\d+)?)\s+(.+)$'] *)
Definition TRACK_LINE : regex :=
  (re_bol
   ~~ re_group (re_plus cc_digit ~~ re_char (cc_lit ":") ~~ re_plus cc_digit
               ~~ re_opt (re_char (cc_lit ":") ~~ re_plus cc_digit))
   ~~ re_plus cc_space
   ~~ re_group (re_plus cc_dot)
   ~~ re_eol)%regex.

(** [line.split(":", 1)[1].strip()] *)
Definition directive_value (line : str) : result str :=
  (v <- index (split1 ":" line) 1 ;; Ok (strip v))%py.

(** [not s] for a string or a list *)
Definition is_empty {A : Type} (s : list A) : bool :=
  match s with [] => true | _ :: _ => false end.

(** The body of the loop over [content.splitlines()]. *)
Definition parse_line (cfg : config) (raw : str) : result config :=
  let line := strip raw in
  if is_empty line || startswith (py "#") line then Ok cfg
  else if startswith (py "url:") line then
    (v <- directive_value line ;; Ok (set_url cfg v))%py
  else if startswith (py "artist:") line then
    (v <- directive_value line ;; Ok (set_artist cfg v))%py
  else if startswith (py "album:") line then
    (v <- directive_value line ;; Ok (set_album cfg v))%py
  else if startswith (py "year:") line then
    (v <- directive_value line ;; Ok (set_year cfg v))%py
  else
    match re_match TRACK_LINE line with
    | Some [timestamp; title] => Ok (append_track cfg (strip title, timestamp))
    | Some _ => Raise ValueError_unpack
    | None => Ok cfg
    end.

Fixpoint parse_lines (cfg : config) (lines : list str) : result config :=
  match lines with
  | [] => Ok cfg
  | raw :: rest => (cfg' <- parse_line cfg raw ;; parse_lines cfg' rest)%py
  end.

(** [not v] for a value that is [None] or a string. *)
Definition falsy (v : option str) : bool :=
  match v with
  | None => true
  | Some s => is_empty s
  end.

Definition missing_fields (cfg : config) : list str :=
  (if falsy (url cfg) then [py "url"] else [])
  ++ (if falsy (artist cfg) then [py "artist"] else [])
  ++ (if falsy (album cfg) then [py "album"] else [])
  ++ (if is_empty (tracklist cfg) then [py "tracklist"] else []).

(** What [parse_config] prints before it calls [sys.exit(1)]. *)
Inductive message : Type :=
| msg_config_not_found
    (* "Config file not found: {filepath}" and the hint that follows *)
| msg_missing_fields (fields : str).
    (* f"Missing required fields in {filepath}: {', '.join(missing)}" *)

(** [parse_config(filepath)], once the file is looked for and read.  The
    argument is what was found at [filepath]: [None] when the file does not
    exist, else the text [read_text] returned.  The result is what was
    printed and what was returned or raised.  Looking for the file and
    reading it can raise too: [parse_config_file], further down, adds
    that. *)
Definition parse_config (file : option str) : list message * result config :=
  match file with
  | None => ([msg_config_not_found], Raise (SystemExit 1))
  | Some content =>
      match parse_lines empty_config (splitlines content) with
      | Raise e => ([], Raise e)
      | Ok cfg =>
          let missing := missing_fields cfg in
          if negb (is_empty missing)
          then ([msg_missing_fields (join (py ", ") missing)],
                Raise (SystemExit 1))
          else ([], Ok cfg)
      end
  end.

(* ================================================================== *)
(** * Helper functions                                                  *)
(* ================================================================== *)

Definition timestamp_to_seconds (timestamp : str) : result Z :=
  match split ":" timestamp with
  | [minutes; seconds] =>
      (m <- int minutes ;; s <- int seconds ;; Ok (m * 60 + s))%py
  | [hours; minutes; seconds] =>
      (h <- int hours ;; m <- int minutes ;; s <- int seconds ;;
       Ok (h * 3600 + m * 60 + s))%py
  | _ => Raise (ValueError_timestamp timestamp)
  end.

(** ** Paths

    A [pathlib.Path] of the POSIX flavour: whether it starts at the root, and
    its components.  Empty components and [.] are dropped when a string is
    read as a path (a leading double slash is not told apart from a single
    one). *)

Record path : Type := mk_path {
  anchored : bool;
  parts : list str
}.

Definition dot : str := py ".".

Definition str_eqb (a b : str) : bool :=
  if list_eq_dec ascii_dec a b then true else false.

Definition path_of_str (s : str) : path :=
  {| anchored := startswith (py "/") s;
     parts := filter (fun c => negb (is_empty c) && negb (str_eqb c dot))
                     (split "/" s) |}.

(** [p / name] *)
Definition joinpath (p : path) (name : str) : path :=
  let q := path_of_str name in
  if anchored q then q
  else {| anchored := anchored p; parts := parts p ++ parts q |}.

(** ** [split_audio] *)

(** One run of the external transcoder:
    [ffmpeg -y -i INPUT -ss SS -t T -acodec libmp3lame -ab 320k
            -map_metadata -1 OUTPUT]. *)
Record ffmpeg_call : Type := mk_ffmpeg_call {
  ff_input : path;
  ff_ss : Z;
  ff_t : number;
  ff_output : path
}.

Definition safe_title (title : str) : str := replace "/" "-" title.

(** [f"{track_num} - {safe_title}.mp3"] *)
Definition track_file_name (i : nat) (title : str) : str :=
  format_02d (Z.of_nat i) ++ py " - " ++ safe_title title ++ py ".mp3".

Section SplitAudio.

(** The transcoder, seen from the program: [subprocess.run([...])] raises
    when its arguments cannot be put together or the program cannot be run
    at all, and otherwise returns its exit status. *)
Variable ffmpeg : ffmpeg_call -> result Z.

Variable input_file : path.
Variable output_dir : path.
Variable tracklist : list (str * str).
Variable total_duration : float.

(** The [if i < len(tracklist)] of the loop body; [i] counts from 1, so
    [tracklist[i]] is the entry after the current one. *)
Definition segment_duration (i : nat) (start_seconds : Z) : result number :=
  if (i <? length tracklist)%nat then
    (next <- index tracklist i ;;
     next_start <- timestamp_to_seconds (snd next) ;;
     Ok (Int (next_start - start_seconds)))%py
  else
    (d <- float_sub_int total_duration start_seconds ;; Ok (Float d))%py.

(** The loop body up to the transcoder run: the arguments of the run for
    entry [i], once the progress line with the duration is printed. *)
Definition plan_segment (i : nat) (entry : str * str) : result ffmpeg_call :=
  let (title, start_time) := entry in
  let output_file := joinpath output_dir (track_file_name i title) in
  (start_seconds <- timestamp_to_seconds start_time ;;
   duration <- segment_duration i start_seconds ;;
   printed <- format_1f duration ;;
   Ok {| ff_input := input_file; ff_ss := start_seconds;
         ff_t := duration; ff_output := output_file |})%py.

(** [subprocess.run([...], capture_output=True, check=True)] *)
Definition run_checked (call : ffmpeg_call) : result unit :=
  (status <- ffmpeg call ;;
   if status =? 0 then Ok tt else Raise (CalledProcessError status))%py.

(** The loop [for i, (title, start_time) in enumerate(tracklist, 1)], from
    entry [i] on.  Returns the transcoder runs made, in order, and the
    value returned or the exception raised. *)
Fixpoint split_loop (i : nat) (todo : list (str * str))
  (output_files : list path) : list ffmpeg_call * result (list path) :=
  match todo with
  | [] => ([], Ok output_files)
  | entry :: rest =>
      match plan_segment i entry with
      | Raise e => ([], Raise e)
      | Ok call =>
          match run_checked call with
          | Raise e => ([call], Raise e)
          | Ok _ =>
              let (calls, r) :=
                split_loop (S i) rest (output_files ++ [ff_output call]) in
              (call :: calls, r)
          end
      end
  end.

Definition split_audio : list ffmpeg_call * result (list path) :=
  split_loop 1 tracklist [].

End SplitAudio.

(** ** [add_metadata] *)

(** An ID3 tag: its text frames, by frame identifier.  [add] replaces the
    frame of the same identifier, if there is one. *)
Definition id3 : Type := list (str * str).

Fixpoint id3_add (frame text : str) (tag : id3) : id3 :=
  match tag with
  | [] => [(frame, text)]
  | (f, t) :: tag' =>
      if str_eqb f frame then (frame, text) :: tag'
      else (f, t) :: id3_add frame text tag'
  end.

Fixpoint id3_get (frame : str) (tag : id3) : option str :=
  match tag with
  | [] => None
  | (f, t) :: tag' => if str_eqb f frame then Some t else id3_get frame tag'
  end.

Definition path_eqb (p q : path) : bool :=
  Bool.eqb (anchored p) (anchored q)
  && (if list_eq_dec (list_eq_dec ascii_dec) (parts p) (parts q)
      then true else false).

(** The tags saved so far, the latest first. *)
Definition tag_store : Type := list (path * id3).

(** [ID3(filepath)], and [ID3()] on [ID3NoHeaderError]. *)
Fixpoint id3_load (store : tag_store) (file : path) : id3 :=
  match store with
  | [] => []
  | (p, tag) :: store' => if path_eqb p file then tag else id3_load store' file
  end.

(** [audio.save(filepath)] *)
Definition id3_save (store : tag_store) (file : path) (tag : id3) : tag_store :=
  (file, tag) :: store.

Record album_info : Type := mk_album_info {
  info_artist : str;
  info_album : str;
  info_year : option str
}.

(** [f"{i}/{len(tracklist)}"] *)
Definition track_number_text (i n : nat) : str :=
  format_d (Z.of_nat i) ++ py "/" ++ format_d (Z.of_nat n).

(** The body of the loop of [add_metadata].  A frame is stored with the
    text it is given: the library's own reading of the text of a TDRC frame
    as a time stamp is not modelled. *)
Definition tag_file (info : album_info) (n : nat) (store : tag_store)
  (i : nat) (file : path) (title : str) : tag_store :=
  let audio := id3_load store file in
  let audio := id3_add (py "TIT2") title audio in
  let audio := id3_add (py "TPE1") (info_artist info) audio in
  let audio := id3_add (py "TALB") (info_album info) audio in
  let audio := id3_add (py "TRCK") (track_number_text i n) audio in
  let audio :=
    match info_year info with
    | Some y => if is_empty y then audio else id3_add (py "TDRC") y audio
    | None => audio
    end in
  id3_save store file audio.

(** The loop [for i, (filepath, (title, _)) in
    enumerate(zip(files, tracklist), 1)], from pair [i] on. *)
Fixpoint tag_loop (info : album_info) (n : nat) (i : nat)
  (pairs : list (path * (str * str))) (store : tag_store) : tag_store :=
  match pairs with
  | [] => store
  | (file, (title, _)) :: rest =>
      tag_loop info n (S i) rest (tag_file info n store i file title)
  end.

Definition add_metadata (files : list path) (tracklist : list (str * str))
  (info : album_info) (store : tag_store) : tag_store :=
  tag_loop info (length tracklist) 1 (combine files tracklist) store.

(* ================================================================== *)
(** * More built-ins: [float(s)] and [bytes.decode()]                   *)
(* ================================================================== *)

Module PyText.

(** ** [float(s)] for a string

    Surrounding whitespace is skipped (the same characters as for [int]),
    digits may be grouped by single underscores, and what is left must be
    a decimal number with an optional sign, fraction and exponent, or one
    of [inf], [infinity] and [nan] in any case.  The value is the double
    nearest to the decimal number, ties to even; beyond the largest double
    it is an infinity, without an exception. *)

(** Underscores are allowed between two digits only; [prev] is the
    character before the current one.  Returns the text without them. *)
Fixpoint drop_underscores (prev : option ascii) (s : str) : option str :=
  match s with
  | [] =>
      match prev with
      | Some p => if Ascii.eqb p underscore then None else Some []
      | None => Some []
      end
  | c :: s' =>
      if Ascii.eqb c underscore then
        match prev with
        | Some p => if is_digit p then drop_underscores (Some c) s' else None
        | None => None
        end
      else
        match prev with
        | Some p =>
            if Ascii.eqb p underscore && negb (is_digit c) then None
            else option_map (cons c) (drop_underscores (Some c) s')
        | None => option_map (cons c) (drop_underscores (Some c) s')
        end
  end.

(** The longest run of digits at the front, and what follows it. *)
Fixpoint span_digits (s : str) : str * str :=
  match s with
  | c :: s' =>
      if is_digit c then let (ds, rest) := span_digits s' in (c :: ds, rest)
      else ([], s)
  | [] => ([], [])
  end.

Definition digits_value (ds : str) : Z :=
  fold_left (fun acc c => 10 * acc + digit_value c) ds 0.

(** ASCII lower case *)
Definition lower (c : ascii) : ascii :=
  if in_range 65 90 c then ascii_of_N (code c + 32) else c.

(** The double nearest to [m * 10^e10], with the sign [negative]. *)
Definition decimal_to_float (negative : bool) (m e10 : Z) : float :=
  if m =? 0 then SF2Prim (S754_zero negative)
  else if 0 <=? e10 then
    SF2Prim (binary_normalize prec emax
               (if negative then - (m * 10 ^ e10) else m * 10 ^ e10) 0 false)
  else
    SF2Prim (SFdiv prec emax
               (S754_finite negative (Z.to_pos m) 0)
               (S754_finite false (Z.to_pos (10 ^ (- e10))) 0)).

(** The exponent part: nothing, or [e] or [E], an optional sign and at
    least one digit. *)
Definition exponent_part (s : str) : option Z :=
  match s with
  | [] => Some 0
  | c :: s' =>
      if Ascii.eqb (lower c) "e" then
        let (negative, body) := scan_sign s' in
        let (ds, rest) := span_digits body in
        if negb (is_empty ds) && is_empty rest
        then Some (if negative then - digits_value ds else digits_value ds)
        else None
      else None
  end.

Definition unsigned_float (negative : bool) (s : str) : option float :=
  let (int_digits, rest) := span_digits s in
  let (frac_digits, rest) :=
    match rest with
    | c :: rest' => if Ascii.eqb c "." then span_digits rest' else ([], rest)
    | [] => ([], rest)
    end in
  if is_empty (int_digits ++ frac_digits) then
    let word := map lower s in
    if str_eqb word (py "inf") || str_eqb word (py "infinity")
    then Some (if negative then neg_infinity else infinity)
    else if str_eqb word (py "nan") then Some nan
    else None
  else
    match exponent_part rest with
    | Some e =>
        Some (decimal_to_float negative (digits_value (int_digits ++ frac_digits))
                (e - Z.of_nat (length frac_digits)))
    | None => None
    end.

(** [float(s)]; [None] stands for the [ValueError] it raises. *)
Definition float_of_str (s : str) : option float :=
  let trimmed := rev (dropwhile is_int_space (rev (dropwhile is_int_space s))) in
  match drop_underscores None trimmed with
  | Some text => let (negative, body) := scan_sign text in unsigned_float negative body
  | None => None
  end.

(** ** [b.decode()]

    The default codec is UTF-8 with strict error handling: [decode] raises
    [UnicodeDecodeError] unless the bytes are well-formed UTF-8 (shortest
    encodings, no surrogates, nothing beyond U+10FFFF). *)

Definition bytes : Type := list Byte.byte.

Definition byte_in (lo hi : N) (b : Byte.byte) : bool :=
  ((lo <=? Byte.to_N b) && (Byte.to_N b <=? hi))%N.

Definition continuation (b : Byte.byte) : bool := byte_in 128 191 b.

Fixpoint utf8_valid (b : bytes) : bool :=
  match b with
  | [] => true
  | b0 :: rest =>
      if byte_in 0 127 b0 then utf8_valid rest
      else if byte_in 194 223 b0 then
        match rest with
        | b1 :: rest' => continuation b1 && utf8_valid rest'
        | [] => false
        end
      else if byte_in 224 239 b0 then
        match rest with
        | b1 :: b2 :: rest' =>
            (if byte_in 224 224 b0 then byte_in 160 191 b1
             else if byte_in 237 237 b0 then byte_in 128 159 b1
             else continuation b1)
            && continuation b2 && utf8_valid rest'
        | _ => false
        end
      else if byte_in 240 244 b0 then
        match rest with
        | b1 :: b2 :: b3 :: rest' =>
            (if byte_in 240 240 b0 then byte_in 144 191 b1
             else if byte_in 244 244 b0 then byte_in 128 143 b1
             else continuation b1)
            && continuation b2 && continuation b3 && utf8_valid rest'
        | _ => false
        end
      else false
  end.

End PyText.
Import PyText.

(* ================================================================== *)
(** * The programs [main] runs and the files it touches                 *)
(* ================================================================== *)

Definition CONFIG_FILE : str := py "album.txt".
Definition COOKIES_FILE : str := py "cookies.txt".

(** One run of the downloader:
    [yt-dlp --remote-components ejs:github -x --audio-format mp3
            --audio-quality 0 -o OUTPUT [--cookies COOKIES] URL]. *)
Record ytdlp_call : Type := mk_ytdlp_call {
  yt_output : path;
  yt_cookies : option path;
  yt_url : str
}.

(** What [subprocess.run(..., capture_output=True, text=True)] returns. *)
Record completed : Type := mk_completed {
  cp_returncode : Z;
  cp_stdout : str;
  cp_stderr : str
}.

(** The [stderr] attribute of a [CalledProcessError]: [None] when the run
    did not capture it, [bytes] when it did, a [str] with [text=True]. *)
Inductive captured : Type :=
| not_captured
| captured_bytes (b : bytes)
| captured_text (s : str).

(** What the functions below raise: the exceptions of the first part, a
    [CalledProcessError] now with its [stderr], and three more. *)
Inductive raised : Type :=
| CalledProcessError_with (returncode : Z) (err : captured)
| Other (e : exn)
| ValueError_float (text : str)
    (* float(): could not convert string to float *)
| FileNotFoundError (file : path)
    (* raise FileNotFoundError(f"Downloaded audio not found at {audio_file}") *)
| AttributeError
    (* 'str' object has no attribute 'decode' *)
| UnicodeDecodeError
    (* bytes.decode() on bytes that are not UTF-8 *)
| MutagenError.
    (* what the tagging library raises on a file it cannot load or save *)

Definition with_stderr (err : captured) (e : exn) : raised :=
  match e with
  | CalledProcessError returncode => CalledProcessError_with returncode err
  | _ => Other e
  end.

(** What [parse_config] finds at [album.txt]. *)
Inductive config_file : Type :=
| no_file
    (* filepath.exists() is False *)
| unreadable (e : raised)
    (* filepath.exists() or filepath.read_text(encoding="utf-8") raises:
       an OSError, or UnicodeDecodeError on bytes that are not UTF-8 *)
| text_file (content : str).
    (* filepath.read_text(encoding="utf-8") returns [content] *)

(** Everything outside the program, as the program meets it.  A query or
    a command can raise instead of answering ([OSError] and the like).
    In a run of [main] no function is asked twice about the same argument
    (the two directories differ, and so do the two files looked for and
    the files the transcoder runs write), so nothing is lost by leaving
    the history out. *)
Record world : Type := mk_world {
  w_album_txt : config_file;
  w_exists : path -> result bool;                 (* Path.exists() *)
  w_mkdir : path -> result unit;
    (* Path.mkdir(parents=True, exist_ok=True) *)
  w_yt_dlp : ytdlp_call -> result Z;              (* the exit status *)
  w_ffprobe : path -> result completed;
  w_ffmpeg : ffmpeg_call -> result Z;             (* the exit status *)
  w_ffmpeg_stderr : ffmpeg_call -> bytes;         (* what the run wrote to stderr *)
  w_tags : tag_store;
    (* the tags of the files once the transcoder has written them *)
  w_tag_error : path -> option raised;
    (* what ID3(filepath), other than ID3NoHeaderError, or
       audio.save(filepath) raises for the file, if anything *)
  w_unlink : path -> result unit;                 (* Path.unlink() *)
  w_rmdir : path -> result unit;                  (* Path.rmdir() *)
  w_getcwd : result path;                         (* os.getcwd(), for Path.absolute() *)
  w_iterdir : path -> result (list path)          (* Path.iterdir() *)
}.

(** The text of [album.txt], [None] if there is no text to parse. *)
Definition w_config (w : world) : option str :=
  match w_album_txt w with
  | text_file content => Some content
  | no_file | unreadable _ => None
  end.

(** What a run of the program does to the outside, in order. *)
Inductive event : Type :=
| ev_mkdir (dir : path)
| ev_yt_dlp (call : ytdlp_call)
| ev_ffprobe (file : path)
| ev_ffmpeg (call : ffmpeg_call)
| ev_unlink (file : path)
| ev_rmdir (dir : path).

Record state : Type := mk_state {
  trace : list event;
  tags : tag_store
}.

Inductive outcome (A : Type) : Type :=
| Returned (a : A)
| Failed (e : raised).

Arguments Returned {A} a.
Arguments Failed {A} e.

(** A computation that acts on the outside and returns or raises. *)
Definition run (A : Type) : Type := state -> state * outcome A.

Definition ret {A : Type} (a : A) : run A := fun s => (s, Returned a).

Definition fail {A : Type} (e : raised) : run A := fun s => (s, Failed e).

Definition and_then {A B : Type} (m : run A) (k : A -> run B) : run B :=
  fun s =>
    match m s with
    | (s', Returned a) => k a s'
    | (s', Failed e) => (s', Failed e)
    end.

Declare Scope run_scope.
Delimit Scope run_scope with run.
Notation "x <-- m ;; k" := (and_then m (fun x => k))
  (at level 61, m at next level, right associativity) : run_scope.

Definition lift {A : Type} (r : result A) : outcome A :=
  match r with
  | Ok a => Returned a
  | Raise e => Failed (with_stderr not_captured e)
  end.

(** Asking the outside something. *)
Definition query {A : Type} (r : result A) : run A := fun s => (s, lift r).

(** Doing something to the outside. *)
Definition perform {A : Type} (ev : event) (r : result A) : run A :=
  fun s => ({| trace := trace s ++ [ev]; tags := tags s |}, lift r).

(* ================================================================== *)
(** * [parse_config] on the file system                                 *)
(* ================================================================== *)

(** [parse_config(filepath)] with the file system at hand.  What
    [filepath.exists()] or [filepath.read_text()] raises escapes before
    anything is printed; else the call is [parse_config] above on what was
    found. *)
Definition parse_config_file (file : config_file)
  : list message * outcome config :=
  match file with
  | unreadable e => ([], Failed e)
  | no_file => (fst (parse_config None), lift (snd (parse_config None)))
  | text_file content =>
      (fst (parse_config (Some content)), lift (snd (parse_config (Some content))))
  end.

(* ================================================================== *)
(** * [get_audio_duration] and [download_audio]                         *)
(* ================================================================== *)

(** [ffprobe -v error -show_entries format=duration
             -of default=noprint_wrappers=1:nokey=1 FILE], checked, and
    [float(result.stdout.strip())]. *)
Definition get_audio_duration (w : world) (filepath : path) : run float :=
  (result <-- perform (ev_ffprobe filepath) (w_ffprobe w filepath) ;;
   if cp_returncode result =? 0 then
     let text := strip (cp_stdout result) in
     match float_of_str text with
     | Some duration => ret duration
     | None => fail (ValueError_float text)
     end
   else
     fail (CalledProcessError_with (cp_returncode result)
             (captured_text (cp_stderr result))))%run.

Definition download_audio (w : world) (url : str) (output_path : path) : run path :=
  let output_template := joinpath output_path (py "full_audio.%(ext)s") in
  let cookies_path := path_of_str COOKIES_FILE in
  (has_cookies <-- query (w_exists w cookies_path) ;;
   let cmd := {| yt_output := output_template;
                 yt_cookies := if has_cookies : bool then Some cookies_path else None;
                 yt_url := url |} in
   status <-- perform (ev_yt_dlp cmd) (w_yt_dlp w cmd) ;;
   if status =? 0 then
     let audio_file := joinpath output_path (py "full_audio.mp3") in
     found <-- query (w_exists w audio_file) ;;
     if found : bool then ret audio_file
     else fail (FileNotFoundError audio_file)
   else fail (CalledProcessError_with status not_captured))%run.

(* ================================================================== *)
(** * [main]                                                            *)
(* ================================================================== *)

(** [split_audio] as a step of [main]: its transcoder runs go to the trace,
    and a [CalledProcessError] carries what the failed run, the last one
    made, wrote to [stderr]. *)
Definition run_split_audio (w : world) (input_file output_dir : path)
  (tracklist : list (str * str)) (total_duration : float) : run (list path) :=
  fun s =>
    let (calls, r) :=
      split_audio (w_ffmpeg w) input_file output_dir tracklist total_duration in
    ({| trace := trace s ++ map ev_ffmpeg calls; tags := tags s |},
     match r with
     | Ok files => Returned files
     | Raise e =>
         Failed (with_stderr
                   match rev calls with
                   | call :: _ => captured_bytes (w_ffmpeg_stderr w call)
                   | [] => not_captured
                   end e)
     end).

(** [add_metadata] as a step of [main]: the loop of [tag_loop], where
    loading or saving the tag of a file can raise.  That ends the loop: the
    files before it are tagged, and this file and those after it are taken
    to keep the tags they had. *)
Fixpoint run_tag_loop (w : world) (info : album_info) (n : nat) (i : nat)
  (pairs : list (path * (str * str))) : run unit :=
  match pairs with
  | [] => ret tt
  | (file, (title, _)) :: rest =>
      match w_tag_error w file with
      | Some e => fail e
      | None =>
          fun s =>
            run_tag_loop w info n (S i) rest
              {| trace := trace s; tags := tag_file info n (tags s) i file title |}
      end
  end.

Definition run_add_metadata (w : world) (files : list path)
  (tracklist : list (str * str)) (info : album_info) : run unit :=
  run_tag_loop w info (length tracklist) 1 (combine files tracklist).

(** The name of the album's directory. *)
Definition album_folder (info : album_info) : str :=
  let plain := info_artist info ++ py " - " ++ info_album info in
  match info_year info with
  | Some y => if is_empty y then plain else plain ++ py " (" ++ y ++ py ")"
  | None => plain
  end.

(** The body of the [try] statement. *)
Definition main_body (w : world) (url : str) (info : album_info)
  (tracklist : list (str * str)) (output_dir : path) : run unit :=
  let temp_dir := joinpath (path_of_str (py "output")) (py ".temp") in
  (_ <-- perform (ev_mkdir temp_dir) (w_mkdir w temp_dir) ;;
   audio_file <-- download_audio w url temp_dir ;;
   total_duration <-- get_audio_duration w audio_file ;;
   track_files <-- run_split_audio w audio_file output_dir tracklist total_duration ;;
   _ <-- run_add_metadata w track_files tracklist info ;;
   _ <-- perform (ev_unlink audio_file) (w_unlink w audio_file) ;;
   _ <-- perform (ev_rmdir temp_dir) (w_rmdir w temp_dir) ;;
   _ <-- (if anchored output_dir then ret output_dir
          else query (w_getcwd w)) ;;
   _ <-- query (w_iterdir w output_dir) ;;
   ret tt)%run.

(** The two [except] clauses: what [main] ends with when the body raised
    [e].  A [CalledProcessError] is reported, with [e.stderr.decode()] when
    [e.stderr] is not empty; any other [Exception] is reported; both end in
    [sys.exit(1)].  [SystemExit] is not an [Exception]. *)
Definition handle (e : raised) : raised :=
  match e with
  | CalledProcessError_with _ err =>
      match err with
      | not_captured => Other (SystemExit 1)
      | captured_bytes b =>
          if is_empty b || utf8_valid b then Other (SystemExit 1)
          else UnicodeDecodeError
      | captured_text s =>
          if is_empty s then Other (SystemExit 1) else AttributeError
      end
  | Other (SystemExit status) => Other (SystemExit status)
  | _ => Other (SystemExit 1)
  end.

(** [try: body except ...] *)
Definition guarded {A : Type} (body : run A) : run A :=
  fun s =>
    match body s with
    | (s', Returned a) => (s', Returned a)
    | (s', Failed e) => (s', Failed (handle e))
    end.

(** [main()].  [parse_config] is called outside the [try]: what it raises
    escapes.  It returns only configurations in which [url], [artist] and
    [album] are set, so the last branch is never taken. *)
Definition main (w : world) : state * outcome unit :=
  let start := {| trace := []; tags := w_tags w |} in
  match parse_config_file (w_album_txt w) with
  | (_, Failed e) => (start, Failed e)
  | (_, Returned config) =>
      match url config, artist config, album config with
      | Some the_url, Some the_artist, Some the_album =>
          let info := {| info_artist := the_artist; info_album := the_album;
                         info_year := year config |} in
          let output_dir := joinpath (path_of_str (py "output")) (album_folder info) in
          (_ <-- perform (ev_mkdir output_dir) (w_mkdir w output_dir) ;;
           guarded (main_body w the_url info (tracklist config) output_dir))%run
            start
      | _, _, _ => (start, Failed (Other (SystemExit 1)))
      end
  end.

(* ================================================================== *)
(** * Quantities the properties speak of                                *)
(* ================================================================== *)

(** A non-empty run of decimal digits, [D+]. *)
Definition is_digits (ds : str) : bool :=
  negb (is_empty ds) && forallb is_digit ds.

(** The number a run of decimal digits denotes. *)
Definition numeral (ds : str) : Z :=
  fold_left (fun acc c => 10 * acc + digit_value c) ds 0.

(** [D+:D+] or [D+:D+:D+]. *)
Definition timestamp_shape (ts : str) : Prop :=
  exists a b, is_digits a = true /\ is_digits b = true /\
    (ts = a ++ py ":" ++ b \/
     exists c, is_digits c = true /\ ts = a ++ py ":" ++ b ++ py ":" ++ c).

(** The [ValueError]s among the exceptions. *)
Definition is_ValueError (e : exn) : bool :=
  match e with
  | ValueError_int _ | ValueError_timestamp _ | ValueError_unpack => true
  | _ => false
  end.

(** The exact sum of a list of durations; [None] if one of them is not a
    finite number. *)
Fixpoint sum_values (xs : list number) : option Q :=
  match xs with
  | [] => Some 0%Q
  | x :: xs' =>
      match number_value x, sum_values xs' with
      | Some v, Some total => Some (v + total)%Q
      | _, _ => None
      end
  end.

(** The entries a line of the configuration text adds to the tracklist. *)
Definition line_entries (raw : str) : list (str * str) :=
  match parse_line empty_config raw with
  | Ok cfg => tracklist cfg
  | Raise _ => []
  end.

(** What the digit scanner of [int] can consume. *)
Definition numeral_char (c : ascii) : bool :=
  is_digit c || Ascii.eqb c underscore.

(** Decimal digits, grouped by single underscores: [D(_?D)*]. *)
Inductive grouped_digits : str -> Prop :=
| gd_digit (d : ascii) :
    is_digit d = true -> grouped_digits [d]
| gd_more (d : ascii) (s : str) :
    is_digit d = true -> grouped_digits s -> grouped_digits (d :: s)
| gd_group (d : ascii) (s : str) :
    is_digit d = true -> grouped_digits s -> grouped_digits (d :: underscore :: s).

(** An integer literal as [int()] reads it: whitespace, an optional sign,
    grouped digits, no more of them than the interpreter converts,
    whitespace. *)
Definition int_literal (s : str) : Prop :=
  exists lead sign body trail,
    s = lead ++ sign ++ body ++ trail
    /\ forallb is_int_space lead = true
    /\ (sign = [] \/ sign = py "+" \/ sign = py "-")
    /\ grouped_digits body
    /\ (digit_count body <= INT_MAX_STR_DIGITS)%nat
    /\ forallb is_int_space trail = true.

(** The first field with more characters than [int()] converts digits. *)
Definition long_field (fields : list str) : option str :=
  find (fun field => (INT_MAX_STR_DIGITS <? length field)%nat) fields.

(** The offsets of a tracklist: [starts] lists what [timestamp_to_seconds]
    returns for each entry. *)
Definition parsed_starts (tracklist : list (str * str)) (starts : list Z) : Prop :=
  Forall2 (fun entry s => timestamp_to_seconds (snd entry) = Ok s) tracklist starts.

(** An [int] that converts to a [float]. *)
Definition representable (z : Z) : Prop := exists f, float_of_int z = Ok f.

(** The differences between neighbouring offsets. *)
Definition differences (starts : list Z) : list Z :=
  map (fun p => snd p - fst p) (combine starts (tl starts)).

(** What it means for a pattern to match from one state to another,
    without the order of preference. *)
Fixpoint re_sem (subject : str) (r : regex) (st st' : re_state) : Prop :=
  match r with
  | re_char cc =>
      exists c, cc_match cc c = true /\ fst st = c :: fst st' /\ snd st' = snd st
  | re_plus cc =>
      exists pre, pre <> [] /\ forallb (cc_match cc) pre = true
                  /\ fst st = pre ++ fst st' /\ snd st' = snd st
  | re_opt r1 => re_sem subject r1 st st' \/ st' = st
  | re_seq r1 r2 =>
      exists mid, re_sem subject r1 st mid /\ re_sem subject r2 mid st'
  | re_group r1 =>
      exists mid,
        re_sem subject r1 st mid
        /\ st' = (fst mid,
                  snd mid ++ [firstn (length (fst st) - length (fst mid)) (fst st)])
  | re_bol => length (fst st) = length subject /\ st' = st
  | re_eol => st' = st /\ (fst st = [] \/ fst st = [LF])
  end.

(** What [TRACK_LINE] matches, and what the groups are then. *)
Definition track_line_match (line ts title tail : str) : Prop :=
  exists ws,
    line = ts ++ ws ++ title ++ tail /\ timestamp_shape ts
    /\ ws <> [] /\ forallb is_space ws = true
    /\ title <> [] /\ forallb (fun c => negb (Ascii.eqb c LF)) title = true
    /\ (tail = [] \/ tail = [LF]).

(** The four directives of the configuration text. *)
Inductive field : Type := f_url | f_artist | f_album | f_year.

Definition field_key (fd : field) : str :=
  match fd with
  | f_url => py "url"
  | f_artist => py "artist"
  | f_album => py "album"
  | f_year => py "year"
  end.

Definition get_field (fd : field) (cfg : config) : option str :=
  match fd with
  | f_url => url cfg
  | f_artist => artist cfg
  | f_album => album cfg
  | f_year => year cfg
  end.

Definition set_field (fd : field) (cfg : config) (v : str) : config :=
  match fd with
  | f_url => set_url cfg v
  | f_artist => set_artist cfg v
  | f_album => set_album cfg v
  | f_year => set_year cfg v
  end.

(** The conditions of the [if]/[elif] chain of [parse_config], together. *)
Definition is_directive (line : str) : bool :=
  startswith (py "url:") line || startswith (py "artist:") line
  || startswith (py "album:") line || startswith (py "year:") line.

(** The shape of a tracklist line: a timestamp, at least one whitespace
    character, and a remainder that is not empty. *)
Definition tracklist_line (line ts rest : str) : Prop :=
  exists ws,
    line = ts ++ ws ++ rest /\ timestamp_shape ts
    /\ ws <> [] /\ forallb is_space ws = true /\ rest <> [].

(** The temporary directory of [main] and the audio it expects there. *)
Definition temp_dir : path := path_of_str (py "output/.temp").
Definition downloaded_audio : path := path_of_str (py "output/.temp/full_audio.mp3").

(** The album directory [main] derives from a configuration. *)
Definition info_of (cfg : config) : album_info :=
  {| info_artist := match artist cfg with Some a => a | None => [] end;
     info_album := match album cfg with Some b => b | None => [] end;
     info_year := year cfg |}.

Definition output_dir_of (cfg : config) : path :=
  joinpath (path_of_str (py "output")) (album_folder (info_of cfg)).

(** The transcoder runs in a trace. *)
Definition transcoder_runs (t : list event) : list ffmpeg_call :=
  flat_map (fun ev => match ev with ev_ffmpeg call => [call] | _ => [] end) t.

(* ================================================================== *)
(** * Sample inputs                                                     *)
(* ================================================================== *)

(** Transcoders: one that accepts every run, one that fails every run, and
    one that is not installed. *)
Definition accept_all : ffmpeg_call -> result Z := fun _ => Ok 0.
Definition reject_all : ffmpeg_call -> result Z := fun _ => Ok 1.
Definition not_installed : ffmpeg_call -> result Z := fun _ => Raise OSError.

(** The downloaded audio, the album's directory, and some tracklists. *)
Definition sample_input : path := path_of_str (py "output/.temp/full_audio.mp3").
Definition sample_output : path := path_of_str (py "output/Artist - Album").
Definition three_tracks : list (str * str) :=
  [(py "Intro", py "0:00"); (py "Middle", py "2:05"); (py "End", py "5:00")].
Definition one_track : list (str * str) := [(py "Whole", py "0:00")].
Definition two_tracks : list (str * str) :=
  [(py "First", py "0:00"); (py "Second", py "0:50")].

(** An album of twelve tracks. *)
Definition twelve_tracks : list (str * str) :=
  map (fun k => (py "Track", format_d (Z.of_nat k) ++ py ":00")) (seq 0 12).

Definition twelve_files : list path :=
  map (fun k => joinpath sample_output (track_file_name k (py "Track"))) (seq 1 12).

Definition sample_info : album_info :=
  {| info_artist := py "Artist"; info_album := py "Album";
     info_year := Some (py "1999") |}.

(** A configuration text, from its lines. *)
Definition text_of_lines (lines : list string) : str := join [LF] (map py lines).

Definition sample_config : str :=
  text_of_lines
    ["# an album"; "url: https://host/path?t=1:23"; "artist: Artist";
     "album: Album"; ""; "0:00 Intro"; "not a track"; "1:2:3:4 neither";
     "  2:05   Middle / Part  "; "1:00:00 End"]%string.

Definition config_without_artist : str :=
  text_of_lines
    ["url: https://host/video"; "artist:   "; "album: Album"; "0:00 Intro"]%string.

Definition config_with_two_artists : str :=
  text_of_lines
    ["url: https://host/video"; "artist:"; "artist: Artist"; "album: Album";
     "0:00 Intro"]%string.

(** A world in which everything works: the downloader leaves the audio,
    the prober answers [answer], every transcoder run succeeds. *)
Definition fine_world (config : str) (answer : str) : world :=
  {| w_album_txt := text_file config;
     w_exists := fun p =>
       Ok (path_eqb p (path_of_str (py "output/.temp/full_audio.mp3")));
     w_mkdir := fun _ => Ok tt;
     w_yt_dlp := fun _ => Ok 0;
     w_ffprobe := fun _ =>
       Ok {| cp_returncode := 0; cp_stdout := answer; cp_stderr := [] |};
     w_ffmpeg := accept_all;
     w_ffmpeg_stderr := fun _ => [];
     w_tags := [];
     w_tag_error := fun _ => None;
     w_unlink := fun _ => Ok tt;
     w_rmdir := fun _ => Ok tt;
     w_getcwd := Ok (path_of_str (py "/home/user"));
     w_iterdir := fun _ => Ok [] |}.

(** The same world, but the prober fails and says why. *)
Definition world_without_duration (config : str) : world :=
  {| w_album_txt := text_file config;
     w_exists := w_exists (fine_world config []);
     w_mkdir := fun _ => Ok tt;
     w_yt_dlp := fun _ => Ok 0;
     w_ffprobe := fun _ =>
       Ok {| cp_returncode := 1; cp_stdout := [];
             cp_stderr := py "full_audio.mp3: Invalid data found when processing input" |};
     w_ffmpeg := accept_all;
     w_ffmpeg_stderr := fun _ => [];
     w_tags := [];
     w_tag_error := fun _ => None;
     w_unlink := fun _ => Ok tt;
     w_rmdir := fun _ => Ok tt;
     w_getcwd := Ok (path_of_str (py "/home/user"));
     w_iterdir := fun _ => Ok [] |}.

(** And one in which the transcoder fails on every track and writes
    [stderr_bytes] to its standard error. *)
Definition world_without_transcoder (config : str) (stderr_bytes : bytes) : world :=
  {| w_album_txt := text_file config;
     w_exists := w_exists (fine_world config []);
     w_mkdir := fun _ => Ok tt;
     w_yt_dlp := fun _ => Ok 0;
     w_ffprobe := fun _ =>
       Ok {| cp_returncode := 0; cp_stdout := py "4000.000000"; cp_stderr := [] |};
     w_ffmpeg := reject_all;
     w_ffmpeg_stderr := fun _ => stderr_bytes;
     w_tags := [];
     w_tag_error := fun _ => None;
     w_unlink := fun _ => Ok tt;
     w_rmdir := fun _ => Ok tt;
     w_getcwd := Ok (path_of_str (py "/home/user"));
     w_iterdir := fun _ => Ok [] |}.

(** A world in which the downloader reports success and leaves nothing. *)
Definition world_without_download (config : str) : world :=
  {| w_album_txt := text_file config;
     w_exists := fun _ => Ok false;
     w_mkdir := fun _ => Ok tt;
     w_yt_dlp := fun _ => Ok 0;
     w_ffprobe := w_ffprobe (fine_world config []);
     w_ffmpeg := accept_all;
     w_ffmpeg_stderr := fun _ => [];
     w_tags := [];
     w_tag_error := fun _ => None;
     w_unlink := fun _ => Ok tt;
     w_rmdir := fun _ => Ok tt;
     w_getcwd := Ok (path_of_str (py "/home/user"));
     w_iterdir := fun _ => Ok [] |}.

(** The world in which everything works, except that the tagging library
    raises on the file of the second track. *)
Definition world_with_untaggable_track (config : str) : world :=
  {| w_album_txt := text_file config;
     w_exists := w_exists (fine_world config []);
     w_mkdir := fun _ => Ok tt;
     w_yt_dlp := fun _ => Ok 0;
     w_ffprobe := w_ffprobe (fine_world config (py "4000.000000"));
     w_ffmpeg := accept_all;
     w_ffmpeg_stderr := fun _ => [];
     w_tags := [];
     w_tag_error := fun file =>
       if path_eqb file
            (path_of_str (py "output/Artist - Album/02 - Middle - Part.mp3"))
       then Some MutagenError else None;
     w_unlink := fun _ => Ok tt;
     w_rmdir := fun _ => Ok tt;
     w_getcwd := Ok (path_of_str (py "/home/user"));
     w_iterdir := fun _ => Ok [] |}.

(** A world in which [album.txt] is there and is not UTF-8. *)
Definition world_with_undecodable_config : world :=
  {| w_album_txt := unreadable UnicodeDecodeError;
     w_exists := w_exists (fine_world [] []);
     w_mkdir := fun _ => Ok tt;
     w_yt_dlp := fun _ => Ok 0;
     w_ffprobe := w_ffprobe (fine_world [] (py "4000.000000"));
     w_ffmpeg := accept_all;
     w_ffmpeg_stderr := fun _ => [];
     w_tags := [];
     w_tag_error := fun _ => None;
     w_unlink := fun _ => Ok tt;
     w_rmdir := fun _ => Ok tt;
     w_getcwd := Ok (path_of_str (py "/home/user"));
     w_iterdir := fun _ => Ok [] |}.

(* ================================================================== *)
(** * Properties of the built-ins                                       *)
(* ================================================================== *)

(** Facts about single characters are settled by enumeration. *)
Ltac by_cases_on_char c :=
  destruct c as [[] [] [] [] [] [] [] []]; vm_compute; intuition congruence.

Lemma digit_not_int_space (c : ascii) :
  is_digit c = true -> is_int_space c = false.
Proof. by_cases_on_char c. Qed.

Lemma digit_not_space (c : ascii) : is_digit c = true -> is_space c = false.
Proof. by_cases_on_char c. Qed.

Lemma digit_not_colon (c : ascii) :
  is_digit c = true -> Ascii.eqb c ":" = false.
Proof. by_cases_on_char c. Qed.

Lemma digit_not_sign (c : ascii) :
  is_digit c = true ->
  Ascii.eqb c (ascii_of_N 45) = false /\ Ascii.eqb c (ascii_of_N 43) = false.
Proof. by_cases_on_char c. Qed.

Lemma digit_value_range (c : ascii) :
  is_digit c = true -> 0 <= digit_value c <= 9.
Proof.
  destruct c as [[] [] [] [] [] [] [] []]; vm_compute;
    intuition congruence.
Qed.

Lemma is_digits_cons (ds : str) :
  is_digits ds = true ->
  exists d rest, ds = d :: rest /\ is_digit d = true /\ forallb is_digit rest = true.
Proof.
  unfold is_digits. destruct ds as [|d rest]; simpl; [discriminate|].
  intros H. apply andb_prop in H. destruct H as [Hd Hr].
  exists d, rest. auto.
Qed.

Lemma is_digits_forall (ds : str) :
  is_digits ds = true -> forallb is_digit ds = true.
Proof.
  unfold is_digits. intros H. apply andb_prop in H. tauto.
Qed.

(** ** [split] *)

Lemma split_no_sep (sep : ascii) (s : str) :
  forallb (fun c => negb (Ascii.eqb c sep)) s = true -> split sep s = [s].
Proof.
  induction s as [|c s IH]; simpl; [reflexivity|].
  intros H. apply andb_prop in H. destruct H as [Hc Hs].
  apply negb_true_iff in Hc. rewrite Hc, (IH Hs). reflexivity.
Qed.

Lemma split_app_sep (sep : ascii) (a s : str) :
  forallb (fun c => negb (Ascii.eqb c sep)) a = true ->
  split sep (a ++ sep :: s) = a :: split sep s.
Proof.
  induction a as [|c a IH]; simpl; intros H.
  - rewrite Ascii.eqb_refl. reflexivity.
  - apply andb_prop in H. destruct H as [Hc Ha].
    apply negb_true_iff in Hc. rewrite Hc, (IH Ha). reflexivity.
Qed.

Lemma digits_no_colon (ds : str) :
  forallb is_digit ds = true ->
  forallb (fun c => negb (Ascii.eqb c ":")) ds = true.
Proof.
  induction ds as [|c ds IH]; simpl; [reflexivity|].
  intros H. apply andb_prop in H. destruct H as [Hc Hs].
  rewrite (digit_not_colon c Hc), (IH Hs). reflexivity.
Qed.

(** ** [int] *)

Lemma scan_digits_all (ds : str) (acc : Z) :
  forallb is_digit ds = true ->
  scan_digits acc ds =
    (fold_left (fun a c => 10 * a + digit_value c) ds acc, []).
Proof.
  revert acc. induction ds as [|c ds IH]; simpl; intros acc H; [reflexivity|].
  apply andb_prop in H. destruct H as [Hc Hs].
  rewrite Hc. apply IH, Hs.
Qed.

Lemma digit_count_app (a b : str) :
  digit_count (a ++ b) = (digit_count a + digit_count b)%nat.
Proof. unfold digit_count. rewrite filter_app. apply length_app. Qed.

Lemma digit_count_digits (ds : str) :
  forallb is_digit ds = true -> digit_count ds = length ds.
Proof.
  unfold digit_count. induction ds as [|c ds IH]; simpl; [reflexivity|].
  intros H. apply andb_prop in H. destruct H as [Hc Hs].
  rewrite Hc. simpl. rewrite (IH Hs). reflexivity.
Qed.

Lemma digit_count_le_length (s : str) : (digit_count s <= length s)%nat.
Proof. apply filter_length_le. Qed.

(** The digit fields [int()] converts are those of at most 4300 digits. *)
Lemma int_of_digits (ds : str) :
  is_digits ds = true -> (length ds <= INT_MAX_STR_DIGITS)%nat ->
  int ds = Ok (numeral ds).
Proof.
  intros H Hlen. destruct (is_digits_cons ds H) as (d & rest & -> & Hd & Hr).
  assert (forallb is_digit (d :: rest) = true) as Hall
    by (simpl; rewrite Hd, Hr; reflexivity).
  unfold int, numeral. simpl dropwhile.
  rewrite (digit_not_int_space d Hd).
  unfold scan_sign.
  destruct (digit_not_sign d Hd) as [-> ->].
  rewrite Hd, (scan_digits_all rest _ Hr).
  rewrite (digit_count_digits _ Hall).
  change (digit_count []) with 0%nat. rewrite Nat.sub_0_r.
  destruct (Nat.ltb_spec INT_MAX_STR_DIGITS (length (d :: rest))) as [Hlt|_];
    [lia|].
  reflexivity.
Qed.

Lemma int_of_long_digits (ds : str) :
  is_digits ds = true -> (INT_MAX_STR_DIGITS < length ds)%nat ->
  int ds = Raise (ValueError_int ds).
Proof.
  intros H Hlen. destruct (is_digits_cons ds H) as (d & rest & -> & Hd & Hr).
  assert (forallb is_digit (d :: rest) = true) as Hall
    by (simpl; rewrite Hd, Hr; reflexivity).
  unfold int. simpl dropwhile.
  rewrite (digit_not_int_space d Hd).
  unfold scan_sign.
  destruct (digit_not_sign d Hd) as [-> ->].
  rewrite Hd, (scan_digits_all rest _ Hr).
  rewrite (digit_count_digits _ Hall).
  change (digit_count []) with 0%nat. rewrite Nat.sub_0_r.
  destruct (Nat.ltb_spec INT_MAX_STR_DIGITS (length (d :: rest))) as [_|Hle];
    [reflexivity | lia].
Qed.

Lemma fold_digits_nonneg (ds : str) (acc : Z) :
  forallb is_digit ds = true -> 0 <= acc ->
  0 <= fold_left (fun a c => 10 * a + digit_value c) ds acc.
Proof.
  revert acc.
  induction ds as [|c ds IH]; cbn [fold_left forallb]; intros acc H Hacc;
    [exact Hacc|].
  apply andb_prop in H. destruct H as [Hc Hs].
  apply IH; [exact Hs|]. pose proof (digit_value_range c Hc). lia.
Qed.

Lemma numeral_nonneg (ds : str) : is_digits ds = true -> 0 <= numeral ds.
Proof.
  intros H. apply fold_digits_nonneg; [apply is_digits_forall, H | lia].
Qed.

(** [int] raises nothing but its own [ValueError]. *)
Lemma int_raises (s : str) (e : exn) : int s = Raise e -> e = ValueError_int s.
Proof.
  unfold int. destruct (scan_sign _) as [negative body].
  destruct body as [|d rest]; [congruence|].
  destruct (is_digit d); [|congruence].
  destruct (scan_digits _ _) as [magnitude trailing].
  destruct (Nat.ltb _ _); [congruence|].
  destruct (forallb _ _); congruence.
Qed.

(** *** Dropping a prefix *)

Lemma dropwhile_all (p : ascii -> bool) (l m : str) :
  forallb p l = true -> dropwhile p (l ++ m) = dropwhile p m.
Proof.
  induction l as [|c l IH]; simpl; [reflexivity|].
  intros H. apply andb_prop in H. destruct H as [Hc Hl].
  rewrite Hc. apply IH, Hl.
Qed.

Lemma dropwhile_stops (p : ascii -> bool) (l m : str) :
  forallb p l = false -> dropwhile p (l ++ m) = dropwhile p l ++ m.
Proof.
  induction l as [|c l IH]; simpl; [discriminate|].
  destruct (p c); simpl; [exact IH | reflexivity].
Qed.

Lemma dropwhile_nil (p : ascii -> bool) (l : str) :
  forallb p l = true -> dropwhile p l = [].
Proof.
  intros H. rewrite <- (app_nil_r l), dropwhile_all by exact H. reflexivity.
Qed.

Lemma forallb_rev (p : ascii -> bool) (l : str) :
  forallb p (rev l) = forallb p l.
Proof.
  induction l as [|c l IH]; simpl; [reflexivity|].
  rewrite forallb_app, IH. simpl. rewrite andb_true_r. apply andb_comm.
Qed.

(** *** Which fields [int()] refuses *)

Lemma dropwhile_decompose (p : ascii -> bool) (s : str) :
  exists dropped, s = dropped ++ dropwhile p s /\ forallb p dropped = true.
Proof.
  induction s as [|c s (dropped & IH & Hall)]; simpl.
  - exists []. auto.
  - destruct (p c) eqn:Hc.
    + exists (c :: dropped). simpl. rewrite Hc, Hall, <- IH. auto.
    + exists []. auto.
Qed.

Lemma scan_digits_consumes (n : nat) :
  forall (s : str) (acc : Z) (v : Z) (t : str),
    (length s <= n)%nat -> scan_digits acc s = (v, t) ->
    exists consumed, s = consumed ++ t /\ forallb numeral_char consumed = true.
Proof.
  induction n as [|n IH]; intros s acc v t Hlen H.
  - destruct s; [|simpl in Hlen; lia].
    simpl in H. injection H as _ <-. exists []. auto.
  - destruct s as [|c s]; simpl in H.
    + injection H as _ <-. exists []. auto.
    + simpl in Hlen. destruct (is_digit c) eqn:Hc.
      * apply IH in H; [|lia]. destruct H as (consumed & -> & Hall).
        exists (c :: consumed). simpl. unfold numeral_char at 1.
        rewrite Hc, Hall. auto.
      * destruct (Ascii.eqb c underscore) eqn:Hu.
        -- destruct s as [|d s]; [injection H as _ <-; exists []; auto|].
           destruct (is_digit d) eqn:Hd.
           ++ simpl in Hlen. apply IH in H; [|lia].
              destruct H as (consumed & -> & Hall).
              exists (c :: d :: consumed). simpl. unfold numeral_char at 1 2.
              rewrite Hu, Hd, Hall, orb_true_r. auto.
           ++ injection H as _ <-. exists []. auto.
        -- injection H as _ <-. exists []. auto.
Qed.

Lemma forallb_In_false (p : ascii -> bool) (s : str) (c : ascii) :
  In c s -> p c = false -> forallb p s = false.
Proof.
  induction s as [|d s IH]; simpl; [tauto|].
  intros [->|Hin] Hc; [rewrite Hc; reflexivity|].
  rewrite (IH Hin Hc). apply andb_false_r.
Qed.

Lemma forallb_In_true (p : ascii -> bool) (s : str) (c : ascii) :
  forallb p s = true -> In c s -> p c = true.
Proof.
  intros H Hin. rewrite forallb_forall in H. auto.
Qed.

(** A field with a character that is neither a digit, an underscore, a sign
    nor whitespace is refused. *)
Lemma int_refuses_foreign_char (s : str) (c : ascii) :
  In c s ->
  is_digit c = false -> is_int_space c = false ->
  Ascii.eqb c underscore = false ->
  Ascii.eqb c (ascii_of_N 45) = false -> Ascii.eqb c (ascii_of_N 43) = false ->
  int s = Raise (ValueError_int s).
Proof.
  intros Hin Hdigit Hspace Hus Hminus Hplus. unfold int.
  destruct (dropwhile_decompose is_int_space s) as (dropped & Hs & Hdropped).
  assert (In c (dropwhile is_int_space s)) as Hin1.
  { rewrite Hs in Hin. apply in_app_or in Hin. destruct Hin as [Hin|Hin]; [|exact Hin].
    pose proof (forallb_In_true _ _ _ Hdropped Hin). congruence. }
  clear Hs Hdropped Hin.
  assert (In c (snd (scan_sign (dropwhile is_int_space s)))) as Hin2.
  { destruct (dropwhile is_int_space s) as [|d s1]; [destruct Hin1|].
    unfold scan_sign.
    destruct (Ascii.eqb d (ascii_of_N 45)) eqn:E1.
    - destruct Hin1 as [->|Hin1]; [congruence | exact Hin1].
    - destruct (Ascii.eqb d (ascii_of_N 43)) eqn:E2.
      + destruct Hin1 as [->|Hin1]; [congruence | exact Hin1].
      + exact Hin1. }
  destruct (scan_sign _) as [negative body]. simpl in Hin2.
  destruct body as [|d rest]; [reflexivity|].
  destruct (is_digit d) eqn:Hd; [|reflexivity].
  destruct (scan_digits (digit_value d) rest) as [magnitude trailing] eqn:Hscan.
  destruct (scan_digits_consumes (length rest) rest _ _ _ (le_n _) Hscan)
    as (consumed & Hrest & Hconsumed).
  assert (In c trailing) as Hin3.
  { destruct Hin2 as [->|Hin2]; [congruence|].
    rewrite Hrest in Hin2. apply in_app_or in Hin2.
    destruct Hin2 as [Hin2|Hin2]; [|exact Hin2].
    pose proof (forallb_In_true _ _ _ Hconsumed Hin2) as Hc.
    unfold numeral_char in Hc. rewrite Hdigit, Hus in Hc. discriminate. }
  rewrite (forallb_In_false _ _ _ Hin3 Hspace).
  destruct (Nat.ltb _ _); reflexivity.
Qed.

Lemma int_refuses_empty : int [] = Raise (ValueError_int []).
Proof. reflexivity. Qed.

(** *** What [int()] accepts *)

Lemma grouped_digits_head (s : str) :
  grouped_digits s -> exists d s', s = d :: s' /\ is_digit d = true.
Proof. intros H. destruct H; eauto. Qed.

Lemma int_space_not_numeral (c : ascii) :
  is_int_space c = true ->
  is_digit c = false /\ Ascii.eqb c underscore = false
  /\ Ascii.eqb c (ascii_of_N 45) = false /\ Ascii.eqb c (ascii_of_N 43) = false.
Proof. by_cases_on_char c. Qed.

(** The scanner reads a whole group of digits when whitespace, or nothing,
    follows it. *)
Lemma scan_digits_grouped (body : str) :
  grouped_digits body ->
  forall d body' acc trail,
    body = d :: body' ->
    forallb is_int_space trail = true ->
    exists v, scan_digits acc (body' ++ trail) = (v, trail).
Proof.
  induction 1 as [d0 Hd0|d0 s Hd0 Hs IH|d0 s Hd0 Hs IH];
    intros d body' acc trail Hbody Htrail; injection Hbody as <- <-.
  - simpl. destruct trail as [|c trail]; [exists acc; reflexivity|].
    simpl in Htrail. apply andb_prop in Htrail. destruct Htrail as [Hc _].
    destruct (int_space_not_numeral c Hc) as (Hdigit & Hus & _).
    simpl. rewrite Hdigit, Hus. eauto.
  - destruct (grouped_digits_head s Hs) as (d1 & s1 & -> & Hd1).
    simpl. rewrite Hd1. apply (IH d1 s1 _ trail eq_refl Htrail).
  - destruct (grouped_digits_head s Hs) as (d1 & s1 & -> & Hd1).
    assert (is_digit underscore = false) as Hus by reflexivity.
    simpl. rewrite ?Hus, ?Ascii.eqb_refl, Hd1.
    apply (IH d1 s1 _ trail eq_refl Htrail).
Qed.

(** What the scanner has read is a group of digits. *)
Lemma scan_digits_reads_group (n : nat) :
  forall (s : str) (acc v : Z) (t : str),
    (length s <= n)%nat -> scan_digits acc s = (v, t) ->
    exists consumed,
      s = consumed ++ t
      /\ forall d, is_digit d = true -> grouped_digits (d :: consumed).
Proof.
  induction n as [|n IH]; intros s acc v t Hlen H.
  - destruct s; [|simpl in Hlen; lia].
    simpl in H. injection H as _ <-. exists []. split; [reflexivity|].
    intros d Hd. apply gd_digit, Hd.
  - destruct s as [|c s]; simpl in H.
    + injection H as _ <-. exists []. split; [reflexivity|].
      intros d Hd. apply gd_digit, Hd.
    + simpl in Hlen. destruct (is_digit c) eqn:Hc.
      * apply IH in H; [|lia]. destruct H as (consumed & -> & Hgroup).
        exists (c :: consumed). split; [reflexivity|].
        intros d Hd. apply gd_more; auto.
      * destruct (Ascii.eqb c underscore) eqn:Hu.
        -- apply Ascii.eqb_eq in Hu. subst c.
           destruct s as [|d1 s].
           { injection H as _ <-. exists []. split; [reflexivity|].
             intros d Hd. apply gd_digit, Hd. }
           destruct (is_digit d1) eqn:Hd1.
           ++ simpl in Hlen. apply IH in H; [|lia].
              destruct H as (consumed & -> & Hgroup).
              exists (underscore :: d1 :: consumed). split; [reflexivity|].
              intros d Hd. apply gd_group; auto.
           ++ injection H as _ <-. exists []. split; [reflexivity|].
              intros d Hd. apply gd_digit, Hd.
        -- injection H as _ <-. exists []. split; [reflexivity|].
           intros d Hd. apply gd_digit, Hd.
Qed.

Lemma dropwhile_head_stops (p : ascii -> bool) (c : ascii) (s : str) :
  p c = false -> dropwhile p (c :: s) = c :: s.
Proof. intros H. simpl. rewrite H. reflexivity. Qed.

(** [int()] returns a number exactly on the integer literals. *)
Lemma int_accepts_iff (s : str) :
  (exists z, int s = Ok z) <-> int_literal s.
Proof.
  split.
  - intros (z & Hz). unfold int in Hz.
    destruct (dropwhile_decompose is_int_space s) as (lead & Hs & Hlead).
    destruct (scan_sign (dropwhile is_int_space s)) as [negative body] eqn:Hsign.
    assert (exists sign, dropwhile is_int_space s = sign ++ body
                         /\ (sign = [] \/ sign = py "+" \/ sign = py "-"))
      as (sign & Hbody & Hsgn).
    { unfold scan_sign in Hsign.
      destruct (dropwhile is_int_space s) as [|c s1].
      - injection Hsign as _ <-. exists []. auto.
      - destruct (Ascii.eqb c (ascii_of_N 45)) eqn:E1.
        + apply Ascii.eqb_eq in E1. subst c. injection Hsign as _ <-.
          exists (py "-"). auto.
        + destruct (Ascii.eqb c (ascii_of_N 43)) eqn:E2.
          * apply Ascii.eqb_eq in E2. subst c. injection Hsign as _ <-.
            exists (py "+"). auto.
          * injection Hsign as _ <-. exists []. auto. }
    destruct body as [|d rest]; [discriminate|].
    destruct (is_digit d) eqn:Hd; [|discriminate].
    destruct (scan_digits (digit_value d) rest) as [magnitude trailing] eqn:Hscan.
    destruct (Nat.ltb_spec INT_MAX_STR_DIGITS
                (digit_count (d :: rest) - digit_count trailing)) as [|Hcount];
      [discriminate|].
    destruct (forallb is_int_space trailing) eqn:Htrail; [|discriminate].
    destruct (scan_digits_reads_group (length rest) rest _ _ _ (le_n _) Hscan)
      as (consumed & Hrest & Hgroup).
    exists lead, sign, (d :: consumed), trailing.
    split; [|split; [exact Hlead|split; [exact Hsgn|split; [apply Hgroup, Hd|split; [|exact Htrail]]]]].
    + rewrite Hs at 1. rewrite Hbody, Hrest. simpl. reflexivity.
    + rewrite Hrest in Hcount.
      change (d :: consumed ++ trailing) with ((d :: consumed) ++ trailing) in Hcount.
      rewrite digit_count_app in Hcount. lia.
  - intros (lead & sign & body & trail & -> & Hlead & Hsign & Hbody & Hcount & Htrail).
    destruct (grouped_digits_head body Hbody) as (d & body' & -> & Hd).
    destruct (scan_digits_grouped _ Hbody d body' (digit_value d) trail eq_refl Htrail)
      as (v & Hscan).
    pose proof (digit_not_int_space d Hd) as Hdspace.
    destruct (digit_not_sign d Hd) as [Hminus Hplus].
    assert ((INT_MAX_STR_DIGITS
             <? digit_count (d :: body' ++ trail) - digit_count trail)%nat = false)
      as Hlimit.
    { apply Nat.ltb_ge.
      change (d :: body' ++ trail) with ((d :: body') ++ trail).
      rewrite digit_count_app. lia. }
    unfold int. rewrite dropwhile_all by exact Hlead.
    destruct Hsign as [->|[->| ->]]; simpl app.
    + rewrite dropwhile_head_stops by exact Hdspace.
      unfold scan_sign. rewrite Hminus, Hplus, Hd, Hscan, Hlimit, Htrail. eauto.
    + rewrite dropwhile_head_stops by reflexivity.
      unfold scan_sign. simpl Ascii.eqb. cbv iota. rewrite Hd, Hscan, Hlimit, Htrail. eauto.
    + rewrite dropwhile_head_stops by reflexivity.
      unfold scan_sign. simpl Ascii.eqb. cbv iota. rewrite Hd, Hscan, Hlimit, Htrail. eauto.
Qed.

(** So what is not an integer literal makes [int()] raise. *)
Lemma int_refuses (s : str) :
  ~ int_literal s -> int s = Raise (ValueError_int s).
Proof.
  intros Hno. destruct (int s) as [z|e] eqn:E.
  - exfalso. apply Hno, int_accepts_iff. eauto.
  - rewrite (int_raises s e E). reflexivity.
Qed.

(* ================================================================== *)
(** * Timestamp parser                                                  *)
(* ================================================================== *)

Lemma split_two_fields (a b : str) :
  forallb is_digit a = true -> forallb is_digit b = true ->
  split ":" (a ++ py ":" ++ b) = [a; b].
Proof.
  intros Ha Hb. change (py ":" ++ b) with (":"%char :: b).
  rewrite split_app_sep by (apply digits_no_colon, Ha).
  rewrite split_no_sep by (apply digits_no_colon, Hb). reflexivity.
Qed.

Lemma split_three_fields (a b c : str) :
  forallb is_digit a = true -> forallb is_digit b = true ->
  forallb is_digit c = true ->
  split ":" (a ++ py ":" ++ b ++ py ":" ++ c) = [a; b; c].
Proof.
  intros Ha Hb Hc. change (py ":" ++ b ++ py ":" ++ c) with (":"%char :: b ++ py ":" ++ c).
  rewrite split_app_sep by (apply digits_no_colon, Ha).
  rewrite split_two_fields by assumption. reflexivity.
Qed.

Lemma int_of_digit_field (ds : str) :
  is_digits ds = true ->
  int ds = match long_field [ds] with
           | None => Ok (numeral ds)
           | Some field => Raise (ValueError_int field)
           end.
Proof.
  intros H. unfold long_field. simpl find.
  destruct (Nat.ltb_spec INT_MAX_STR_DIGITS (length ds)) as [Hlong|Hshort].
  - apply int_of_long_digits; assumption.
  - apply int_of_digits; assumption.
Qed.

Lemma long_field_cons (field : str) (fields : list str) :
  long_field (field :: fields)
  = match long_field [field] with
    | Some long => Some long
    | None => long_field fields
    end.
Proof.
  unfold long_field. simpl find.
  destruct (INT_MAX_STR_DIGITS <? length field)%nat; reflexivity.
Qed.

Lemma timestamp_two_digit_fields (m s : str) :
  is_digits m = true -> is_digits s = true ->
  timestamp_to_seconds (m ++ py ":" ++ s)
  = match long_field [m; s] with
    | None => Ok (numeral m * 60 + numeral s)
    | Some field => Raise (ValueError_int field)
    end.
Proof.
  intros Hm Hs. unfold timestamp_to_seconds.
  rewrite split_two_fields by (apply is_digits_forall; assumption).
  rewrite (int_of_digit_field m Hm), (int_of_digit_field s Hs).
  rewrite (long_field_cons m [s]).
  destruct (long_field [m]); [reflexivity|].
  destruct (long_field [s]); reflexivity.
Qed.

Lemma timestamp_three_digit_fields (h m s : str) :
  is_digits h = true -> is_digits m = true -> is_digits s = true ->
  timestamp_to_seconds (h ++ py ":" ++ m ++ py ":" ++ s)
  = match long_field [h; m; s] with
    | None => Ok (numeral h * 3600 + numeral m * 60 + numeral s)
    | Some field => Raise (ValueError_int field)
    end.
Proof.
  intros Hh Hm Hs. unfold timestamp_to_seconds.
  rewrite split_three_fields by (apply is_digits_forall; assumption).
  rewrite (int_of_digit_field h Hh), (int_of_digit_field m Hm),
    (int_of_digit_field s Hs).
  rewrite (long_field_cons h [m; s]), (long_field_cons m [s]).
  destruct (long_field [h]); [reflexivity|].
  destruct (long_field [m]); [reflexivity|].
  destruct (long_field [s]); reflexivity.
Qed.

(** C3 (amended).  On [D+:D+] whose fields have at most 4300 digits the
    parser returns minutes * 60 + seconds, on such a [D+:D+:D+]
    hours * 3600 + minutes * 60 + seconds, the fields read as decimal
    numbers, and the result is not negative.  When a field has more digits,
    [int()] refuses the first such field and its [ValueError] is what the
    parser raises. *)
Theorem timestamp_to_seconds_fields (h m s : str) :
  is_digits h = true -> is_digits m = true -> is_digits s = true ->
  timestamp_to_seconds (m ++ py ":" ++ s)
  = match long_field [m; s] with
    | None => Ok (numeral m * 60 + numeral s)
    | Some field => Raise (ValueError_int field)
    end
  /\ timestamp_to_seconds (h ++ py ":" ++ m ++ py ":" ++ s)
     = match long_field [h; m; s] with
       | None => Ok (numeral h * 3600 + numeral m * 60 + numeral s)
       | Some field => Raise (ValueError_int field)
       end
  /\ 0 <= numeral m * 60 + numeral s
  /\ 0 <= numeral h * 3600 + numeral m * 60 + numeral s.
Proof.
  intros Hh Hm Hs.
  pose proof (numeral_nonneg h Hh). pose proof (numeral_nonneg m Hm).
  pose proof (numeral_nonneg s Hs).
  repeat split; try lia.
  - apply timestamp_two_digit_fields; assumption.
  - apply timestamp_three_digit_fields; assumption.
Qed.

Lemma timestamp_to_seconds_fields_witness :
  timestamp_to_seconds (py "23:45") = Ok 1425
  /\ timestamp_to_seconds (py "1:23:45") = Ok 5025.
Proof.
  pose proof (timestamp_to_seconds_fields (py "1") (py "23") (py "45")
                eq_refl eq_refl eq_refl) as H.
  split; [exact (proj1 H) | exact (proj1 (proj2 H))].
Defined.

(** A minutes field of 4301 digits: [D+:D+], and [int()] refuses it. *)
Lemma timestamp_to_seconds_long_field :
  is_digits (repeat "1"%char 4301) = true
  /\ is_digits (py "00") = true
  /\ timestamp_to_seconds (repeat "1"%char 4301 ++ py ":" ++ py "00")
     = Raise (ValueError_int (repeat "1"%char 4301)).
Proof. repeat split; vm_compute; reflexivity. Qed.

(** At the limit itself the field is read. *)
Example timestamp_longest_field :
  exists seconds,
    timestamp_to_seconds (repeat "1"%char 4300 ++ py ":" ++ py "00") = Ok seconds.
Proof. eexists. vm_compute. reflexivity. Qed.

(** No upper bound on a field: ninety minutes are 5400 seconds. *)
Example timestamp_ninety_minutes : timestamp_to_seconds (py "90:00") = Ok 5400.
Proof. reflexivity. Qed.

Lemma timestamp_to_seconds_raises (ts : str) (e : exn) :
  timestamp_to_seconds ts = Raise e ->
  e = ValueError_timestamp ts
  \/ exists field, In field (split ":" ts) /\ e = ValueError_int field.
Proof.
  unfold timestamp_to_seconds.
  destruct (split ":" ts) as [|f1 [|f2 [|f3 [|f4 fs]]]]; try (injection 1; auto).
  - destruct (int f1) eqn:E1; simpl.
    + destruct (int f2) eqn:E2; simpl; [discriminate|].
      injection 1 as <-. right. exists f2. split; [simpl; auto|].
      apply int_raises, E2.
    + injection 1 as <-. right. exists f1. split; [simpl; auto|].
      apply int_raises, E1.
  - destruct (int f1) eqn:E1; simpl.
    + destruct (int f2) eqn:E2; simpl.
      * destruct (int f3) eqn:E3; simpl; [discriminate|].
        injection 1 as <-. right. exists f3. split; [simpl; auto|].
        apply int_raises, E3.
      * injection 1 as <-. right. exists f2. split; [simpl; auto|].
        apply int_raises, E2.
    + injection 1 as <-. right. exists f1. split; [simpl; auto|].
      apply int_raises, E1.
Qed.

(** The [ValueError] of a field reaches the caller, whichever field it is. *)
Lemma timestamp_to_seconds_propagates (ts : str) :
  (length (split ":" ts) <> 2%nat /\ length (split ":" ts) <> 3%nat)
  \/ (exists field e, In field (split ":" ts) /\ int field = Raise e) ->
  exists e,
    timestamp_to_seconds ts = Raise e /\ is_ValueError e = true
    /\ (e = ValueError_timestamp ts
        \/ exists field, In field (split ":" ts) /\ e = ValueError_int field).
Proof.
  intros H.
  assert (exists e, timestamp_to_seconds ts = Raise e) as [e He].
  { unfold timestamp_to_seconds.
    destruct (split ":" ts) as [|f1 [|f2 [|f3 [|f4 fs]]]]; eauto.
    - destruct H as [[H _]|(f & e & Hin & Hf)]; [simpl in H; congruence|].
      destruct (int f1) eqn:E1; simpl; eauto.
      destruct (int f2) eqn:E2; simpl; eauto.
      simpl in Hin. destruct Hin as [<-|[<-|[]]]; congruence.
    - destruct H as [[_ H]|(f & e & Hin & Hf)]; [simpl in H; congruence|].
      destruct (int f1) eqn:E1; simpl; eauto.
      destruct (int f2) eqn:E2; simpl; eauto.
      destruct (int f3) eqn:E3; simpl; eauto.
      simpl in Hin. destruct Hin as [<-|[<-|[<-|[]]]]; congruence. }
  exists e. split; [exact He|].
  destruct (timestamp_to_seconds_raises ts e He) as [->|(f & Hin & ->)].
  - split; [reflexivity | left; reflexivity].
  - split; [reflexivity | right; exists f; auto].
Qed.

(** With two or three fields that are all integer literals a number is
    returned. *)
Lemma timestamp_to_seconds_returns (ts : str) :
  (length (split ":" ts) = 2%nat \/ length (split ":" ts) = 3%nat) ->
  (forall field, In field (split ":" ts) -> int_literal field) ->
  exists seconds, timestamp_to_seconds ts = Ok seconds.
Proof.
  intros Hlen Hall. unfold timestamp_to_seconds.
  destruct (split ":" ts) as [|f1 [|f2 [|f3 [|f4 fs]]]];
    try (simpl in Hlen; exfalso; lia).
  - destruct (proj2 (int_accepts_iff f1) (Hall f1 (or_introl eq_refl))) as (z1 & ->).
    destruct (proj2 (int_accepts_iff f2) (Hall f2 (or_intror (or_introl eq_refl))))
      as (z2 & ->).
    simpl. eauto.
  - destruct (proj2 (int_accepts_iff f1) (Hall f1 (or_introl eq_refl))) as (z1 & ->).
    destruct (proj2 (int_accepts_iff f2) (Hall f2 (or_intror (or_introl eq_refl))))
      as (z2 & ->).
    destruct (proj2 (int_accepts_iff f3)
                (Hall f3 (or_intror (or_intror (or_introl eq_refl)))))
      as (z3 & ->).
    simpl. eauto.
Qed.

(** C6 (amended).  The parser raises exactly when the string does not have
    two or three colon-separated fields or one of its fields is not an
    integer literal as [int()] reads it (whitespace, an optional sign,
    digits grouped by single underscores, at most 4300 of them,
    whitespace); what it raises then is a [ValueError]: the one of the
    [else] branch, or [int()]'s for one of the fields.  In every other case
    it returns a number: a field need not be made of digits alone. *)
Theorem timestamp_to_seconds_malformed (ts : str) :
  ((length (split ":" ts) <> 2%nat /\ length (split ":" ts) <> 3%nat)
   \/ (exists field, In field (split ":" ts) /\ ~ int_literal field) ->
   exists e,
     timestamp_to_seconds ts = Raise e /\ is_ValueError e = true
     /\ (e = ValueError_timestamp ts
         \/ exists field, In field (split ":" ts) /\ e = ValueError_int field))
  /\ ((length (split ":" ts) = 2%nat \/ length (split ":" ts) = 3%nat) ->
      (forall field, In field (split ":" ts) -> int_literal field) ->
      exists seconds, timestamp_to_seconds ts = Ok seconds).
Proof.
  split.
  - intros H. apply timestamp_to_seconds_propagates.
    destruct H as [H|(field & Hin & Hno)]; [left; exact H|].
    right. exists field, (ValueError_int field).
    split; [exact Hin | apply int_refuses, Hno].
  - apply timestamp_to_seconds_returns.
Qed.

Lemma timestamp_to_seconds_malformed_witness :
  (exists e, timestamp_to_seconds (py "abc") = Raise e /\ is_ValueError e = true)
  /\ (exists e, timestamp_to_seconds (py "1:2:3:4") = Raise e /\ is_ValueError e = true)
  /\ (exists e, timestamp_to_seconds (py "") = Raise e /\ is_ValueError e = true)
  /\ (exists e, timestamp_to_seconds (py "1:xx") = Raise e /\ is_ValueError e = true)
  /\ (exists seconds, timestamp_to_seconds (py "-1:30") = Ok seconds).
Proof.
  repeat split.
  - destruct (proj1 (timestamp_to_seconds_malformed (py "abc"))) as (e & He & Hv & _).
    + left. split; discriminate.
    + exists e. auto.
  - destruct (proj1 (timestamp_to_seconds_malformed (py "1:2:3:4"))) as (e & He & Hv & _).
    + left. split; discriminate.
    + exists e. auto.
  - destruct (proj1 (timestamp_to_seconds_malformed (py ""))) as (e & He & Hv & _).
    + left. split; discriminate.
    + exists e. auto.
  - destruct (proj1 (timestamp_to_seconds_malformed (py "1:xx"))) as (e & He & Hv & _).
    + right. exists (py "xx"). split; [simpl; auto|].
      intros Hlit. apply int_accepts_iff in Hlit. destruct Hlit as (z & Hz).
      discriminate Hz.
    + exists e. auto.
  - apply (proj2 (timestamp_to_seconds_malformed (py "-1:30"))).
    + left. reflexivity.
    + intros field Hin. apply int_accepts_iff.
      simpl in Hin. destruct Hin as [<-|[<-|[]]]; eexists; reflexivity.
Defined.

(** Fields that are not made of digits alone, and no error: a sign, an
    underscore between digits and surrounding whitespace are read. *)
Lemma timestamp_to_seconds_reads_signed_fields :
  In (py "-1") (split ":" (py "-1:30")) /\ is_digits (py "-1") = false
  /\ timestamp_to_seconds (py "-1:30") = Ok (-30)
  /\ In (py "1_0") (split ":" (py "1_0:00")) /\ is_digits (py "1_0") = false
  /\ timestamp_to_seconds (py "1_0:00") = Ok 600
  /\ In (py " 1 ") (split ":" (py " 1 : 30 ")) /\ is_digits (py " 1 ") = false
  /\ timestamp_to_seconds (py " 1 : 30 ") = Ok 90.
Proof. repeat split; simpl; auto. Qed.

(** The error is the one the source raises itself exactly when the number of
    fields is wrong. *)
Example timestamp_abc :
  timestamp_to_seconds (py "abc") = Raise (ValueError_timestamp (py "abc")).
Proof. reflexivity. Qed.

Example timestamp_four_fields :
  timestamp_to_seconds (py "1:2:3:4") = Raise (ValueError_timestamp (py "1:2:3:4")).
Proof. reflexivity. Qed.

Example timestamp_empty :
  timestamp_to_seconds (py "") = Raise (ValueError_timestamp (py "")).
Proof. reflexivity. Qed.

(** What [int()] accepts besides [D+]: a sign, surrounding whitespace and
    single underscores between digits.  Such fields are read, not refused. *)
Example timestamp_signed_field : timestamp_to_seconds (py "+1:30") = Ok 90.
Proof. reflexivity. Qed.

Example timestamp_grouped_field : timestamp_to_seconds (py "1_0:00") = Ok 600.
Proof. reflexivity. Qed.

Example timestamp_padded_field : timestamp_to_seconds (py " 1 : 30 ") = Ok 90.
Proof. reflexivity. Qed.

Lemma In_split_field (sep : ascii) (s : str) (c : ascii) :
  In c s -> Ascii.eqb c sep = false ->
  exists field, In field (split sep s) /\ In c field.
Proof.
  induction s as [|d s IH]; simpl; [tauto|].
  intros Hin Hsep.
  destruct (Ascii.eqb d sep) eqn:Hd.
  - destruct Hin as [->|Hin]; [congruence|].
    destruct (IH Hin Hsep) as (f & Hf & Hc). exists f. simpl. auto.
  - destruct Hin as [->|Hin].
    + destruct (split sep s) as [|f fs]; [exists [c]|exists (c :: f)]; simpl; auto.
    + destruct (IH Hin Hsep) as (f & Hf & Hc).
      destruct (split sep s) as [|f0 fs]; [destruct Hf|].
      destruct Hf as [->|Hf].
      * exists (d :: f). simpl. auto.
      * exists f. simpl. auto.
Qed.

(** So a timestamp with a letter, or any other character outside digits,
    colons, underscores, signs and whitespace, is refused with a
    [ValueError], however many fields it has. *)
Lemma timestamp_with_foreign_char (ts : str) (c : ascii) :
  In c ts ->
  is_digit c = false -> is_int_space c = false ->
  Ascii.eqb c ":" = false -> Ascii.eqb c underscore = false ->
  Ascii.eqb c (ascii_of_N 45) = false -> Ascii.eqb c (ascii_of_N 43) = false ->
  exists e, timestamp_to_seconds ts = Raise e /\ is_ValueError e = true.
Proof.
  intros Hin Hdigit Hspace Hcolon Hus Hminus Hplus.
  destruct (In_split_field ":" ts c Hin Hcolon) as (f & Hf & Hc).
  pose proof (int_refuses_foreign_char f c Hc Hdigit Hspace Hus Hminus Hplus) as Hint.
  unfold timestamp_to_seconds.
  destruct (split ":" ts) as [|f1 [|f2 [|f3 [|f4 fs]]]];
    try (eexists; split; [reflexivity | reflexivity]).
  - destruct (int f1) eqn:E1; simpl;
      [|apply int_raises in E1; subst; eexists; split; reflexivity].
    destruct (int f2) eqn:E2; simpl;
      [|apply int_raises in E2; subst; eexists; split; reflexivity].
    simpl in Hf. destruct Hf as [<-|[<-|[]]]; congruence.
  - destruct (int f1) eqn:E1; simpl;
      [|apply int_raises in E1; subst; eexists; split; reflexivity].
    destruct (int f2) eqn:E2; simpl;
      [|apply int_raises in E2; subst; eexists; split; reflexivity].
    destruct (int f3) eqn:E3; simpl;
      [|apply int_raises in E3; subst; eexists; split; reflexivity].
    simpl in Hf. destruct Hf as [<-|[<-|[<-|[]]]]; congruence.
Qed.

(* ================================================================== *)
(** * Segment planner: [split_audio]                                    *)
(* ================================================================== *)

Lemma run_checked_ok (ffmpeg : ffmpeg_call -> result Z) (call : ffmpeg_call) (u : unit) :
  run_checked ffmpeg call = Ok u <-> ffmpeg call = Ok 0.
Proof.
  unfold run_checked. destruct (ffmpeg call) as [status|e]; simpl.
  - destruct (status =? 0) eqn:E.
    + apply Z.eqb_eq in E. subst. destruct u. tauto.
    + apply Z.eqb_neq in E. split; [discriminate | congruence].
  - split; discriminate.
Qed.

Lemma run_checked_raises (ffmpeg : ffmpeg_call -> result Z) (call : ffmpeg_call) (e : exn) :
  run_checked ffmpeg call = Raise e ->
  ffmpeg call = Raise e
  \/ exists status,
       ffmpeg call = Ok status /\ status <> 0 /\ e = CalledProcessError status.
Proof.
  unfold run_checked. destruct (ffmpeg call) as [status|e']; simpl.
  - destruct (status =? 0) eqn:E; [discriminate|].
    apply Z.eqb_neq in E. injection 1 as <-. right. exists status. auto.
  - injection 1 as <-. left. reflexivity.
Qed.

Section SplitAudioFacts.

Variable ffmpeg : ffmpeg_call -> result Z.
Variable input_file : path.
Variable output_dir : path.
Variable tracklist : list (str * str).
Variable total_duration : float.

Local Abbreviation plan :=
  (plan_segment input_file output_dir tracklist total_duration).
Local Abbreviation loop :=
  (split_loop ffmpeg input_file output_dir tracklist total_duration).

(** Every run of the transcoder is the plan of the entry at its position. *)
Lemma split_loop_calls (todo : list (str * str)) :
  forall i out k call,
    nth_error (fst (loop i todo out)) k = Some call ->
    exists entry, nth_error todo k = Some entry /\ plan (i + k) entry = Ok call.
Proof.
  induction todo as [|entry rest IH]; intros i out k call H.
  - destruct k; discriminate.
  - simpl in H.
    destruct (plan i entry) as [c|e] eqn:Hplan; [|destruct k; discriminate].
    destruct (run_checked ffmpeg c) as [u|e].
    + destruct (loop (S i) rest (out ++ [ff_output c])) as [calls r] eqn:Hrest.
      destruct k as [|k]; simpl in H.
      * injection H as <-. exists entry. rewrite Nat.add_0_r. auto.
      * assert (nth_error (fst (loop (S i) rest (out ++ [ff_output c]))) k = Some call)
          as H' by (rewrite Hrest; exact H).
        destruct (IH _ _ _ _ H') as (entry' & Hentry & Hcall).
        exists entry'. split; [exact Hentry|].
        replace (i + S k)%nat with (S i + k)%nat by lia. exact Hcall.
    + destruct k as [|[|k]]; simpl in H; try discriminate.
      injection H as <-. exists entry. rewrite Nat.add_0_r. auto.
Qed.

(** The first entry is handed to the transcoder as soon as it has a plan. *)
Lemma split_loop_first (entry : str * str) (rest : list (str * str)) :
  forall i out call,
    plan i entry = Ok call ->
    exists calls, fst (loop i (entry :: rest) out) = call :: calls.
Proof.
  intros i out call Hplan. simpl. rewrite Hplan.
  destruct (run_checked ffmpeg call); [|exists []; reflexivity].
  destruct (loop (S i) rest (out ++ [ff_output call])) as [calls r].
  exists calls. reflexivity.
Qed.

(** If every entry has a plan and every run made succeeded, every entry was
    handed to the transcoder and the files are returned. *)
Lemma split_loop_complete (todo : list (str * str)) :
  forall i out,
    (forall k entry, nth_error todo k = Some entry ->
                     exists call, plan (i + k) entry = Ok call) ->
    (forall call, In call (fst (loop i todo out)) -> ffmpeg call = Ok 0) ->
    length (fst (loop i todo out)) = length todo
    /\ snd (loop i todo out) = Ok (out ++ map ff_output (fst (loop i todo out))).
Proof.
  induction todo as [|entry rest IH]; intros i out Hplans Hruns.
  - simpl. rewrite app_nil_r. auto.
  - destruct (Hplans 0%nat entry eq_refl) as (c & Hc).
    rewrite Nat.add_0_r in Hc.
    simpl in *. rewrite Hc in *.
    destruct (run_checked ffmpeg c) as [u|e] eqn:Hrun.
    + specialize (IH (S i) (out ++ [ff_output c])).
      destruct (loop (S i) rest (out ++ [ff_output c])) as [calls r].
      simpl in *. destruct IH as [IHlen IHres].
      * intros k e He. destruct (Hplans (S k) e He) as (c' & Hc').
        exists c'. replace (S (i + k)) with (i + S k)%nat by lia. exact Hc'.
      * intros c' Hin. apply Hruns. auto.
      * split; [lia|]. rewrite IHres, <- app_assoc. reflexivity.
    + simpl in Hruns. specialize (Hruns c (or_introl eq_refl)).
      apply (run_checked_ok ffmpeg c tt) in Hruns. congruence.
Qed.

(** What [split_audio] can raise: what a transcoder run raised, or what
    planning an entry raised. *)
Lemma split_loop_raises (todo : list (str * str)) :
  forall i out e,
    snd (loop i todo out) = Raise e ->
    (exists call, In call (fst (loop i todo out))
                  /\ run_checked ffmpeg call = Raise e)
    \/ (exists k entry, nth_error todo k = Some entry /\ plan (i + k) entry = Raise e).
Proof.
  induction todo as [|entry rest IH]; intros i out e H; [discriminate|].
  simpl in *.
  destruct (plan i entry) as [c|e'] eqn:Hplan.
  - destruct (run_checked ffmpeg c) as [u|e'] eqn:Hrun.
    + specialize (IH (S i) (out ++ [ff_output c]) e).
      destruct (loop (S i) rest (out ++ [ff_output c])) as [calls r].
      simpl in *. destruct (IH H) as [(c' & Hin & Hc')|(k & entry' & Hk & Hraise)].
      * left. exists c'. auto.
      * right. exists (S k), entry'. split; [exact Hk|].
        replace (i + S k)%nat with (S (i + k)) by lia. exact Hraise.
    + simpl in *. injection H as <-. left. exists c. auto.
  - simpl in H. injection H as <-. right. exists 0%nat, entry.
    rewrite Nat.add_0_r. auto.
Qed.

(** All runs but the last one made exited with status 0. *)
Lemma split_loop_earlier_runs (todo : list (str * str)) :
  forall i out k call,
    nth_error (fst (loop i todo out)) k = Some call ->
    (S k < length (fst (loop i todo out)))%nat ->
    ffmpeg call = Ok 0.
Proof.
  induction todo as [|entry rest IH]; intros i out k call H Hk.
  - destruct k; discriminate.
  - simpl in *.
    destruct (plan i entry) as [c|e]; [|destruct k; discriminate].
    destruct (run_checked ffmpeg c) as [u|e] eqn:Hrun.
    + specialize (IH (S i) (out ++ [ff_output c])).
      destruct (loop (S i) rest (out ++ [ff_output c])) as [calls r].
      simpl in *. destruct k as [|k]; simpl in H.
      * injection H as <-. apply (run_checked_ok ffmpeg c u), Hrun.
      * apply (IH k call H). lia.
    + simpl in Hk. lia.
Qed.

(** When files are returned, there is one more for every entry. *)
Lemma split_loop_returns (todo : list (str * str)) :
  forall i out files,
    snd (loop i todo out) = Ok files ->
    length files = (length out + length todo)%nat.
Proof.
  induction todo as [|entry rest IH]; intros i out files H; simpl in *.
  - injection H as <-. lia.
  - destruct (plan i entry) as [c|e]; [|discriminate].
    destruct (run_checked ffmpeg c) as [u|e]; [|discriminate].
    specialize (IH (S i) (out ++ [ff_output c]) files).
    destruct (loop (S i) rest (out ++ [ff_output c])) as [calls r].
    simpl in *. rewrite (IH H), length_app. simpl. lia.
Qed.

End SplitAudioFacts.

(** ** The plan of one entry *)

Lemma Forall2_nth_error {A B : Type} (P : A -> B -> Prop) (l : list A) (l' : list B) :
  Forall2 P l l' ->
  forall k x, nth_error l k = Some x -> exists y, nth_error l' k = Some y /\ P x y.
Proof.
  induction 1 as [|a b l l' Hab _ IH]; intros k x Hk.
  - destruct k; discriminate.
  - destruct k as [|k]; simpl in Hk.
    + injection Hk as <-. exists b. auto.
    + apply IH, Hk.
Qed.

Lemma nth_error_last {A : Type} (l : list A) (d x : A) :
  nth_error l (length l - 1) = Some x -> last l d = x.
Proof.
  induction l as [|a l IH]; simpl; [discriminate|].
  destruct l as [|b l]; simpl in *; [congruence|].
  rewrite Nat.sub_0_r in IH. exact IH.
Qed.

Lemma differences_cons2 (a b : Z) (rest : list Z) :
  differences (a :: b :: rest) = (b - a) :: differences (b :: rest).
Proof. reflexivity. Qed.

Lemma length_differences (starts : list Z) :
  length (differences starts) = (length starts - 1)%nat.
Proof.
  unfold differences. rewrite length_map, length_combine.
  destruct starts as [|a rest]; cbn [tl length]; lia.
Qed.

Lemma nth_error_differences (starts : list Z) :
  forall k s s',
    nth_error starts k = Some s -> nth_error starts (S k) = Some s' ->
    nth_error (differences starts) k = Some (s' - s).
Proof.
  induction starts as [|a rest IH]; intros k s s' Hs Hs'; [destruct k; discriminate|].
  destruct rest as [|b rest]; [destruct k; discriminate|].
  rewrite differences_cons2. destruct k as [|k]; simpl in *.
  - congruence.
  - apply IH; assumption.
Qed.

Section PlanFacts.

Variable input_file : path.
Variable output_dir : path.
Variable tracklist : list (str * str).
Variable total_duration : float.
Variable starts : list Z.
Hypothesis Hstarts : parsed_starts tracklist starts.

Local Abbreviation plan :=
  (plan_segment input_file output_dir tracklist total_duration).

(** What a plan holds, read off the loop body. *)
Lemma plan_segment_inv (k : nat) (entry : str * str) (call : ffmpeg_call) :
  nth_error tracklist k = Some entry ->
  plan (S k) entry = Ok call ->
  exists s,
    nth_error starts k = Some s
    /\ call = {| ff_input := input_file; ff_ss := s; ff_t := ff_t call;
                 ff_output := joinpath output_dir (track_file_name (S k) (fst entry)) |}
    /\ (forall s', nth_error starts (S k) = Some s' -> ff_t call = Int (s' - s))
    /\ (S k = length starts ->
        exists f, float_of_int s = Ok f
                  /\ ff_t call = Float (PrimFloat.sub total_duration f)).
Proof.
  intros Hentry Hplan.
  destruct (Forall2_nth_error _ _ _ Hstarts k entry Hentry) as (s & Hs & Hparse).
  pose proof (Forall2_length Hstarts) as Hlen.
  exists s. split; [exact Hs|].
  unfold plan_segment, segment_duration, index, float_sub_int in Hplan.
  destruct entry as [title start_time]. cbn [fst snd] in *.
  rewrite Hparse in Hplan. cbn [bind] in Hplan.
  destruct (S k <? length tracklist)%nat eqn:Hlt.
  - apply Nat.ltb_lt in Hlt.
    destruct (nth_error tracklist (S k)) as [next|] eqn:Hnext;
      [|apply nth_error_None in Hnext; lia].
    destruct (Forall2_nth_error _ _ _ Hstarts (S k) next Hnext) as (s1 & Hs1 & Hparse').
    cbn [bind] in Hplan. rewrite Hparse' in Hplan. cbn [bind] in Hplan.
    destruct (format_1f (Int (s1 - s))); [|discriminate].
    cbn [bind] in Hplan. injection Hplan as <-. cbn [ff_t].
    split; [reflexivity|]. split.
    + intros s' Hs'. congruence.
    + intros Hend. lia.
  - apply Nat.ltb_ge in Hlt.
    destruct (float_of_int s) as [f|e]; [|discriminate].
    cbn [bind] in Hplan. injection Hplan as <-. cbn [ff_t].
    split; [reflexivity|]. split.
    + intros s' Hs'.
      assert (S k < length starts)%nat by (apply nth_error_Some; congruence). lia.
    + intros _. exists f. auto.
Qed.

(** Every entry has a plan once the offsets parse and the numbers involved
    convert to [float]. *)
Lemma plan_segment_total :
  representable (last starts 0) ->
  Forall representable (differences starts) ->
  forall k entry, nth_error tracklist k = Some entry ->
                  exists call, plan (1 + k) entry = Ok call.
Proof.
  intros Hlast Hdiffs k entry Hentry.
  destruct (Forall2_nth_error _ _ _ Hstarts k entry Hentry) as (s & Hs & Hparse).
  pose proof (Forall2_length Hstarts) as Hlen.
  unfold plan_segment, segment_duration, index, float_sub_int.
  destruct entry as [title start_time]. cbn [fst snd] in *.
  rewrite Hparse. cbn [bind]. change (1 + k)%nat with (S k).
  destruct (S k <? length tracklist)%nat eqn:Hlt.
  - apply Nat.ltb_lt in Hlt.
    destruct (nth_error tracklist (S k)) as [next|] eqn:Hnext;
      [|apply nth_error_None in Hnext; lia].
    destruct (Forall2_nth_error _ _ _ Hstarts (S k) next Hnext) as (s' & Hs' & Hparse').
    cbn [bind]. rewrite Hparse'. cbn [bind].
    assert (representable (s' - s)) as (g & Hg).
    { rewrite Forall_forall in Hdiffs. apply Hdiffs.
      apply (nth_error_In _ k). apply nth_error_differences; assumption. }
    unfold format_1f. rewrite Hg. cbn [bind]. eauto.
  - apply Nat.ltb_ge in Hlt.
    assert (last starts 0 = s) as Hs0.
    { assert (k < length starts)%nat by (apply nth_error_Some; congruence).
      apply nth_error_last. replace (length starts - 1)%nat with k by lia. exact Hs. }
    rewrite Hs0 in Hlast. destruct Hlast as (f & ->). cbn [bind format_1f]. eauto.
Qed.

End PlanFacts.

(** The run made for the entry at position [i]. *)
Lemma split_audio_call
  (ffmpeg : ffmpeg_call -> result Z) (input_file output_dir : path)
  (tracklist : list (str * str)) (starts : list Z) (T : float) :
  parsed_starts tracklist starts ->
  forall i call,
    nth_error (fst (split_audio ffmpeg input_file output_dir tracklist T)) i
    = Some call ->
    exists s,
      nth_error starts i = Some s /\ ff_ss call = s
      /\ (forall s', nth_error starts (S i) = Some s' ->
                     ff_t call = Int (s' - s))
      /\ (S i = length starts ->
          exists f, float_of_int s = Ok f
                    /\ ff_t call = Float (PrimFloat.sub T f)).
Proof.
  intros Hstarts i call Hcall.
  destruct (split_loop_calls ffmpeg input_file output_dir tracklist T
              tracklist 1 [] i call Hcall) as (entry & Hentry & Hplan).
  change (1 + i)%nat with (S i) in Hplan.
  destruct (plan_segment_inv input_file output_dir tracklist T starts Hstarts
              i entry call Hentry Hplan) as (s & Hs & Hcall' & Hinner & Hlast).
  exists s. split; [exact Hs|]. split; [rewrite Hcall'; reflexivity|]. auto.
Qed.

(** When no run fails there is one run per entry, and the files are
    returned. *)
Lemma split_audio_all_runs
  (ffmpeg : ffmpeg_call -> result Z) (input_file output_dir : path)
  (tracklist : list (str * str)) (starts : list Z) (T : float) :
  parsed_starts tracklist starts ->
  representable (last starts 0) ->
  Forall representable (differences starts) ->
  (forall call,
      In call (fst (split_audio ffmpeg input_file output_dir tracklist T)) ->
      ffmpeg call = Ok 0) ->
  length (fst (split_audio ffmpeg input_file output_dir tracklist T))
  = length tracklist
  /\ snd (split_audio ffmpeg input_file output_dir tracklist T)
     = Ok (map ff_output
             (fst (split_audio ffmpeg input_file output_dir tracklist T))).
Proof.
  intros Hstarts Hlast Hdiffs Hruns.
  apply (split_loop_complete ffmpeg input_file output_dir tracklist T
           tracklist 1 []); [|exact Hruns].
  apply (plan_segment_total input_file output_dir tracklist T starts Hstarts
           Hlast Hdiffs).
Qed.

(** Whatever the transcoder does, the files [split_audio] returns are as
    many as the entries of the tracklist: this is what [main] hands to
    [add_metadata]. *)
Lemma split_audio_returns_one_file_per_entry
  (ffmpeg : ffmpeg_call -> result Z) (input_file output_dir : path)
  (tracklist : list (str * str)) (T : float) (files : list path) :
  snd (split_audio ffmpeg input_file output_dir tracklist T) = Ok files ->
  length files = length tracklist.
Proof.
  intros H.
  apply (split_loop_returns ffmpeg input_file output_dir tracklist T
           tracklist 1 [] files H).
Qed.

(** C2.  Whatever the transcoder does, the run made for entry [i] (counted
    from 0) starts at [s[i]] and lasts [s[i+1] - s[i]], and the run for the
    last entry lasts [T - s[n-1]], the [float] subtraction of the source;
    and when the numbers involved are in the range of a [float] and no run
    fails, there is one run per entry. *)
Theorem split_audio_durations
  (ffmpeg : ffmpeg_call -> result Z) (input_file output_dir : path)
  (tracklist : list (str * str)) (starts : list Z) (T : float) :
  parsed_starts tracklist starts ->
  let calls := fst (split_audio ffmpeg input_file output_dir tracklist T) in
  (forall i call,
      nth_error calls i = Some call ->
      exists s,
        nth_error starts i = Some s /\ ff_ss call = s
        /\ (forall s', nth_error starts (S i) = Some s' ->
                       ff_t call = Int (s' - s))
        /\ (S i = length starts ->
            exists f, float_of_int s = Ok f
                      /\ ff_t call = Float (PrimFloat.sub T f)))
  /\ (representable (last starts 0) ->
      Forall representable (differences starts) ->
      (forall call, In call calls -> ffmpeg call = Ok 0) ->
      length calls = length tracklist).
Proof.
  intros Hstarts calls. split.
  - apply (split_audio_call ffmpeg input_file output_dir tracklist starts T Hstarts).
  - intros Hlast Hdiffs Hruns.
    apply (split_audio_all_runs ffmpeg input_file output_dir tracklist starts T
             Hstarts Hlast Hdiffs Hruns).
Qed.

Lemma split_audio_durations_witness :
  exists c1 c2 c3,
    fst (split_audio accept_all sample_input sample_output three_tracks 400)
    = [c1; c2; c3]
    /\ ff_t c1 = Int 125 /\ ff_t c2 = Int 175 /\ ff_t c3 = Float 100.
Proof.
  assert (parsed_starts three_tracks [0; 125; 300]) as Hs
    by (repeat constructor).
  destruct (split_audio_durations accept_all sample_input sample_output
              three_tracks [0; 125; 300] 400 Hs) as [Hcalls _].
  do 3 eexists. split; [reflexivity|].
  split; [|split].
  - destruct (Hcalls 0%nat _ eq_refl) as (s & Hs0 & _ & Hnext & _).
    injection Hs0 as <-. exact (Hnext 125 eq_refl).
  - destruct (Hcalls 1%nat _ eq_refl) as (s & Hs1 & _ & Hnext & _).
    injection Hs1 as <-. exact (Hnext 300 eq_refl).
  - destruct (Hcalls 2%nat _ eq_refl) as (s & Hs2 & _ & _ & Hlast).
    injection Hs2 as <-.
    destruct (Hlast eq_refl) as (f & Hf & Ht).
    injection Hf as <-. exact Ht.
Defined.

(** The examples of the specification, by evaluation. *)
Example durations_of_three_tracks :
  map ff_t (fst (split_audio accept_all sample_input sample_output three_tracks 400))
  = [Int 125; Int 175; Float 100].
Proof. reflexivity. Qed.

Example duration_of_one_track :
  map ff_t (fst (split_audio accept_all sample_input sample_output one_track 180))
  = [Float 180].
Proof. reflexivity. Qed.

Example names_of_three_tracks :
  map (fun c => parts (ff_output c))
      (fst (split_audio accept_all sample_input sample_output three_tracks 400))
  = [[py "output"; py "Artist - Album"; py "01 - Intro.mp3"];
     [py "output"; py "Artist - Album"; py "02 - Middle.mp3"];
     [py "output"; py "Artist - Album"; py "03 - End.mp3"]].
Proof. reflexivity. Qed.

(** One file per entry, whenever files are returned. *)
Example three_files_returned :
  snd (split_audio accept_all sample_input sample_output three_tracks 400)
  = Ok (map (fun name => joinpath sample_output (py name))
          ["01 - Intro.mp3"; "02 - Middle.mp3"; "03 - End.mp3"]%string).
Proof. reflexivity. Qed.

(** C1, as the code behaves.  [split_audio] never looks at the sign of a
    duration.  For a tracklist whose offsets parse (and are in the range of
    a [float]): the first entry is always handed to the transcoder; every
    run but the last one made exited with status 0; when no run fails, every
    entry was handed over and the files are returned; and the only
    exceptions are those of a transcoder run: what [subprocess.run] raised,
    or the [CalledProcessError] of a non-zero exit status. *)
Theorem split_audio_never_checks_durations
  (ffmpeg : ffmpeg_call -> result Z) (input_file output_dir : path)
  (tracklist : list (str * str)) (starts : list Z) (T : float) :
  tracklist <> [] ->
  parsed_starts tracklist starts ->
  representable (last starts 0) ->
  Forall representable (differences starts) ->
  let run := split_audio ffmpeg input_file output_dir tracklist T in
  (exists call calls, fst run = call :: calls)
  /\ (forall k call, nth_error (fst run) k = Some call ->
                     (S k < length (fst run))%nat -> ffmpeg call = Ok 0)
  /\ ((forall call, In call (fst run) -> ffmpeg call = Ok 0) ->
      length (fst run) = length tracklist
      /\ snd run = Ok (map ff_output (fst run)))
  /\ (forall e,
         snd run = Raise e ->
         exists call,
           In call (fst run)
           /\ (ffmpeg call = Raise e
               \/ exists status,
                    ffmpeg call = Ok status /\ status <> 0
                    /\ e = CalledProcessError status)).
Proof.
  intros Hne Hstarts Hlast Hdiffs run.
  pose proof (plan_segment_total input_file output_dir tracklist T starts
                Hstarts Hlast Hdiffs) as Hplans.
  split; [|split; [|split]].
  - unfold run, split_audio. destruct tracklist as [|entry rest]; [congruence|].
    destruct (Hplans 0%nat entry eq_refl) as (call & Hcall).
    destruct (split_loop_first ffmpeg input_file output_dir (entry :: rest) T
                entry rest 1 [] call Hcall) as (calls & Hcalls).
    exists call, calls. exact Hcalls.
  - intros k call. apply split_loop_earlier_runs.
  - intros Hruns.
    apply (split_loop_complete ffmpeg input_file output_dir tracklist T
             tracklist 1 [] Hplans Hruns).
  - intros e He.
    destruct (split_loop_raises ffmpeg input_file output_dir tracklist T
                tracklist 1 [] e He) as [(call & Hin & Hrun)|(k & entry & Hentry & Hraise)].
    + exists call. split; [exact Hin|]. apply run_checked_raises, Hrun.
    + destruct (Hplans k entry Hentry) as (call & Hcall). congruence.
Qed.

Lemma small_offsets_representable :
  representable 50 /\ Forall representable (differences [0; 50]).
Proof.
  split; [eexists; reflexivity|].
  repeat constructor. eexists. reflexivity.
Defined.

Lemma split_audio_never_checks_durations_witness :
  length (fst (split_audio accept_all sample_input sample_output two_tracks 40))
  = 2%nat
  /\ exists files,
       snd (split_audio accept_all sample_input sample_output two_tracks 40)
       = Ok files.
Proof.
  assert (parsed_starts two_tracks [0; 50]) as Hs by (repeat constructor).
  destruct (split_audio_never_checks_durations accept_all sample_input
              sample_output two_tracks [0; 50] 40 ltac:(discriminate) Hs
              (proj1 small_offsets_representable)
              (proj2 small_offsets_representable))
    as (_ & _ & Hall & _).
  destruct (Hall (fun call _ => eq_refl)) as [Hlen Hres].
  split; [exact Hlen|]. eexists. exact Hres.
Defined.

(** C1, as stated, fails: with starts [0, 50] and a total duration of 40 the
    second duration is -10, yet both segments are handed to a transcoder that
    accepts them and two files are returned; and a transcoder that fails is
    handed the first segment all the same. *)
Lemma split_audio_negative_duration_is_handed_over :
  (exists c1 c2 f1 f2,
      split_audio accept_all sample_input sample_output two_tracks 40
      = ([c1; c2], Ok [f1; f2])
      /\ ff_t c1 = Int 50 /\ ff_t c2 = Float (-10)
      /\ PrimFloat.leb (-10) 0 = true)
  /\ (exists c1,
        split_audio reject_all sample_input sample_output two_tracks 40
        = ([c1], Raise (CalledProcessError 1))
        /\ ff_t c1 = Int 50)
  /\ (exists c1,
        split_audio not_installed sample_input sample_output two_tracks 40
        = ([c1], Raise OSError)).
Proof.
  split; [|split].
  - do 4 eexists. split; [reflexivity|]. repeat split.
  - eexists. split; reflexivity.
  - eexists. reflexivity.
Qed.

(** Offsets that do not increase give a negative duration in the middle of
    the album, handed over like any other. *)
Example split_audio_decreasing_starts :
  map ff_t
    (fst (split_audio accept_all sample_input sample_output
            [(py "First", py "0:50"); (py "Second", py "0:20")] 60))
  = [Int (-30); Float 40].
Proof. reflexivity. Qed.

(** ** The sum of the durations *)

(** The differences telescope. *)
Lemma differences_telescope (starts : list Z) :
  starts <> [] ->
  fold_right Z.add 0 (differences starts) = last starts 0 - hd 0 starts.
Proof.
  induction starts as [|a rest IH]; [congruence|]. intros _.
  destruct rest as [|b rest]; [unfold differences; simpl; lia|].
  rewrite differences_cons2.
  change (fold_right Z.add 0 ((b - a) :: differences (b :: rest)))
    with ((b - a) + fold_right Z.add 0 (differences (b :: rest))).
  rewrite IH by discriminate.
  change (last (a :: b :: rest) 0) with (last (b :: rest) 0).
  simpl hd. lia.
Qed.

Lemma sum_values_ints_then_float (zs : list Z) (d : float) (vd : Q) :
  float_value d = Some vd ->
  exists total,
    sum_values (map Int zs ++ [Float d]) = Some total
    /\ (total == inject_Z (fold_right Z.add 0%Z zs) + vd)%Q.
Proof.
  intros Hd. induction zs as [|z zs (total & Hsum & Htotal)].
  - exists (vd + 0)%Q. simpl. rewrite Hd. split; [reflexivity|].
    rewrite Qplus_0_r, Qplus_0_l. reflexivity.
  - exists (inject_Z z + total)%Q. split.
    + change (sum_values (map Int (z :: zs) ++ [Float d]))
        with (match sum_values (map Int zs ++ [Float d]) with
              | Some t => Some (inject_Z z + t)%Q
              | None => None
              end).
      rewrite Hsum. reflexivity.
    + change (fold_right Z.add 0 (z :: zs)) with (z + fold_right Z.add 0 zs).
      rewrite inject_Z_plus, Htotal. ring.
Qed.

(** With one run per entry, the durations are the differences between
    neighbouring offsets followed by the last duration. *)
Lemma split_audio_duration_list
  (ffmpeg : ffmpeg_call -> result Z) (input_file output_dir : path)
  (tracklist : list (str * str)) (starts : list Z) (T f : float) :
  tracklist <> [] ->
  parsed_starts tracklist starts ->
  float_of_int (last starts 0) = Ok f ->
  length (fst (split_audio ffmpeg input_file output_dir tracklist T))
  = length tracklist ->
  map ff_t (fst (split_audio ffmpeg input_file output_dir tracklist T))
  = map Int (differences starts) ++ [Float (PrimFloat.sub T f)].
Proof.
  intros Hne Hstarts Hf Hlen.
  pose proof (Forall2_length Hstarts) as Hn.
  pose proof (split_audio_call ffmpeg input_file output_dir tracklist starts T
                Hstarts) as Hcall.
  set (calls := fst (split_audio ffmpeg input_file output_dir tracklist T)) in *.
  assert (length starts <> 0)%nat as Hpos
    by (rewrite <- Hn; destruct tracklist; simpl; congruence).
  apply nth_error_ext. intros k. rewrite nth_error_map.
  destruct (nth_error calls k) as [call|] eqn:Hk; simpl.
  - destruct (Hcall k call Hk) as (s & Hs & _ & Hinner & Hlast).
    destruct (nth_error starts (S k)) as [s'|] eqn:Hs'.
    + rewrite (Hinner s' eq_refl).
      rewrite nth_error_app1.
      * rewrite nth_error_map, (nth_error_differences starts k s s' Hs Hs').
        reflexivity.
      * rewrite length_map, length_differences.
        assert (S k < length starts)%nat by (apply nth_error_Some; congruence).
        lia.
    + assert (S k = length starts) as Hend.
      { apply nth_error_None in Hs'.
        assert (k < length starts)%nat by (apply nth_error_Some; congruence). lia. }
      destruct (Hlast Hend) as (f' & Hf' & ->).
      assert (last starts 0 = s) as Hs0.
      { apply nth_error_last. replace (length starts - 1)%nat with k by lia. exact Hs. }
      assert (f' = f) as -> by congruence.
      rewrite nth_error_app2 by (rewrite length_map, length_differences; lia).
      rewrite length_map, length_differences.
      replace (k - (length starts - 1))%nat with 0%nat by lia. reflexivity.
  - apply nth_error_None in Hk. symmetry. apply nth_error_None.
    rewrite length_app, length_map, length_differences. simpl. lia.
Qed.

(** C4, as the code behaves.  With one run per entry, the durations of
    all entries but the last sum to [s[n-1] - s[0]], so the sum of all
    durations is that plus the last duration; it is [T - s[0]] exactly when
    the [float] subtraction that yields the last duration is exact. *)
Theorem durations_sum_up_to_rounding
  (ffmpeg : ffmpeg_call -> result Z) (input_file output_dir : path)
  (tracklist : list (str * str)) (starts : list Z) (T f : float) (vT vd : Q) :
  tracklist <> [] ->
  parsed_starts tracklist starts ->
  float_of_int (last starts 0) = Ok f ->
  Forall representable (differences starts) ->
  (forall call, ffmpeg call = Ok 0) ->
  float_value T = Some vT ->
  float_value (PrimFloat.sub T f) = Some vd ->
  exists total,
    sum_values (map ff_t (fst (split_audio ffmpeg input_file output_dir tracklist T)))
    = Some total
    /\ (total == inject_Z (last starts 0 - hd 0 starts)%Z + vd)%Q
    /\ ((vd == vT - inject_Z (last starts 0%Z))%Q ->
        (total == vT - inject_Z (hd 0%Z starts))%Q).
Proof.
  intros Hne Hstarts Hf Hdiffs Hruns HvT Hvd.
  destruct (split_audio_all_runs ffmpeg input_file output_dir tracklist starts T
              Hstarts (ex_intro _ f Hf) Hdiffs (fun call _ => Hruns call))
    as [Hlen _].
  rewrite (split_audio_duration_list ffmpeg input_file output_dir tracklist
             starts T f Hne Hstarts Hf Hlen).
  destruct (sum_values_ints_then_float (differences starts) _ vd Hvd)
    as (total & Hsum & Htotal).
  assert (starts <> []) as Hne'.
  { pose proof (Forall2_length Hstarts). destruct tracklist; [congruence|].
    destruct starts; [discriminate|congruence]. }
  rewrite (differences_telescope starts Hne') in Htotal.
  exists total. split; [exact Hsum|]. split; [exact Htotal|].
  intros Hexact. rewrite Htotal, Hexact.
  unfold Z.sub. rewrite inject_Z_plus, inject_Z_opp. ring.
Qed.

Lemma durations_sum_up_to_rounding_witness :
  exists total,
    sum_values
      (map ff_t (fst (split_audio accept_all sample_input sample_output
                        three_tracks 400)))
    = Some total
    /\ (total == 400 - 0)%Q.
Proof.
  assert (parsed_starts three_tracks [0; 125; 300]) as Hs
    by (repeat constructor).
  assert (Forall representable (differences [0; 125; 300])) as Hd
    by (repeat constructor; eexists; reflexivity).
  destruct (durations_sum_up_to_rounding accept_all sample_input sample_output
              three_tracks [0; 125; 300] 400 300 _ _
              ltac:(discriminate) Hs eq_refl Hd (fun _ => eq_refl) eq_refl eq_refl)
    as (total & Hsum & _ & Hexact).
  exists total. split; [exact Hsum|].
  etransitivity; [apply Hexact|]; vm_compute; reflexivity.
Defined.

(** C4, as stated, fails when the last subtraction rounds.  With starts
    [0, 50] and a total duration of 0.1 the durations are 50 and
    [0.1 - 50.0], which is not -49.9 exactly, and their sum is not 0.1:
    neither as exact numbers nor added as [float]s, where Python gives
    0.10000000000000142.  With starts [0, 1] and a total duration of
    2^53 + 2 seconds both durations are positive, the last one is 2^53, and
    the sum is not the total duration either. *)
Lemma durations_sum_inexact :
  (exists d vT total,
      map ff_t (fst (split_audio accept_all sample_input sample_output two_tracks
                       0x1.999999999999ap-4))
      = [Int 50; Float d]
      /\ float_value 0x1.999999999999ap-4 = Some vT
      /\ sum_values [Int 50; Float d] = Some total
      /\ Qeq_bool total (vT - 0) = false
      /\ PrimFloat.eqb (PrimFloat.add 50 d) (PrimFloat.sub 0x1.999999999999ap-4 0)
         = false)
  /\ (exists d vT total,
        map ff_t (fst (split_audio accept_all sample_input sample_output
                         [(py "First", py "0:00"); (py "Second", py "0:01")]
                         9007199254740994))
        = [Int 1; Float d]
        /\ PrimFloat.ltb 0 d = true
        /\ float_value 9007199254740994 = Some vT
        /\ sum_values [Int 1; Float d] = Some total
        /\ Qeq_bool total (vT - 0) = false
        /\ PrimFloat.eqb (PrimFloat.add 1 d) (PrimFloat.sub 9007199254740994 0)
           = false).
Proof.
  split; do 3 eexists; repeat split; reflexivity.
Qed.

(* ================================================================== *)
(** * File names                                                        *)
(* ================================================================== *)

Lemma replace_length (old new : ascii) (s : str) :
  length (replace old new s) = length s.
Proof. apply length_map. Qed.

Lemma replace_nth_error (old new : ascii) (s : str) (i : nat) (c : ascii) :
  nth_error s i = Some c ->
  nth_error (replace old new s) i = Some (if Ascii.eqb c old then new else c).
Proof.
  intros H. unfold replace. rewrite nth_error_map, H. reflexivity.
Qed.

Lemma replace_removes (old new : ascii) (s : str) :
  Ascii.eqb new old = false -> ~ In old (replace old new s).
Proof.
  intros Hnew Hin. unfold replace in Hin. apply in_map_iff in Hin.
  destruct Hin as (c & Hc & _).
  destruct (Ascii.eqb c old) eqn:E.
  - subst. rewrite Ascii.eqb_refl in Hnew. discriminate.
  - subst. rewrite Ascii.eqb_refl in E. discriminate.
Qed.

Lemma plan_segment_output
  (input_file output_dir : path) (tracklist : list (str * str)) (T : float)
  (i : nat) (entry : str * str) (call : ffmpeg_call) :
  plan_segment input_file output_dir tracklist T i entry = Ok call ->
  ff_output call = joinpath output_dir (track_file_name i (fst entry))
  /\ ff_input call = input_file.
Proof.
  unfold plan_segment. destruct entry as [title start_time].
  destruct (timestamp_to_seconds start_time) as [s|e]; [|discriminate].
  cbn [bind]. destruct (segment_duration tracklist T i s) as [d|e]; [|discriminate].
  cbn [bind]. destruct (format_1f d); [|discriminate].
  cbn [bind]. injection 1 as <-. auto.
Qed.

(** C8.  The title that goes into the file name is the title with every
    [/] replaced by [-] and every other character kept, position by
    position; no [/] is left; and this is the name the transcoder is given:
    [f"{track_num} - {safe_title}.mp3"] under the output directory. *)
Theorem safe_title_replaces_slashes (title : str) :
  length (safe_title title) = length title
  /\ (forall i c,
         nth_error title i = Some c ->
         nth_error (safe_title title) i
         = Some (if Ascii.eqb c "/" then "-"%char else c))
  /\ ~ In "/"%char (safe_title title)
  /\ safe_title (py "Intro / Outro") = py "Intro - Outro"
  /\ (forall input_file output_dir tracklist T i start_time call,
         plan_segment input_file output_dir tracklist T i (title, start_time)
         = Ok call ->
         ff_output call
         = joinpath output_dir
             (format_02d (Z.of_nat i) ++ py " - " ++ safe_title title ++ py ".mp3")).
Proof.
  repeat split.
  - apply replace_length.
  - intros i c. apply replace_nth_error.
  - apply replace_removes. reflexivity.
  - intros input_file output_dir tracklist T i start_time call Hplan.
    apply (plan_segment_output input_file output_dir tracklist T i
             (title, start_time) call Hplan).
Qed.

Example safe_title_keeps_other_separators :
  safe_title (py "a\b:c?d") = py "a\b:c?d".
Proof. reflexivity. Qed.

(** ** The file name is one component of the path *)

Lemma string_of_uint_digits (u : Decimal.uint) :
  forallb is_digit (py (NilEmpty.string_of_uint u)) = true.
Proof.
  induction u; simpl; auto.
Qed.

Lemma format_d_nat (n : nat) :
  exists d rest,
    format_d (Z.of_nat n) = d :: rest
    /\ is_digit d = true /\ forallb is_digit rest = true.
Proof.
  unfold format_d.
  assert (exists u, Z.to_int (Z.of_nat n) = Decimal.Pos u) as [u ->].
  { destruct (Z.of_nat n) eqn:E; simpl; eauto. lia. }
  simpl NilZero.string_of_int. unfold NilZero.string_of_uint.
  pose proof (string_of_uint_digits u) as Hu.
  destruct u; simpl in *;
    try (apply andb_prop in Hu; destruct Hu as [_ Hu]);
    eexists _, _; repeat split; auto.
Qed.

Lemma forallb_repeat (p : ascii -> bool) (c : ascii) (n : nat) :
  p c = true -> forallb p (repeat c n) = true.
Proof.
  intros Hc. induction n; simpl; [reflexivity|]. rewrite Hc. exact IHn.
Qed.

Lemma format_02d_nat (n : nat) :
  exists d rest,
    format_02d (Z.of_nat n) = d :: rest
    /\ is_digit d = true /\ forallb is_digit rest = true.
Proof.
  unfold format_02d.
  replace (Z.of_nat n <? 0) with false by (symmetry; apply Z.ltb_ge; lia).
  rewrite Z.abs_eq by lia.
  destruct (format_d_nat n) as (d & rest & -> & Hd & Hrest).
  destruct (2 - length (d :: rest))%nat as [|k]; simpl.
  - exists d, rest. auto.
  - exists "0"%char, (repeat "0"%char k ++ d :: rest).
    repeat split. rewrite forallb_app, forallb_repeat by reflexivity.
    simpl. rewrite Hd, Hrest. reflexivity.
Qed.

Lemma digits_no_slash (s : str) :
  forallb is_digit s = true ->
  forallb (fun c => negb (Ascii.eqb c "/")) s = true.
Proof.
  induction s as [|c s IH]; simpl; [reflexivity|].
  intros H. apply andb_prop in H. destruct H as [Hc Hs].
  rewrite (IH Hs), andb_true_r.
  destruct c as [[] [] [] [] [] [] [] []]; vm_compute in Hc |- *; congruence.
Qed.

Lemma safe_title_no_slash (title : str) :
  forallb (fun c => negb (Ascii.eqb c "/")) (safe_title title) = true.
Proof.
  induction title as [|c title IH]; simpl; [reflexivity|].
  rewrite IH, andb_true_r. destruct (Ascii.eqb c "/") eqn:E; [reflexivity|].
  rewrite E. reflexivity.
Qed.

(** Thanks to the replacement, the file always lands in the output
    directory itself. *)
Lemma track_file_is_one_component (dir : path) (i : nat) (title : str) :
  joinpath dir (track_file_name i title)
  = {| anchored := anchored dir;
       parts := parts dir ++ [track_file_name i title] |}.
Proof.
  unfold track_file_name.
  destruct (format_02d_nat i) as (d & rest & -> & Hd & Hrest).
  remember (py " - " ++ safe_title title ++ py ".mp3") as tail eqn:Htail.
  assert (forallb (fun c => negb (Ascii.eqb c "/")) ((d :: rest) ++ tail) = true)
    as Hname.
  { rewrite forallb_app.
    rewrite (digits_no_slash (d :: rest)) by (simpl; rewrite Hd, Hrest; reflexivity).
    subst tail. rewrite !forallb_app, safe_title_no_slash. reflexivity. }
  assert (Ascii.eqb "/" d = false) as Hslash
    by (destruct d as [[] [] [] [] [] [] [] []]; vm_compute in Hd |- *; congruence).
  assert (str_eqb ((d :: rest) ++ tail) dot = false) as Hdot.
  { unfold str_eqb.
    destruct (list_eq_dec ascii_dec _ dot) as [E|]; [|reflexivity].
    exfalso. unfold dot in E. simpl in E. injection E as _ E.
    subst tail. destruct rest; discriminate. }
  unfold joinpath, path_of_str.
  rewrite (split_no_sep "/" _ Hname).
  cbn [filter anchored parts]. rewrite Hdot.
  change (startswith (py "/") ((d :: rest) ++ tail)) with (Ascii.eqb "/" d && true).
  rewrite Hslash. reflexivity.
Qed.

(* ================================================================== *)
(** * Tagging: [add_metadata]                                           *)
(* ================================================================== *)

Lemma str_eqb_refl (a : str) : str_eqb a a = true.
Proof.
  unfold str_eqb. destruct (list_eq_dec ascii_dec a a); congruence.
Qed.

Lemma id3_get_add_same (frame text : str) (tag : id3) :
  id3_get frame (id3_add frame text tag) = Some text.
Proof.
  induction tag as [|[f t] tag IH]; simpl.
  - rewrite str_eqb_refl. reflexivity.
  - destruct (str_eqb f frame) eqn:E; simpl.
    + rewrite str_eqb_refl. reflexivity.
    + rewrite E. exact IH.
Qed.

Lemma id3_get_add_other (frame other text : str) (tag : id3) :
  str_eqb frame other = false ->
  id3_get other (id3_add frame text tag) = id3_get other tag.
Proof.
  intros Hne. induction tag as [|[f t] tag IH]; simpl.
  - rewrite Hne. reflexivity.
  - destruct (str_eqb f frame) eqn:E; simpl.
    + unfold str_eqb in E. destruct (list_eq_dec ascii_dec f frame); [|discriminate].
      subst f. rewrite Hne. reflexivity.
    + destruct (str_eqb f other); [reflexivity | exact IH].
Qed.

(** The tag saved for a file carries the title and the track number. *)
Lemma tag_file_saves (info : album_info) (n : nat) (store : tag_store)
  (i : nat) (file : path) (title : str) :
  exists tag,
    tag_file info n store i file title = (file, tag) :: store
    /\ id3_get (py "TRCK") tag = Some (track_number_text i n)
    /\ id3_get (py "TIT2") tag = Some title.
Proof.
  unfold tag_file, id3_save. eexists. split; [reflexivity|].
  assert (forall frame tag,
             str_eqb (py "TDRC") frame = false ->
             id3_get frame
               match info_year info with
               | Some y => if is_empty y then tag else id3_add (py "TDRC") y tag
               | None => tag
               end
             = id3_get frame tag) as Hyear.
  { intros frame tag Hne. destruct (info_year info) as [y|]; [|reflexivity].
    destruct (is_empty y); [reflexivity|]. apply id3_get_add_other, Hne. }
  split.
  - rewrite (Hyear (py "TRCK") _ eq_refl). apply id3_get_add_same.
  - rewrite (Hyear (py "TIT2") _ eq_refl).
    rewrite !id3_get_add_other by reflexivity. apply id3_get_add_same.
Qed.

Lemma tag_loop_writes (info : album_info) (n : nat)
  (pairs : list (path * (str * str))) :
  forall i store,
  exists writes,
    tag_loop info n i pairs store = rev writes ++ store
    /\ length writes = length pairs
    /\ forall k file entry,
         nth_error pairs k = Some (file, entry) ->
         exists tag,
           nth_error writes k = Some (file, tag)
           /\ id3_get (py "TRCK") tag = Some (track_number_text (i + k) n)
           /\ id3_get (py "TIT2") tag = Some (fst entry).
Proof.
  induction pairs as [|[file [title ts]] rest IH]; intros i store.
  - exists []. repeat split. intros k f e H. destruct k; discriminate.
  - simpl.
    destruct (tag_file_saves info n store i file title) as (tag & -> & Htrck & Htit).
    destruct (IH (S i) ((file, tag) :: store)) as (writes & -> & Hlen & Hall).
    exists ((file, tag) :: writes). split; [|split].
    + simpl. rewrite <- app_assoc. reflexivity.
    + simpl. rewrite Hlen. reflexivity.
    + intros k f e Hk. destruct k as [|k]; simpl in Hk.
      * injection Hk as <- <-. exists tag. rewrite Nat.add_0_r. auto.
      * destruct (Hall k f e Hk) as (tag' & Hw & Ht & Hn).
        exists tag'. replace (i + S k)%nat with (S i + k)%nat by lia. auto.
Qed.

(** C7.  With one file per entry, as [main] passes them, tagging saves one
    tag per file, in order, and the tag saved for the [i]-th file
    (counted from 1) has the text [i/n] in its TRCK frame. *)
Theorem add_metadata_track_numbers
  (files : list path) (tracklist : list (str * str)) (info : album_info)
  (store : tag_store) :
  length files = length tracklist ->
  exists writes,
    add_metadata files tracklist info store = rev writes ++ store
    /\ length writes = length tracklist
    /\ forall i,
         (1 <= i <= length tracklist)%nat ->
         exists file tag,
           nth_error files (i - 1) = Some file
           /\ nth_error writes (i - 1) = Some (file, tag)
           /\ id3_get (py "TRCK") tag
              = Some (format_d (Z.of_nat i) ++ py "/"
                      ++ format_d (Z.of_nat (length tracklist))).
Proof.
  intros Hlen. unfold add_metadata.
  destruct (tag_loop_writes info (length tracklist) (combine files tracklist) 1 store)
    as (writes & Heq & Hwrites & Hall).
  exists writes. split; [exact Heq|]. split.
  - rewrite Hwrites, length_combine. lia.
  - intros i Hi.
    destruct (nth_error files (i - 1)) as [file|] eqn:Hfile;
      [|apply nth_error_None in Hfile; lia].
    destruct (nth_error tracklist (i - 1)) as [entry|] eqn:Hentry;
      [|apply nth_error_None in Hentry; lia].
    assert (nth_error (combine files tracklist) (i - 1) = Some (file, entry)) as Hpair.
    { clear - Hfile Hentry. revert tracklist Hentry files Hfile.
      induction (i - 1)%nat as [|k IH]; intros tl Ht fs Hf;
        destruct tl, fs; simpl in *; try discriminate.
      - congruence.
      - apply IH; assumption. }
    destruct (Hall (i - 1)%nat file entry Hpair) as (tag & Hw & Htrck & _).
    exists file, tag. repeat split; [exact Hw|].
    rewrite Htrck. replace (1 + (i - 1))%nat with i by lia. reflexivity.
Qed.

Lemma add_metadata_track_numbers_witness :
  exists writes file tag,
    add_metadata twelve_files twelve_tracks sample_info [] = rev writes ++ []
    /\ nth_error twelve_files 6 = Some file
    /\ nth_error writes 6 = Some (file, tag)
    /\ id3_get (py "TRCK") tag = Some (py "7/12").
Proof.
  destruct (add_metadata_track_numbers twelve_files twelve_tracks sample_info []
              eq_refl) as (writes & Heq & _ & Hall).
  destruct (Hall 7%nat ltac:(simpl; lia)) as (file & tag & Hfile & Hwrite & Htrck).
  exists writes, file, tag. auto.
Defined.

Example track_seven_of_twelve :
  map (id3_get (py "TRCK"))
      (map snd (rev (add_metadata twelve_files twelve_tracks sample_info [])))
  = map (fun t => Some (py t))
      ["1/12"; "2/12"; "3/12"; "4/12"; "5/12"; "6/12"; "7/12"; "8/12"; "9/12";
       "10/12"; "11/12"; "12/12"]%string.
Proof. reflexivity. Qed.

(* ================================================================== *)
(** * The matcher                                                       *)
(* ================================================================== *)

Lemma plus_rests_In (cc : charclass) (s r : str) :
  In r (plus_rests cc s) <->
  exists pre, pre <> [] /\ forallb (cc_match cc) pre = true /\ s = pre ++ r.
Proof.
  revert r. induction s as [|c s IH]; intros r; simpl.
  - split; [tauto|]. intros (pre & Hne & _ & H).
    destruct pre; [congruence | discriminate].
  - destruct (cc_match cc c) eqn:Hc.
    + rewrite in_app_iff, IH. simpl. split.
      * intros [(pre & Hne & Hall & ->)|[<-|[]]].
        -- exists (c :: pre). simpl. rewrite Hc, Hall.
           repeat split; congruence.
        -- exists [c]. simpl. rewrite Hc. repeat split; congruence.
      * intros (pre & Hne & Hall & H).
        destruct pre as [|c0 pre]; [congruence|].
        simpl in H, Hall. injection H as <- ->.
        apply andb_prop in Hall. destruct Hall as [_ Hall].
        destruct pre as [|c1 pre]; [right; left; reflexivity|].
        left. exists (c1 :: pre). repeat split; [discriminate | exact Hall].
    + split; [intros []|]. intros (pre & Hne & Hall & H).
      destruct pre as [|c0 pre]; [congruence|].
      simpl in H, Hall. injection H as <- ->. rewrite Hc in Hall. discriminate.
Qed.

(** The matcher finds exactly the matches. *)
Lemma re_run_sem (subject : str) (r : regex) :
  forall st st', In st' (re_run subject r st) <-> re_sem subject r st st'.
Proof.
  induction r as [cc|cc|r1 IH1|r1 IH1 r2 IH2|r1 IH1| |]; intros [s groups] [s' groups'];
    simpl.
  - destruct s as [|c s]; simpl.
    + split; [tauto|]. intros (c & _ & H & _). discriminate.
    + destruct (cc_match cc c) eqn:Hc; simpl.
      * split.
        -- intros [H|[]]. injection H as <- <-. exists c. auto.
        -- intros (c0 & Hc0 & H & ->). injection H as <- <-. auto.
      * split; [tauto|]. intros (c0 & Hc0 & H & _). injection H as <- _.
        congruence.
  - rewrite in_map_iff. split.
    + intros (r & H & Hin). injection H as <- <-.
      apply plus_rests_In in Hin. destruct Hin as (pre & Hne & Hall & ->).
      exists pre. auto.
    + intros (pre & Hne & Hall & -> & ->). exists s'. split; [reflexivity|].
      apply plus_rests_In. exists pre. auto.
  - rewrite in_app_iff, IH1. simpl. intuition congruence.
  - rewrite in_flat_map. split.
    + intros (mid & H1 & H2). exists mid. rewrite <- IH1, <- IH2. auto.
    + intros (mid & H1 & H2). exists mid. rewrite IH1, IH2. auto.
  - rewrite in_map_iff. split.
    + intros (mid & H & Hin). exists mid. rewrite <- IH1. auto.
    + intros (mid & H & ->). exists mid. rewrite IH1. auto.
  - destruct (length s =? length subject)%nat eqn:E; simpl.
    + apply Nat.eqb_eq in E. intuition congruence.
    + apply Nat.eqb_neq in E. intuition congruence.
  - destruct s as [|c [|c' s]]; simpl.
    + intuition congruence.
    + destruct (Ascii.eqb c LF) eqn:E; simpl.
      * apply Ascii.eqb_eq in E. subst c. intuition congruence.
      * apply Ascii.eqb_neq in E. split; [tauto|].
        intros [_ [H|H]]; [discriminate | congruence].
    + split; [tauto|]. intros [_ [H|H]]; discriminate.
Qed.

Lemma firstn_consumed (pre rest : str) :
  firstn (length (pre ++ rest) - length rest) (pre ++ rest) = pre.
Proof.
  rewrite length_app. replace (length pre + length rest - length rest)%nat
    with (length pre) by lia.
  rewrite firstn_app, Nat.sub_diag, firstn_all. simpl. apply app_nil_r.
Qed.

Lemma is_digits_intro (a : str) :
  a <> [] -> forallb is_digit a = true -> is_digits a = true.
Proof.
  intros Hne Hall. unfold is_digits. rewrite Hall.
  destruct a; [congruence | reflexivity].
Qed.

Lemma is_digits_elim (a : str) :
  is_digits a = true -> a <> [] /\ forallb is_digit a = true.
Proof.
  unfold is_digits. intros H. apply andb_prop in H. destruct H as [Hne Hall].
  split; [destruct a; [discriminate | congruence] | exact Hall].
Qed.

(** The first group: [(\d+:\d+(?::\d+)?)]. *)
Lemma timestamp_group_sem (subject s : str) (groups : list str) (st' : re_state) :
  re_sem subject
    (re_group (re_plus cc_digit ~~ re_char (cc_lit ":") ~~ re_plus cc_digit
               ~~ re_opt (re_char (cc_lit ":") ~~ re_plus cc_digit))%regex)
    (s, groups) st'
  <-> exists ts rest,
        s = ts ++ rest /\ timestamp_shape ts /\ st' = (rest, groups ++ [ts]).
Proof.
  simpl. split.
  - intros ([r g] & ([s1 g1] & (a & Ha & Hda & -> & Hg1)
                     & [s2 g2] & (c & Hc & Hs1 & Hg2)
                     & [s3 g3] & (b & Hb & Hdb & Hs2 & Hg3) & Hopt) & ->).
    simpl in *. subst. apply Ascii.eqb_eq in Hc. subst c.
    destruct Hopt as [([s4 g4] & (c & Hc & Hs3 & Hg4) & (d & Hd & Hdd & Hs4 & Hg))|H].
    + simpl in *. subst. apply Ascii.eqb_eq in Hc. subst c.
      exists (a ++ py ":" ++ b ++ py ":" ++ d), r. split; [|split].
      * simpl. rewrite <- !app_assoc. simpl. rewrite <- !app_assoc. reflexivity.
      * exists a, b. repeat split; try (apply is_digits_intro; assumption).
        right. exists d. split; [apply is_digits_intro; assumption | reflexivity].
      * f_equal. f_equal. f_equal.
        replace (a ++ ":"%char :: b ++ ":"%char :: d ++ r)
          with ((a ++ py ":" ++ b ++ py ":" ++ d) ++ r)
          by (simpl; rewrite <- !app_assoc; simpl; rewrite <- !app_assoc; reflexivity).
        apply firstn_consumed.
    + injection H as -> ->.
      exists (a ++ py ":" ++ b), s3. split; [|split].
      * simpl. rewrite <- !app_assoc. reflexivity.
      * exists a, b. repeat split; try (apply is_digits_intro; assumption).
        left. reflexivity.
      * f_equal. f_equal. f_equal.
        replace (a ++ ":"%char :: b ++ s3) with ((a ++ py ":" ++ b) ++ s3)
          by (simpl; rewrite <- !app_assoc; reflexivity).
        apply firstn_consumed.
  - intros (ts & rest & -> & (a & b & Ha & Hb & Hts) & ->).
    apply is_digits_elim in Ha, Hb. destruct Ha as [Ha Hda], Hb as [Hb Hdb].
    destruct Hts as [->|(d & Hd & ->)].
    + exists (rest, groups). split.
      * exists (py ":" ++ b ++ rest, groups). split.
        { exists a. simpl. rewrite <- app_assoc. auto. }
        exists (b ++ rest, groups). split.
        { exists ":"%char. simpl. auto. }
        exists (rest, groups). split.
        { exists b. simpl. auto. }
        right. reflexivity.
      * simpl. rewrite firstn_consumed. reflexivity.
    + apply is_digits_elim in Hd. destruct Hd as [Hd Hdd].
      exists (rest, groups). split.
      * exists (py ":" ++ b ++ py ":" ++ d ++ rest, groups). split.
        { exists a. simpl. rewrite <- !app_assoc. simpl. rewrite <- !app_assoc. auto. }
        exists (b ++ py ":" ++ d ++ rest, groups). split.
        { exists ":"%char. simpl. auto. }
        exists (py ":" ++ d ++ rest, groups). split.
        { exists b. simpl. auto. }
        left. exists (d ++ rest, groups). split.
        { exists ":"%char. simpl. auto. }
        exists d. simpl. auto.
      * simpl. rewrite firstn_consumed. reflexivity.
Qed.

(** The second group: [(.+)]. *)
Lemma title_group_sem (subject s : str) (groups : list str) (st' : re_state) :
  re_sem subject (re_group (re_plus cc_dot)) (s, groups) st'
  <-> exists title rest,
        s = title ++ rest /\ title <> []
        /\ forallb (fun c => negb (Ascii.eqb c LF)) title = true
        /\ st' = (rest, groups ++ [title]).
Proof.
  simpl. split.
  - intros ([r g] & (title & Hne & Hall & Hs & Hg) & ->). simpl in *. subst.
    exists title, r. rewrite firstn_consumed. auto.
  - intros (title & rest & -> & Hne & Hall & ->).
    exists (rest, groups). split.
    + exists title. auto.
    + simpl. rewrite firstn_consumed. reflexivity.
Qed.

Lemma track_line_sem (line : str) (st' : re_state) :
  re_sem line TRACK_LINE (line, []) st'
  <-> exists ts title tail,
        track_line_match line ts title tail /\ st' = (tail, [ts; title]).
Proof.
  unfold TRACK_LINE.
  change (re_sem line (re_bol ~~ ?r)%regex (line, []) st')
    with (exists mid, (length line = length line /\ mid = (line, []))
                      /\ re_sem line r mid st').
  split.
  - intros (mid & [_ ->] & Hrest).
    change (exists m1,
               re_sem line
                 (re_group (re_plus cc_digit ~~ re_char (cc_lit ":") ~~ re_plus cc_digit
                            ~~ re_opt (re_char (cc_lit ":") ~~ re_plus cc_digit))%regex)
                 (line, []) m1
               /\ exists m2,
                    re_sem line (re_plus cc_space) m1 m2
                    /\ exists m3,
                         re_sem line (re_group (re_plus cc_dot)) m2 m3
                         /\ re_sem line re_eol m3 st') in Hrest.
    destruct Hrest as (m1 & H1 & m2 & H2 & m3 & H3 & H4).
    apply timestamp_group_sem in H1. destruct H1 as (ts & r1 & Hline & Hts & ->).
    destruct m2 as [r2 g2]. simpl in H2.
    destruct H2 as (ws & Hws & Hsp & -> & ->).
    apply title_group_sem in H3. destruct H3 as (title & tail & -> & Hne & Hdot & ->).
    simpl in H4. destruct H4 as [-> Htail].
    exists ts, title, tail. split; [|reflexivity].
    exists ws. repeat split; auto.
  - intros (ts & title & tail & (ws & Hline & Hts & Hws & Hsp & Hne & Hdot & Htail) & ->).
    exists (line, []). split; [auto|].
    change (exists m1,
               re_sem line
                 (re_group (re_plus cc_digit ~~ re_char (cc_lit ":") ~~ re_plus cc_digit
                            ~~ re_opt (re_char (cc_lit ":") ~~ re_plus cc_digit))%regex)
                 (line, []) m1
               /\ exists m2,
                    re_sem line (re_plus cc_space) m1 m2
                    /\ exists m3,
                         re_sem line (re_group (re_plus cc_dot)) m2 m3
                         /\ re_sem line re_eol m3 (tail, [ts; title])).
    exists (ws ++ title ++ tail, [ts]). split.
    { apply timestamp_group_sem. exists ts, (ws ++ title ++ tail). auto. }
    exists (title ++ tail, [ts]). split.
    { simpl. exists ws. auto. }
    exists (tail, [ts; title]). split.
    { apply title_group_sem. exists title, tail. auto. }
    simpl. auto.
Qed.

Lemma re_match_Some (r : regex) (s : str) (groups : list str) :
  re_match r s = Some groups ->
  exists rest, re_sem s r (s, []) (rest, groups).
Proof.
  unfold re_match. destruct (re_run s r (s, [])) as [|[rest g] sts] eqn:E; [discriminate|].
  injection 1 as <-. exists rest. apply re_run_sem. rewrite E. left. reflexivity.
Qed.

Lemma re_match_None (r : regex) (s : str) :
  re_match r s = None -> forall st', ~ re_sem s r (s, []) st'.
Proof.
  unfold re_match. destruct (re_run s r (s, [])) as [|st sts] eqn:E; [|discriminate].
  intros _ st' H. apply re_run_sem in H. rewrite E in H. destruct H.
Qed.

(** [match.groups()] always has the two groups of the pattern. *)
Lemma re_match_track_line (line : str) (groups : list str) :
  re_match TRACK_LINE line = Some groups ->
  exists ts title tail, track_line_match line ts title tail /\ groups = [ts; title].
Proof.
  intros H. apply re_match_Some in H. destruct H as (rest & H).
  apply track_line_sem in H. destruct H as (ts & title & tail & Hm & Heq).
  injection Heq as -> ->. exists ts, title, tail. auto.
Qed.

Lemma re_match_track_line_None (line : str) :
  re_match TRACK_LINE line = None ->
  forall ts title tail, ~ track_line_match line ts title tail.
Proof.
  intros H ts title tail Hm.
  apply (re_match_None TRACK_LINE line H (tail, [ts; title])).
  apply track_line_sem. exists ts, title, tail. auto.
Qed.

(* ================================================================== *)
(** * Stripping                                                         *)
(* ================================================================== *)

(** Leading whitespace does not change what [strip] returns. *)
Lemma strip_spaces_app (ws s : str) :
  forallb is_space ws = true -> strip (ws ++ s) = strip s.
Proof.
  intros Hws. unfold strip, rstrip, lstrip. rewrite rev_app_distr.
  destruct (forallb is_space (rev s)) eqn:Hs.
  - rewrite (dropwhile_all is_space (rev s) (rev ws) Hs).
    rewrite (dropwhile_nil is_space (rev ws)) by (rewrite forallb_rev; exact Hws).
    rewrite (dropwhile_nil is_space (rev s) Hs). reflexivity.
  - rewrite dropwhile_stops by exact Hs.
    rewrite rev_app_distr, rev_involutive.
    apply dropwhile_all, Hws.
Qed.

(** [strip] returns a piece of its argument. *)
Lemma dropwhile_suffix (p : ascii -> bool) (s : str) :
  exists pre, s = pre ++ dropwhile p s.
Proof.
  destruct (dropwhile_decompose p s) as (pre & H & _). exists pre. exact H.
Qed.

Lemma strip_infix (s : str) : exists pre suf, s = pre ++ strip s ++ suf.
Proof.
  unfold strip, lstrip, rstrip.
  destruct (dropwhile_suffix is_space (rev s)) as (suf & Hsuf).
  destruct (dropwhile_suffix is_space (rev (dropwhile is_space (rev s)))) as (pre & Hpre).
  exists pre, (rev suf).
  rewrite <- (rev_involutive s) at 1. rewrite Hsuf at 1.
  rewrite rev_app_distr, Hpre at 1. rewrite <- app_assoc. reflexivity.
Qed.

Lemma strip_forallb (p : ascii -> bool) (s : str) :
  forallb p s = true -> forallb p (strip s) = true.
Proof.
  destruct (strip_infix s) as (pre & suf & H). intros Hall.
  rewrite H, !forallb_app in Hall.
  apply andb_prop in Hall. destruct Hall as [_ Hall].
  apply andb_prop in Hall. tauto.
Qed.

(** ** Lines *)

Lemma splitlines_from_no_linebreak (n : nat) :
  forall s cur line,
    (length s <= n)%nat ->
    forallb (fun c => negb (is_linebreak c)) cur = true ->
    In line (splitlines_from cur s) ->
    forallb (fun c => negb (is_linebreak c)) line = true.
Proof.
  induction n as [|n IH]; intros s cur line Hlen Hcur Hin.
  - destruct s; [|simpl in Hlen; lia]. simpl in Hin.
    destruct cur; [destruct Hin|]. destruct Hin as [<-|[]].
    rewrite forallb_rev. exact Hcur.
  - destruct s as [|c s]; simpl in Hin.
    + destruct cur; [destruct Hin|]. destruct Hin as [<-|[]].
      rewrite forallb_rev. exact Hcur.
    + simpl in Hlen. destruct (is_linebreak c) eqn:Hc.
      * destruct Hin as [<-|Hin]; [rewrite forallb_rev; exact Hcur|].
        destruct s as [|d s]; [destruct Hin|].
        destruct (Ascii.eqb c CR && Ascii.eqb d LF).
        -- apply (IH s [] line); [simpl in Hlen; lia | reflexivity | exact Hin].
        -- apply (IH (d :: s) [] line); [lia | reflexivity | exact Hin].
      * apply (IH s (c :: cur) line); [lia | | exact Hin].
        simpl. rewrite Hc. exact Hcur.
Qed.

(** A line of [content.splitlines()] holds no line boundary, so no newline,
    and neither does the stripped line. *)
Lemma splitlines_no_newline (content raw : str) :
  In raw (splitlines content) ->
  forallb (fun c => negb (Ascii.eqb c LF)) (strip raw) = true.
Proof.
  intros Hin.
  pose proof (splitlines_from_no_linebreak (length content) content [] raw
                (le_n _) eq_refl Hin) as H.
  apply strip_forallb. rewrite forallb_forall in *.
  intros c Hc. specialize (H c Hc).
  destruct (Ascii.eqb c LF) eqn:E; [|reflexivity].
  apply Ascii.eqb_eq in E. subst c. discriminate.
Qed.

(* ================================================================== *)
(** * Config parser: one line                                           *)
(* ================================================================== *)

Lemma startswith_app (prefix s : str) :
  startswith prefix s = true <-> exists rest, s = prefix ++ rest.
Proof.
  revert s. induction prefix as [|p prefix IH]; intros s; simpl.
  - split; [exists s; reflexivity | reflexivity].
  - destruct s as [|c s].
    + split; [discriminate | intros (rest & H); discriminate].
    + rewrite andb_true_iff, IH. split.
      * intros [Hc (rest & ->)]. apply Ascii.eqb_eq in Hc. subst. exists rest. reflexivity.
      * intros (rest & H). injection H as -> ->.
        split; [apply Ascii.eqb_refl | exists rest; reflexivity].
Qed.

(** A line that starts with [key:] stores what follows the key's colon,
    stripped. *)
Lemma parse_line_directive (fd : field) (cfg : config) (raw rest : str) :
  strip raw = field_key fd ++ py ":" ++ rest ->
  parse_line cfg raw = Ok (set_field fd cfg (strip rest)).
Proof.
  intros H. unfold parse_line. rewrite H. destruct fd; reflexivity.
Qed.


Lemma is_directive_field (line : str) :
  is_directive line = true <->
  exists fd rest, line = field_key fd ++ py ":" ++ rest.
Proof.
  unfold is_directive. rewrite !orb_true_iff, !startswith_app. split.
  - intros [[[(rest & ->)|(rest & ->)]|(rest & ->)]|(rest & ->)].
    + exists f_url, rest. reflexivity.
    + exists f_artist, rest. reflexivity.
    + exists f_album, rest. reflexivity.
    + exists f_year, rest. reflexivity.
  - intros ([] & rest & ->).
    + left. left. left. exists rest. reflexivity.
    + left. left. right. exists rest. reflexivity.
    + left. right. exists rest. reflexivity.
    + right. exists rest. reflexivity.
Qed.

(** A line that is not blank, not a comment and not a directive goes to the
    pattern. *)
Lemma parse_line_entry (cfg : config) (raw : str) :
  is_empty (strip raw) = false ->
  startswith (py "#") (strip raw) = false ->
  is_directive (strip raw) = false ->
  parse_line cfg raw =
    match re_match TRACK_LINE (strip raw) with
    | Some [timestamp; title] => Ok (append_track cfg (strip title, timestamp))
    | Some _ => Raise ValueError_unpack
    | None => Ok cfg
    end.
Proof.
  intros Hempty Hcomment Hdir. unfold is_directive in Hdir.
  apply orb_false_elim in Hdir. destruct Hdir as [Hdir Hyear].
  apply orb_false_elim in Hdir. destruct Hdir as [Hdir Halbum].
  apply orb_false_elim in Hdir. destruct Hdir as [Hurl Hartist].
  unfold parse_line. cbv zeta.
  rewrite Hempty, Hcomment, Hurl, Hartist, Halbum, Hyear. reflexivity.
Qed.

(** A blank line or a comment changes nothing. *)
Lemma parse_line_ignored (cfg : config) (raw : str) :
  is_empty (strip raw) || startswith (py "#") (strip raw) = true ->
  parse_line cfg raw = Ok cfg.
Proof.
  intros H. unfold parse_line. cbv zeta. rewrite H. reflexivity.
Qed.

(** No line makes the parser raise. *)
Lemma parse_line_total (cfg : config) (raw : str) :
  exists cfg', parse_line cfg raw = Ok cfg'.
Proof.
  destruct (is_empty (strip raw) || startswith (py "#") (strip raw)) eqn:Hskip.
  - exists cfg. apply parse_line_ignored, Hskip.
  - apply orb_false_elim in Hskip. destruct Hskip as [Hempty Hcomment].
    destruct (is_directive (strip raw)) eqn:Hdir.
    + apply is_directive_field in Hdir. destruct Hdir as (fd & rest & Hline).
      eexists. apply (parse_line_directive fd cfg raw rest Hline).
    + rewrite (parse_line_entry cfg raw Hempty Hcomment Hdir).
      destruct (re_match TRACK_LINE (strip raw)) as [groups|] eqn:Hm; [|eauto].
      apply re_match_track_line in Hm.
      destruct Hm as (ts & title & tail & _ & ->). eauto.
Qed.

(** What a line adds to the tracklist does not depend on the configuration
    read so far. *)
Lemma parse_line_tracklist (cfg cfg' : config) (raw : str) :
  parse_line cfg raw = Ok cfg' ->
  tracklist cfg' = tracklist cfg ++ line_entries raw.
Proof.
  unfold line_entries.
  destruct (is_empty (strip raw) || startswith (py "#") (strip raw)) eqn:Hskip.
  - rewrite !(parse_line_ignored _ raw Hskip). injection 1 as <-.
    simpl. rewrite app_nil_r. reflexivity.
  - apply orb_false_elim in Hskip. destruct Hskip as [Hempty Hcomment].
    destruct (is_directive (strip raw)) eqn:Hdir.
    + apply is_directive_field in Hdir. destruct Hdir as (fd & rest & Hline).
      rewrite !(parse_line_directive fd _ raw rest Hline). injection 1 as <-.
      destruct fd; simpl; rewrite app_nil_r; reflexivity.
    + rewrite !(parse_line_entry _ raw Hempty Hcomment Hdir).
      destruct (re_match TRACK_LINE (strip raw)) as [[|ts [|title [|x groups]]]|];
        try discriminate; injection 1 as <-; simpl; try rewrite app_nil_r; reflexivity.
Qed.

Lemma parse_lines_tracklist (lines : list str) :
  forall cfg cfg',
    parse_lines cfg lines = Ok cfg' ->
    tracklist cfg' = tracklist cfg ++ flat_map line_entries lines.
Proof.
  induction lines as [|raw lines IH]; intros cfg cfg' H; simpl in *.
  - injection H as <-. rewrite app_nil_r. reflexivity.
  - destruct (parse_line cfg raw) as [cfg1|e] eqn:Hline; [|discriminate].
    simpl in H. rewrite (IH cfg1 cfg' H), (parse_line_tracklist cfg cfg1 raw Hline).
    rewrite app_assoc. reflexivity.
Qed.

Lemma parse_lines_total (lines : list str) :
  forall cfg, exists cfg', parse_lines cfg lines = Ok cfg'.
Proof.
  induction lines as [|raw lines IH]; intros cfg; simpl; [eauto|].
  destruct (parse_line_total cfg raw) as (cfg1 & ->). simpl. apply IH.
Qed.



(* ================================================================== *)
(** * Config parser: tracklist lines                                    *)
(* ================================================================== *)

Lemma digits_no_space (ds : str) :
  forallb is_digit ds = true -> forallb (fun c => negb (is_space c)) ds = true.
Proof.
  induction ds as [|c ds IH]; simpl; [reflexivity|].
  intros H. apply andb_prop in H. destruct H as [Hc Hs].
  rewrite (digit_not_space c Hc), (IH Hs). reflexivity.
Qed.

Lemma timestamp_shape_no_space (ts : str) :
  timestamp_shape ts -> forallb (fun c => negb (is_space c)) ts = true.
Proof.
  intros (a & b & Ha & Hb & Hts).
  apply is_digits_forall, digits_no_space in Ha, Hb.
  destruct Hts as [->|(c & Hc & ->)].
  - rewrite !forallb_app, Ha, Hb. reflexivity.
  - apply is_digits_forall, digits_no_space in Hc.
    rewrite !forallb_app, Ha, Hb, Hc. reflexivity.
Qed.

(** Where the whitespace starts is where the space-free prefix ends. *)
Lemma space_free_prefix_unique (a : str) :
  forall b x y c d,
    forallb (fun c => negb (is_space c)) a = true ->
    forallb (fun c => negb (is_space c)) b = true ->
    is_space c = true -> is_space d = true ->
    a ++ c :: x = b ++ d :: y ->
    a = b /\ c :: x = d :: y.
Proof.
  induction a as [|a0 a IH]; intros b x y c d Ha Hb Hc Hd H.
  - destruct b as [|b0 b]; [auto|].
    simpl in H, Hb. injection H as <- _. rewrite Hc in Hb. discriminate.
  - destruct b as [|b0 b].
    + simpl in H, Ha. injection H as -> _. rewrite Hd in Ha. discriminate.
    + simpl in H, Ha, Hb. injection H as <- H.
      apply andb_prop in Ha, Hb. destruct Ha as [_ Ha], Hb as [_ Hb].
      destruct (IH b x y c d Ha Hb Hc Hd H) as [-> Heq]. auto.
Qed.

Lemma spaces_head (ws : str) :
  ws <> [] -> forallb is_space ws = true ->
  exists c ws', ws = c :: ws' /\ is_space c = true.
Proof.
  destruct ws as [|c ws]; [congruence|]. intros _ H. simpl in H.
  apply andb_prop in H. exists c, ws. tauto.
Qed.

(** On a line without a newline, every way of matching gives the same
    timestamp and, once stripped, the same title. *)
Lemma track_line_match_unique (line ts ts' title title' tail tail' : str) :
  forallb (fun c => negb (Ascii.eqb c LF)) line = true ->
  track_line_match line ts title tail ->
  track_line_match line ts' title' tail' ->
  ts = ts' /\ strip title = strip title'.
Proof.
  intros Hline (ws & H & Hts & Hne & Hws & _ & _ & Htail)
         (ws' & H' & Hts' & Hne' & Hws' & _ & _ & Htail').
  assert (forall t, line = t ++ [LF] -> False) as Hno.
  { intros t ->. rewrite forallb_app in Hline. simpl in Hline.
    rewrite andb_false_r in Hline. discriminate. }
  assert (tail = []) as ->.
  { destruct Htail as [->| ->]; [reflexivity|]. exfalso.
    apply (Hno (ts ++ ws ++ title)). rewrite H, <- !app_assoc. reflexivity. }
  assert (tail' = []) as ->.
  { destruct Htail' as [->| ->]; [reflexivity|]. exfalso.
    apply (Hno (ts' ++ ws' ++ title')). rewrite H', <- !app_assoc. reflexivity. }
  rewrite app_nil_r in H, H'.
  destruct (spaces_head ws Hne Hws) as (c & w & Ew & Hc).
  destruct (spaces_head ws' Hne' Hws') as (d & w' & Ew' & Hd).
  assert (ts ++ c :: (w ++ title) = ts' ++ d :: (w' ++ title')) as Heq.
  { change (c :: w ++ title) with ((c :: w) ++ title).
    change (d :: w' ++ title') with ((d :: w') ++ title').
    rewrite <- Ew, <- Ew'. congruence. }
  destruct (space_free_prefix_unique ts ts' _ _ c d
              (timestamp_shape_no_space ts Hts) (timestamp_shape_no_space ts' Hts')
              Hc Hd Heq) as [-> Hrest].
  split; [reflexivity|].
  change (c :: w ++ title) with ((c :: w) ++ title) in Hrest.
  change (d :: w' ++ title') with ((d :: w') ++ title') in Hrest.
  rewrite <- Ew, <- Ew' in Hrest.
  rewrite <- (strip_spaces_app ws title Hws), <- (strip_spaces_app ws' title' Hws').
  rewrite Hrest. reflexivity.
Qed.

Lemma tracklist_line_match (line ts rest : str) :
  forallb (fun c => negb (Ascii.eqb c LF)) line = true ->
  tracklist_line line ts rest -> track_line_match line ts rest [].
Proof.
  intros Hline (ws & H & Hts & Hne & Hws & Hrest).
  exists ws. rewrite app_nil_r. repeat split; auto.
  rewrite H, !forallb_app in Hline.
  apply andb_prop in Hline. destruct Hline as [_ Hline].
  apply andb_prop in Hline. tauto.
Qed.

Lemma track_line_match_line (line ts title tail : str) :
  track_line_match line ts title tail -> tracklist_line line ts (title ++ tail).
Proof.
  intros (ws & H & Hts & Hne & Hws & Htitle & _ & _).
  exists ws. repeat split; auto.
  destruct title; [congruence | discriminate].
Qed.

(** An accepted line: the entry is the stripped remainder with the
    timestamp. *)
Lemma parse_line_accepts (cfg : config) (raw ts rest : str) :
  forallb (fun c => negb (Ascii.eqb c LF)) (strip raw) = true ->
  is_empty (strip raw) = false ->
  startswith (py "#") (strip raw) = false ->
  is_directive (strip raw) = false ->
  tracklist_line (strip raw) ts rest ->
  parse_line cfg raw = Ok (append_track cfg (strip rest, ts)).
Proof.
  intros Hline Hempty Hcomment Hdir Hshape.
  rewrite (parse_line_entry cfg raw Hempty Hcomment Hdir).
  pose proof (tracklist_line_match _ _ _ Hline Hshape) as Hm.
  destruct (re_match TRACK_LINE (strip raw)) as [groups|] eqn:E.
  - apply re_match_track_line in E. destruct E as (ts' & title' & tail' & Hm' & ->).
    destruct (track_line_match_unique _ _ _ _ _ _ _ Hline Hm Hm') as [-> ->].
    reflexivity.
  - exfalso. apply (re_match_track_line_None _ E ts rest [] Hm).
Qed.

(** Any other line is skipped. *)
Lemma parse_line_skips (cfg : config) (raw : str) :
  is_empty (strip raw) = false ->
  startswith (py "#") (strip raw) = false ->
  is_directive (strip raw) = false ->
  (forall ts rest, ~ tracklist_line (strip raw) ts rest) ->
  parse_line cfg raw = Ok cfg.
Proof.
  intros Hempty Hcomment Hdir Hno.
  rewrite (parse_line_entry cfg raw Hempty Hcomment Hdir).
  destruct (re_match TRACK_LINE (strip raw)) as [groups|] eqn:E; [|reflexivity].
  apply re_match_track_line in E. destruct E as (ts & title & tail & Hm & ->).
  exfalso. apply (Hno ts (title ++ tail)). apply track_line_match_line, Hm.
Qed.

(** C5.  Take a line of the configuration text that, stripped, is not
    blank, not a comment and not a directive.  It adds an entry to the
    tracklist exactly when it is a timestamp, at least one whitespace
    character and a non-empty remainder; the entry is then the stripped
    remainder with the timestamp; any other such line changes nothing.
    Parsing never fails, and the tracklist is what the lines add, in the
    order of the lines. *)
Theorem tracklist_line_accepted_iff (content raw : str) (cfg : config) :
  In raw (splitlines content) ->
  is_empty (strip raw) = false ->
  startswith (py "#") (strip raw) = false ->
  is_directive (strip raw) = false ->
  ((exists entry, parse_line cfg raw = Ok (append_track cfg entry))
   <-> exists ts rest, tracklist_line (strip raw) ts rest)
  /\ (forall ts rest,
         tracklist_line (strip raw) ts rest ->
         parse_line cfg raw = Ok (append_track cfg (strip rest, ts)))
  /\ ((forall ts rest, ~ tracklist_line (strip raw) ts rest) ->
      parse_line cfg raw = Ok cfg)
  /\ (exists cfg',
         parse_lines empty_config (splitlines content) = Ok cfg'
         /\ tracklist cfg' = flat_map line_entries (splitlines content)).
Proof.
  intros Hin Hempty Hcomment Hdir.
  pose proof (splitlines_no_newline content raw Hin) as Hline.
  split; [|split; [|split]].
  - split.
    + intros (entry & Hentry).
      rewrite (parse_line_entry cfg raw Hempty Hcomment Hdir) in Hentry.
      destruct (re_match TRACK_LINE (strip raw)) as [groups|] eqn:E.
      * apply re_match_track_line in E. destruct E as (ts & title & tail & Hm & _).
        exists ts, (title ++ tail). apply track_line_match_line, Hm.
      * injection Hentry as Hentry. apply (f_equal tracklist) in Hentry.
        simpl in Hentry. apply (f_equal (@length _)) in Hentry.
        rewrite length_app in Hentry. simpl in Hentry. lia.
    + intros (ts & rest & Hshape). exists (strip rest, ts).
      apply (parse_line_accepts cfg raw ts rest Hline Hempty Hcomment Hdir Hshape).
  - intros ts rest Hshape.
    apply (parse_line_accepts cfg raw ts rest Hline Hempty Hcomment Hdir Hshape).
  - apply (parse_line_skips cfg raw Hempty Hcomment Hdir).
  - destruct (parse_lines_total (splitlines content) empty_config) as (cfg' & Hcfg).
    exists cfg'. split; [exact Hcfg|].
    apply (parse_lines_tracklist _ _ _ Hcfg).
Qed.

Lemma tracklist_line_accepted_iff_witness :
  parse_line empty_config (py "  2:05   Middle / Part  ")
  = Ok (append_track empty_config (py "Middle / Part", py "2:05")).
Proof.
  assert (In (py "  2:05   Middle / Part  ") (splitlines sample_config)) as Hin
    by (vm_compute; tauto).
  destruct (tracklist_line_accepted_iff sample_config
              (py "  2:05   Middle / Part  ") empty_config
              Hin eq_refl eq_refl eq_refl)
    as (_ & Haccepts & _).
  apply (Haccepts (py "2:05") (py "Middle / Part")).
  exists (py "   "). repeat split; try discriminate.
  exists (py "2"), (py "05"). repeat split. left. reflexivity.
Defined.

Example sample_config_parses :
  parse_config (Some sample_config)
  = ([], Ok {| url := Some (py "https://host/path?t=1:23");
               artist := Some (py "Artist"); album := Some (py "Album");
               year := None;
               tracklist := [(py "Intro", py "0:00");
                             (py "Middle / Part", py "2:05");
                             (py "End", py "1:00:00")] |}).
Proof. reflexivity. Qed.

(* ================================================================== *)
(** * Config parser: required fields                                    *)
(* ================================================================== *)

Lemma get_set_other (fd fd' : field) (cfg : config) (v : str) :
  fd <> fd' -> get_field fd (set_field fd' cfg v) = get_field fd cfg.
Proof. destruct fd, fd'; simpl; congruence. Qed.

(** Only the directive of a key changes what is stored under it. *)
Lemma parse_line_keeps_field (fd : field) (cfg cfg' : config) (raw : str) :
  startswith (field_key fd ++ py ":") (strip raw) = false ->
  parse_line cfg raw = Ok cfg' ->
  get_field fd cfg' = get_field fd cfg.
Proof.
  intros Hkey.
  destruct (is_empty (strip raw) || startswith (py "#") (strip raw)) eqn:Hskip.
  - rewrite (parse_line_ignored cfg raw Hskip). congruence.
  - apply orb_false_elim in Hskip. destruct Hskip as [Hempty Hcomment].
    destruct (is_directive (strip raw)) eqn:Hdir.
    + apply is_directive_field in Hdir. destruct Hdir as (fd' & rest & Hline).
      rewrite (parse_line_directive fd' cfg raw rest Hline). injection 1 as <-.
      apply get_set_other. intros ->. rewrite Hline in Hkey.
      destruct fd'; discriminate.
    + rewrite (parse_line_entry cfg raw Hempty Hcomment Hdir).
      destruct (re_match TRACK_LINE (strip raw)) as [[|ts [|title [|x groups]]]|];
        try discriminate; injection 1 as <-; destruct fd; reflexivity.
Qed.

Lemma parse_lines_keep_field (fd : field) (lines : list str) :
  forall cfg cfg',
    Forall (fun raw => startswith (field_key fd ++ py ":") (strip raw) = false) lines ->
    parse_lines cfg lines = Ok cfg' ->
    get_field fd cfg' = get_field fd cfg.
Proof.
  induction lines as [|raw lines IH]; intros cfg cfg' Hall H; simpl in H.
  - congruence.
  - inversion Hall as [|? ? Hraw Hlines]; subst.
    destruct (parse_line cfg raw) as [cfg1|e] eqn:Hline; [|discriminate].
    simpl in H. rewrite (IH cfg1 cfg' Hlines H).
    apply (parse_line_keeps_field fd cfg cfg1 raw Hraw Hline).
Qed.

Lemma parse_lines_app (l1 l2 : list str) :
  forall cfg,
    parse_lines cfg (l1 ++ l2)
    = bind (parse_lines cfg l1) (fun cfg1 => parse_lines cfg1 l2).
Proof.
  induction l1 as [|raw l1 IH]; intros cfg; simpl; [reflexivity|].
  destruct (parse_line cfg raw); simpl; [apply IH | reflexivity].
Qed.

(** A required field that is empty is reported like one that is absent. *)
Lemma missing_fields_falsy (fd : field) (cfg : config) :
  fd <> f_year ->
  (In (field_key fd) (missing_fields cfg) <-> falsy (get_field fd cfg) = true).
Proof.
  intros Hreq. unfold missing_fields.
  destruct fd; try congruence; simpl;
    destruct (falsy (url cfg)), (falsy (artist cfg)), (falsy (album cfg)),
             (is_empty (tracklist cfg));
    simpl; split; intros H; try reflexivity; try discriminate;
    repeat (destruct H as [H|H]; try discriminate); tauto.
Qed.

(** [parse_config] on a text: it exits with status 1 exactly when a required
    field is missing, and reports the missing ones. *)
Lemma parse_config_missing (content : str) (cfg : config) (name : str) :
  parse_lines empty_config (splitlines content) = Ok cfg ->
  In name (missing_fields cfg) ->
  parse_config (Some content)
  = ([msg_missing_fields (join (py ", ") (missing_fields cfg))],
     Raise (SystemExit 1)).
Proof.
  intros Hcfg Hin. unfold parse_config. rewrite Hcfg.
  destruct (missing_fields cfg); [destruct Hin | reflexivity].
Qed.

(** C9, as the code behaves.  When the last directive line of a required
    key has nothing after the colon, parsing that line stores the empty
    string, an empty value is reported like an absent one, and
    [parse_config] prints the missing fields, the key among them, and exits
    with status 1. *)
Theorem empty_required_directive_aborts
  (content : str) (before after : list str) (raw : str) (fd : field) :
  fd <> f_year ->
  splitlines content = before ++ raw :: after ->
  strip raw = field_key fd ++ py ":" ->
  Forall (fun l => startswith (field_key fd ++ py ":") (strip l) = false) after ->
  (forall cfg, parse_line cfg raw = Ok (set_field fd cfg []))
  /\ (forall cfg,
         get_field fd cfg = Some [] \/ get_field fd cfg = None ->
         In (field_key fd) (missing_fields cfg))
  /\ exists missing,
       In (field_key fd) missing
       /\ parse_config (Some content)
          = ([msg_missing_fields (join (py ", ") missing)], Raise (SystemExit 1)).
Proof.
  intros Hreq Hlines Hraw Hafter.
  assert (forall cfg, parse_line cfg raw = Ok (set_field fd cfg [])) as Hstore.
  { intros cfg. apply (parse_line_directive fd cfg raw []).
    rewrite Hraw, app_nil_r. reflexivity. }
  assert (forall cfg,
             get_field fd cfg = Some [] \/ get_field fd cfg = None ->
             In (field_key fd) (missing_fields cfg)) as Hmissing.
  { intros cfg H. apply (missing_fields_falsy fd cfg Hreq).
    destruct H as [-> | ->]; reflexivity. }
  split; [exact Hstore|]. split; [exact Hmissing|].
  destruct (parse_lines_total (splitlines content) empty_config) as (cfg & Hcfg).
  exists (missing_fields cfg).
  assert (In (field_key fd) (missing_fields cfg)) as Hin.
  { apply Hmissing. left.
    rewrite Hlines, parse_lines_app in Hcfg.
    destruct (parse_lines empty_config before) as [cfg1|e]; [|discriminate].
    simpl in Hcfg. rewrite Hstore in Hcfg. simpl in Hcfg.
    rewrite (parse_lines_keep_field fd after _ cfg Hafter Hcfg).
    destruct fd; reflexivity. }
  split; [exact Hin|].
  apply (parse_config_missing content cfg (field_key fd) Hcfg Hin).
Qed.

Lemma empty_required_directive_aborts_witness :
  exists missing,
    In (py "artist") missing
    /\ parse_config (Some config_without_artist)
       = ([msg_missing_fields (join (py ", ") missing)], Raise (SystemExit 1)).
Proof.
  destruct (empty_required_directive_aborts config_without_artist
              [py "url: https://host/video"] [py "album: Album"; py "0:00 Intro"]
              (py "artist:   ") f_artist
              ltac:(discriminate) eq_refl eq_refl
              ltac:(repeat constructor))
    as (_ & _ & missing & Hin & Hexit).
  exists missing. split; [exact Hin | exact Hexit].
Defined.

Example config_without_artist_exits :
  parse_config (Some config_without_artist)
  = ([msg_missing_fields (py "artist")], Raise (SystemExit 1)).
Proof. reflexivity. Qed.

Example config_without_anything_exits :
  parse_config (Some (py "artist:"))
  = ([msg_missing_fields (py "url, artist, album, tracklist")],
     Raise (SystemExit 1)).
Proof. reflexivity. Qed.

(** C9, as stated, fails when a later line gives the key a value: the empty
    [artist:] line is there, and the configuration is accepted. *)
Lemma empty_directive_overridden :
  In (py "artist:") (splitlines config_with_two_artists)
  /\ parse_line empty_config (py "artist:") = Ok (set_artist empty_config [])
  /\ parse_config (Some config_with_two_artists)
     = ([], Ok {| url := Some (py "https://host/video");
                  artist := Some (py "Artist"); album := Some (py "Album");
                  year := None; tracklist := [(py "Intro", py "0:00")] |}).
Proof.
  split; [vm_compute; tauto|]. split; reflexivity.
Qed.

(* ================================================================== *)
(** * Config parser: what [parse_config] returns                        *)
(* ================================================================== *)



Lemma falsy_false (v : option str) :
  falsy v = false -> exists s, v = Some s /\ s <> [].
Proof.
  destruct v as [[|c s]|]; simpl; try discriminate.
  intros _. exists (c :: s). split; [reflexivity | discriminate].
Qed.

Lemma missing_fields_nil (cfg : config) :
  missing_fields cfg = [] ->
  falsy (url cfg) = false /\ falsy (artist cfg) = false
  /\ falsy (album cfg) = false /\ is_empty (tracklist cfg) = false.
Proof.
  unfold missing_fields.
  destruct (falsy (url cfg)), (falsy (artist cfg)), (falsy (album cfg)),
           (is_empty (tracklist cfg)); simpl; intros H; try discriminate; auto.
Qed.



(** The three ways, one after the other. *)
Example parse_config_file_ways :
  (exists cfg, parse_config_file (text_file sample_config) = ([], Returned cfg))
  /\ parse_config_file no_file
     = ([msg_config_not_found], Failed (Other (SystemExit 1)))
  /\ parse_config_file (text_file (py "artist: Artist"))
     = ([msg_missing_fields (py "url, album, tracklist")],
        Failed (Other (SystemExit 1)))
  /\ parse_config_file (unreadable UnicodeDecodeError) = ([], Failed UnicodeDecodeError).
Proof. repeat split. eexists. reflexivity. Qed.

(** ** What [strip] leaves *)









(** ** The entries of the tracklist *)






(** X3.  When a key is given more than once, the last line wins: the value
    stored under the key is what follows the colon of the last line that
    starts with [key:], stripped, whatever the earlier lines said. *)
Theorem last_directive_wins
  (content : str) (before after : list str) (raw rest : str) (fd : field) :
  splitlines content = before ++ raw :: after ->
  strip raw = field_key fd ++ py ":" ++ rest ->
  Forall (fun l => startswith (field_key fd ++ py ":") (strip l) = false) after ->
  (exists cfg,
      parse_lines empty_config (splitlines content) = Ok cfg
      /\ get_field fd cfg = Some (strip rest))
  /\ (forall printed cfg,
         parse_config (Some content) = (printed, Ok cfg) ->
         get_field fd cfg = Some (strip rest)).
Proof.
  intros Hlines Hraw Hafter.
  assert (forall cfg, parse_lines empty_config (splitlines content) = Ok cfg ->
                      get_field fd cfg = Some (strip rest)) as Hget.
  { intros cfg Hcfg. rewrite Hlines, parse_lines_app in Hcfg.
    destruct (parse_lines empty_config before) as [cfg1|e]; [|discriminate].
    simpl in Hcfg. rewrite (parse_line_directive fd cfg1 raw rest Hraw) in Hcfg.
    simpl in Hcfg. rewrite (parse_lines_keep_field fd after _ cfg Hafter Hcfg).
    destruct fd; reflexivity. }
  split.
  - destruct (parse_lines_total (splitlines content) empty_config) as (cfg & Hcfg).
    exists cfg. auto.
  - intros printed cfg. unfold parse_config.
    destruct (parse_lines empty_config (splitlines content)) as [cfg'|e]; [|discriminate].
    destruct (negb (is_empty (missing_fields cfg'))); [discriminate|].
    injection 1 as _ <-. auto.
Qed.

Lemma last_directive_wins_witness :
  exists cfg,
    parse_lines empty_config (splitlines config_with_two_artists) = Ok cfg
    /\ get_field f_artist cfg = Some (py "Artist").
Proof.
  exact (proj1 (last_directive_wins config_with_two_artists
                  [py "url: https://host/video"; py "artist:"]
                  [py "album: Album"; py "0:00 Intro"]
                  (py "artist: Artist") (py " Artist") f_artist
                  eq_refl eq_refl ltac:(repeat constructor))).
Defined.


(** X4.  A line that is blank, or whose first character after the leading
    whitespace is [#], can be removed from the text or added to it anywhere
    without changing the outcome of the loop over the lines, even when the
    rest of the line looks like a directive or a track. *)
Theorem comments_and_blank_lines_change_nothing
  (before after : list str) (raw : str) (cfg : config) :
  is_empty (strip raw) = true \/ startswith (py "#") (strip raw) = true ->
  parse_lines cfg (before ++ raw :: after) = parse_lines cfg (before ++ after).
Proof.
  intros Hraw. rewrite !parse_lines_app.
  destruct (parse_lines cfg before) as [cfg1|e]; [|reflexivity].
  simpl. rewrite parse_line_ignored; [reflexivity|].
  destruct Hraw as [-> | ->]; [reflexivity | apply orb_true_r].
Qed.

Lemma comments_and_blank_lines_change_nothing_witness :
  parse_lines empty_config ([py "artist: A"] ++ py "  # artist: B" :: [py "0:00 T"])
  = parse_lines empty_config ([py "artist: A"] ++ [py "0:00 T"]).
Proof.
  apply (comments_and_blank_lines_change_nothing
           [py "artist: A"] [py "0:00 T"] (py "  # artist: B") empty_config).
  right. reflexivity.
Defined.


(* ================================================================== *)
(** * File names: the track number in front                             *)
(* ================================================================== *)



Lemma numeral_of_uint_acc (u : Decimal.uint) :
  forall acc : positive,
    fold_left (fun a c => 10 * a + digit_value c)
              (py (NilEmpty.string_of_uint u)) (Z.pos acc)
    = Z.pos (Pos.of_uint_acc u acc).
Proof.
  induction u; intros acc; cbn [NilEmpty.string_of_uint py list_ascii_of_string fold_left Pos.of_uint_acc];
    try reflexivity; rewrite <- IHu; f_equal;
    unfold digit_value, code; simpl N_of_ascii; lia.
Qed.

Lemma numeral_of_uint (u : Decimal.uint) :
  numeral (py (NilEmpty.string_of_uint u)) = Z.of_N (Pos.of_uint u).
Proof.
  unfold numeral.
  induction u; cbn [NilEmpty.string_of_uint py list_ascii_of_string fold_left Pos.of_uint];
    try reflexivity; try exact IHu; apply numeral_of_uint_acc.
Qed.

(** Reading back what [f"{n}"] wrote gives [n]. *)
Lemma numeral_format_d (n : Z) : 0 <= n -> numeral (format_d n) = n.
Proof.
  intros Hn. unfold format_d.
  rewrite <- (DecimalZ.of_to n) at 2.
  destruct (Z.to_int n) as [u|u] eqn:E.
  - simpl. unfold NilZero.string_of_uint, Z.of_uint.
    destruct u; try apply numeral_of_uint. reflexivity.
  - destruct n; simpl in E; try discriminate. lia.
Qed.

Lemma numeral_leading_zeros (k : nat) (ds : str) :
  numeral (repeat "0"%char k ++ ds) = numeral ds.
Proof.
  unfold numeral. induction k as [|k IH]; [reflexivity|]. exact IH.
Qed.

(** And so does reading back the zero-padded [f"{n:02d}"]. *)
Lemma numeral_format_02d (n : nat) : numeral (format_02d (Z.of_nat n)) = Z.of_nat n.
Proof.
  unfold format_02d.
  replace (Z.of_nat n <? 0) with false by (symmetry; apply Z.ltb_ge; lia).
  rewrite Z.abs_eq by lia.
  rewrite numeral_leading_zeros. apply numeral_format_d. lia.
Qed.

Lemma format_02d_digits (n : nat) : forallb is_digit (format_02d (Z.of_nat n)) = true.
Proof.
  destruct (format_02d_nat n) as (d & rest & -> & Hd & Hrest).
  simpl. rewrite Hd, Hrest. reflexivity.
Qed.

(** Two file names with the same text carry the same track number. *)
Lemma track_file_name_number (i j : nat) (title title' : str) :
  track_file_name i title = track_file_name j title' -> i = j.
Proof.
  unfold track_file_name. intros H.
  change (py " - " ++ ?x) with (" "%char :: py "- " ++ x) in H.
  destruct (space_free_prefix_unique _ _ _ _ " "%char " "%char
              (digits_no_space _ (format_02d_digits i))
              (digits_no_space _ (format_02d_digits j))
              eq_refl eq_refl H) as [Heq _].
  apply (f_equal numeral) in Heq. rewrite !numeral_format_02d in Heq. lia.
Qed.


(* ================================================================== *)
(** * [split_audio]: the files written and the runs made                *)
(* ================================================================== *)



Lemma track_file_name_no_slash (i : nat) (title : str) :
  ~ In "/"%char (track_file_name i title).
Proof.
  unfold track_file_name. intros Hin.
  assert (forallb (fun c => negb (Ascii.eqb c "/"))
            (format_02d (Z.of_nat i) ++ py " - " ++ safe_title title ++ py ".mp3")
          = true) as Hall.
  { rewrite !forallb_app, (digits_no_slash _ (format_02d_digits i)),
      safe_title_no_slash. reflexivity. }
  rewrite forallb_forall in Hall. specialize (Hall _ Hin). discriminate.
Qed.

(** The file of the run made for the entry at position [k]. *)
Lemma split_audio_output
  (ffmpeg : ffmpeg_call -> result Z) (input_file output_dir : path)
  (tracklist : list (str * str)) (T : float) (k : nat) (call : ffmpeg_call) :
  nth_error (fst (split_audio ffmpeg input_file output_dir tracklist T)) k = Some call ->
  exists title start_time,
    nth_error tracklist k = Some (title, start_time)
    /\ ff_input call = input_file
    /\ ff_output call
       = {| anchored := anchored output_dir;
            parts := parts output_dir ++ [track_file_name (S k) title] |}.
Proof.
  intros Hcall.
  destruct (split_loop_calls ffmpeg input_file output_dir tracklist T
              tracklist 1 [] k call Hcall) as ([title start_time] & Hentry & Hplan).
  apply plan_segment_output in Hplan. destruct Hplan as [Hout Hin].
  exists title, start_time. split; [exact Hentry|]. split; [exact Hin|].
  rewrite Hout. apply track_file_is_one_component.
Qed.

(** X5.  Whatever the title of a track is, the file of the run made for it
    is an entry of the output directory itself: its path is the path of the
    output directory with one more component, the file name, which holds
    no [/].  A title cannot move the file elsewhere. *)
Theorem split_audio_writes_into_output_dir
  (ffmpeg : ffmpeg_call -> result Z) (input_file output_dir : path)
  (tracklist : list (str * str)) (T : float) :
  forall k call,
    nth_error (fst (split_audio ffmpeg input_file output_dir tracklist T)) k = Some call ->
    exists title start_time name,
      nth_error tracklist k = Some (title, start_time)
      /\ name = format_02d (Z.of_nat (S k)) ++ py " - " ++ replace "/" "-" title ++ py ".mp3"
      /\ ~ In "/"%char name
      /\ parts (ff_output call) = parts output_dir ++ [name]
      /\ anchored (ff_output call) = anchored output_dir.
Proof.
  intros k call Hcall.
  destruct (split_audio_output _ _ _ _ _ _ _ Hcall) as (title & ts & Hentry & _ & Hout).
  exists title, ts, (track_file_name (S k) title).
  split; [exact Hentry|]. split; [reflexivity|].
  split; [apply track_file_name_no_slash|]. rewrite Hout. auto.
Qed.

Lemma split_audio_writes_into_output_dir_witness :
  exists call,
    nth_error (fst (split_audio accept_all sample_input sample_output
                      [(py "a/../../b", py "0:00")] 400%float)) 0
    = Some call
    /\ parts (ff_output call)
       = [py "output"; py "Artist - Album"; py "01 - a-..-..-b.mp3"].
Proof.
  eexists. split; [reflexivity|].
  destruct (split_audio_writes_into_output_dir accept_all sample_input sample_output
              [(py "a/../../b", py "0:00")] 400%float 0%nat _ eq_refl)
    as (title & start_time & name & Hentry & -> & _ & -> & _).
  injection Hentry as <- _. reflexivity.
Defined.

(** Two runs that write the same file are the same run. *)
Lemma split_audio_output_index
  (ffmpeg : ffmpeg_call -> result Z) (input_file output_dir : path)
  (tracklist : list (str * str)) (T : float) (i j : nat) (ci cj : ffmpeg_call) :
  nth_error (fst (split_audio ffmpeg input_file output_dir tracklist T)) i = Some ci ->
  nth_error (fst (split_audio ffmpeg input_file output_dir tracklist T)) j = Some cj ->
  ff_output ci = ff_output cj -> i = j.
Proof.
  intros Hci Hcj Heq.
  destruct (split_audio_output _ _ _ _ _ _ _ Hci) as (ti & si & _ & _ & Hi').
  destruct (split_audio_output _ _ _ _ _ _ _ Hcj) as (tj & sj & _ & _ & Hj').
  rewrite Hi', Hj' in Heq. injection Heq as Heq.
  apply app_inv_head in Heq. injection Heq as Heq.
  apply track_file_name_number in Heq. lia.
Qed.

Lemma NoDup_map_index {A B : Type} (f : A -> B) (l : list A) :
  (forall i j a b, nth_error l i = Some a -> nth_error l j = Some b ->
                   f a = f b -> i = j) ->
  NoDup (map f l).
Proof.
  intros Hinj. apply NoDup_nth_error. intros i j Hi Heq.
  rewrite length_map in Hi. rewrite !nth_error_map in Heq.
  destruct (nth_error l i) as [a|] eqn:Ha; [|apply nth_error_None in Ha; lia].
  destruct (nth_error l j) as [b|] eqn:Hb; [|discriminate].
  simpl in Heq. injection Heq as Heq. apply (Hinj i j a b Ha Hb Heq).
Qed.

(** X6.  No two runs of the transcoder write the same file, even when two
    tracks have the same title or titles that become equal once [/] is
    replaced: the track number in front of the name tells them apart.  (The
    transcoder is run with [-y] and would overwrite without asking.) *)
Theorem split_audio_outputs_are_distinct
  (ffmpeg : ffmpeg_call -> result Z) (input_file output_dir : path)
  (tracklist : list (str * str)) (T : float) :
  NoDup (map ff_output (fst (split_audio ffmpeg input_file output_dir tracklist T))).
Proof.
  apply NoDup_map_index. intros i j ci cj.
  apply split_audio_output_index.
Qed.

(** ** A failing run only cuts the sequence of runs *)

Lemma split_loop_prefix
  (ffmpeg : ffmpeg_call -> result Z) (input_file output_dir : path)
  (tracklist : list (str * str)) (T : float) (todo : list (str * str)) :
  forall i out out',
  exists later,
    fst (split_loop accept_all input_file output_dir tracklist T i todo out')
    = fst (split_loop ffmpeg input_file output_dir tracklist T i todo out) ++ later.
Proof.
  induction todo as [|entry rest IH]; intros i out out'; simpl.
  - exists []. reflexivity.
  - destruct (plan_segment input_file output_dir tracklist T i entry) as [call|e].
    + change (run_checked accept_all call) with (@Ok unit tt). cbv iota.
      destruct (IH (S i) (out ++ [ff_output call]) (out' ++ [ff_output call]))
        as (later & Hlater).
      destruct (split_loop accept_all input_file output_dir tracklist T (S i) rest
                  (out' ++ [ff_output call])) as [calls' r'].
      destruct (run_checked ffmpeg call).
      * destruct (split_loop ffmpeg input_file output_dir tracklist T (S i) rest
                    (out ++ [ff_output call])) as [calls r].
        simpl in *. exists later. rewrite Hlater. reflexivity.
      * exists calls'. reflexivity.
    + exists []. reflexivity.
Qed.

(** X7.  What the transcoder is asked to do never depends on how earlier
    runs went: under any transcoder the runs made are the first runs of the
    sequence made when every run succeeds.  A failure cuts the sequence and
    changes nothing else. *)
Theorem split_audio_failure_only_cuts_the_runs
  (ffmpeg : ffmpeg_call -> result Z) (input_file output_dir : path)
  (tracklist : list (str * str)) (T : float) :
  exists later,
    fst (split_audio accept_all input_file output_dir tracklist T)
    = fst (split_audio ffmpeg input_file output_dir tracklist T) ++ later.
Proof.
  apply split_loop_prefix.
Qed.


(* ================================================================== *)
(** * [add_metadata]: the tags on disk                                  *)
(* ================================================================== *)



Lemma path_eqb_eq (p q : path) : path_eqb p q = true <-> p = q.
Proof.
  unfold path_eqb. destruct p as [a ps], q as [b qs]. simpl.
  destruct (list_eq_dec (list_eq_dec ascii_dec) ps qs) as [E|E].
  - rewrite andb_true_r, Bool.eqb_true_iff. split; [intros ->; congruence|].
    injection 1 as -> _. reflexivity.
  - rewrite andb_false_r. split; [discriminate|]. injection 1 as _ ->. congruence.
Qed.

Lemma path_eqb_refl (p : path) : path_eqb p p = true.
Proof. apply path_eqb_eq. reflexivity. Qed.

Lemma id3_load_save (store : tag_store) (file : path) (tag : id3) (other : path) :
  id3_load (id3_save store file tag) other
  = if path_eqb file other then tag else id3_load store other.
Proof. reflexivity. Qed.

Lemma str_eqb_eq (a b : str) : str_eqb a b = true <-> a = b.
Proof.
  unfold str_eqb. destruct (list_eq_dec ascii_dec a b); split; congruence.
Qed.

(** Reading a frame after [add]: the text just added, or what was there. *)
Lemma id3_get_add (frame text other : str) (tag : id3) :
  id3_get other (id3_add frame text tag)
  = if str_eqb frame other then Some text else id3_get other tag.
Proof.
  destruct (str_eqb frame other) eqn:E.
  - apply str_eqb_eq in E. subst. apply id3_get_add_same.
  - apply id3_get_add_other, E.
Qed.

(** The frames in the tag that the loop body saves for a file. *)
Lemma tag_file_frames (info : album_info) (n : nat) (store : tag_store)
  (i : nat) (file : path) (title : str) :
  exists tag,
    tag_file info n store i file title = (file, tag) :: store
    /\ id3_get (py "TIT2") tag = Some title
    /\ id3_get (py "TPE1") tag = Some (info_artist info)
    /\ id3_get (py "TALB") tag = Some (info_album info)
    /\ id3_get (py "TRCK") tag = Some (track_number_text i n)
    /\ id3_get (py "TDRC") tag
       = (if falsy (info_year info) then id3_get (py "TDRC") (id3_load store file)
          else info_year info)
    /\ (forall frame,
           ~ In frame [py "TIT2"; py "TPE1"; py "TALB"; py "TRCK"; py "TDRC"] ->
           id3_get frame tag = id3_get frame (id3_load store file)).
Proof.
  unfold tag_file, id3_save. eexists. split; [reflexivity|].
  destruct (info_year info) as [[|c y]|]; cbn [falsy is_empty];
    repeat split; rewrite ?id3_get_add; cbn [str_eqb]; try reflexivity;
    intros frame Hframe; rewrite ?id3_get_add;
    repeat match goal with
    | |- context [str_eqb ?a frame] =>
        let E := fresh in
        destruct (str_eqb a frame) eqn:E;
        [apply str_eqb_eq in E; exfalso; apply Hframe; rewrite <- E; simpl; tauto|]
    end; reflexivity.
Qed.


Lemma tag_file_load_other (info : album_info) (n : nat) (store : tag_store)
  (i : nat) (file : path) (title : str) (other : path) :
  file <> other ->
  id3_load (tag_file info n store i file title) other = id3_load store other.
Proof.
  intros Hne. destruct (tag_file_frames info n store i file title) as (tag & -> & _).
  simpl. destruct (path_eqb file other) eqn:E; [|reflexivity].
  apply path_eqb_eq in E. contradiction.
Qed.

Lemma tag_file_load_same (info : album_info) (n : nat) (store : tag_store)
  (i : nat) (file : path) (title : str) :
  tag_file info n store i file title
  = (file, id3_load (tag_file info n store i file title) file) :: store.
Proof.
  destruct (tag_file_frames info n store i file title) as (tag & -> & _).
  simpl. rewrite path_eqb_refl. reflexivity.
Qed.

(** What the loop body does to one frame of one file does not depend on
    what was stored: it leaves the frame as it was, or it sets it to a text
    that the arguments fix. *)
Lemma tag_file_frame_cases (info : album_info) (n i : nat) (file : path)
  (title : str) (other : path) (frame : str) :
  (forall store,
      id3_get frame (id3_load (tag_file info n store i file title) other)
      = id3_get frame (id3_load store other))
  \/ (exists text, forall store,
         id3_get frame (id3_load (tag_file info n store i file title) other)
         = Some text).
Proof.
  destruct (path_eqb file other) eqn:E.
  2:{ left. intros store. rewrite tag_file_load_other; [reflexivity|].
      intros ->. rewrite path_eqb_refl in E. discriminate. }
  apply path_eqb_eq in E. subst other.
  destruct (in_dec (list_eq_dec ascii_dec) frame
              [py "TIT2"; py "TPE1"; py "TALB"; py "TRCK"; py "TDRC"]) as [Hin|Hout].
  - destruct Hin as [<-|[<-|[<-|[<-|[<-|[]]]]]].
    + right. exists title. intros store.
      destruct (tag_file_frames info n store i file title) as (tag & H & Ht & _).
      rewrite H. cbn [id3_load]. rewrite path_eqb_refl. exact Ht.
    + right. exists (info_artist info). intros store.
      destruct (tag_file_frames info n store i file title) as (tag & H & _ & Ht & _).
      rewrite H. cbn [id3_load]. rewrite path_eqb_refl. exact Ht.
    + right. exists (info_album info). intros store.
      destruct (tag_file_frames info n store i file title)
        as (tag & H & _ & _ & Ht & _).
      rewrite H. cbn [id3_load]. rewrite path_eqb_refl. exact Ht.
    + right. exists (track_number_text i n). intros store.
      destruct (tag_file_frames info n store i file title)
        as (tag & H & _ & _ & _ & Ht & _).
      rewrite H. cbn [id3_load]. rewrite path_eqb_refl. exact Ht.
    + destruct (falsy (info_year info)) eqn:Hyear.
      * left. intros store.
        destruct (tag_file_frames info n store i file title)
          as (tag & H & _ & _ & _ & _ & Ht & _).
        rewrite H. cbn [id3_load]. rewrite path_eqb_refl, Ht, Hyear. reflexivity.
      * right. exists (match info_year info with Some y => y | None => [] end).
        intros store.
        destruct (tag_file_frames info n store i file title)
          as (tag & H & _ & _ & _ & _ & Ht & _).
        rewrite H. cbn [id3_load]. rewrite path_eqb_refl, Ht, Hyear.
        destruct (info_year info); [reflexivity | discriminate].
  - left. intros store.
    destruct (tag_file_frames info n store i file title)
      as (tag & H & _ & _ & _ & _ & _ & Ht).
    rewrite H. cbn [id3_load]. rewrite path_eqb_refl. apply Ht, Hout.
Qed.

Lemma tag_loop_frame_cases (info : album_info) (n : nat)
  (pairs : list (path * (str * str))) (other : path) (frame : str) :
  forall i,
    (forall store,
        id3_get frame (id3_load (tag_loop info n i pairs store) other)
        = id3_get frame (id3_load store other))
    \/ (exists text, forall store,
           id3_get frame (id3_load (tag_loop info n i pairs store) other)
           = Some text).
Proof.
  induction pairs as [|[file [title ts]] rest IH]; intros i; simpl.
  - left. reflexivity.
  - destruct (IH (S i)) as [Hrest|(text & Hrest)].
    + destruct (tag_file_frame_cases info n i file title other frame)
        as [Hbody|(text & Hbody)].
      * left. intros store. rewrite Hrest. apply Hbody.
      * right. exists text. intros store. rewrite Hrest. apply Hbody.
    + right. exists text. intros store. apply Hrest.
Qed.

(** X8.  Tagging twice is tagging once: after a second call of
    [add_metadata] with the same arguments, every frame of every file reads
    as after the first call.  ([add] replaces the frame of the same
    identifier, so no frame is duplicated.) *)
Theorem add_metadata_is_idempotent
  (files : list path) (tracklist : list (str * str)) (info : album_info)
  (store : tag_store) (file : path) (frame : str) :
  id3_get frame
    (id3_load (add_metadata files tracklist info
                 (add_metadata files tracklist info store)) file)
  = id3_get frame (id3_load (add_metadata files tracklist info store) file).
Proof.
  unfold add_metadata.
  destruct (tag_loop_frame_cases info (length tracklist) (combine files tracklist)
              file frame 1) as [H|(text & H)].
  - rewrite H. reflexivity.
  - rewrite !H. reflexivity.
Qed.

Lemma tag_loop_keeps (info : album_info) (n : nat)
  (pairs : list (path * (str * str))) (file : path) (frame : str) :
  ~ In frame [py "TIT2"; py "TPE1"; py "TALB"; py "TRCK"; py "TDRC"]
  \/ (frame = py "TDRC" /\ falsy (info_year info) = true)
  \/ ~ In file (map fst pairs) ->
  forall i store,
    id3_get frame (id3_load (tag_loop info n i pairs store) file)
    = id3_get frame (id3_load store file).
Proof.
  intros Hwhy. induction pairs as [|[f [title ts]] rest IH]; intros i store; simpl.
  - reflexivity.
  - rewrite IH.
    2:{ destruct Hwhy as [H|[H|H]]; auto. right. right. simpl in H. tauto. }
    destruct (path_eqb f file) eqn:E.
    2:{ rewrite tag_file_load_other; [reflexivity|].
        intros ->. rewrite path_eqb_refl in E. discriminate. }
    apply path_eqb_eq in E. subst f.
    destruct (tag_file_frames info n store i file title)
      as (tag & H & _ & _ & _ & _ & Hyear & Hother).
    rewrite H. cbn [id3_load]. rewrite path_eqb_refl.
    destruct Hwhy as [Hframe|[[-> Hfalsy]|Hfile]].
    + apply Hother, Hframe.
    + rewrite Hyear, Hfalsy. reflexivity.
    + exfalso. apply Hfile. simpl. auto.
Qed.

(** X9.  [add_metadata] leaves alone what it does not write: a frame other
    than TIT2, TPE1, TALB, TRCK and TDRC, the TDRC frame when the year is
    absent or empty, and every frame of a file that is not among [files]
    read as before.  So a year already in the file stays when the
    configuration gives none.  Nothing is said here of the TDRC frame when
    a year is given: the library reads that text as a time stamp. *)
Theorem add_metadata_keeps_what_it_does_not_write
  (files : list path) (tracklist : list (str * str)) (info : album_info)
  (store : tag_store) (file : path) (frame : str) :
  ~ In frame [py "TIT2"; py "TPE1"; py "TALB"; py "TRCK"; py "TDRC"]
  \/ (frame = py "TDRC" /\ (info_year info = None \/ info_year info = Some []))
  \/ ~ In file files ->
  id3_get frame (id3_load (add_metadata files tracklist info store) file)
  = id3_get frame (id3_load store file).
Proof.
  intros Hwhy. unfold add_metadata. apply tag_loop_keeps.
  destruct Hwhy as [H|[[H Hyear]|H]]; auto.
  - right. left. split; [exact H|]. destruct Hyear as [-> | ->]; reflexivity.
  - right. right. intros Hin. apply H.
    apply in_map_iff in Hin. destruct Hin as ([f entry] & <- & Hin).
    apply in_combine_l in Hin. exact Hin.
Qed.

Lemma add_metadata_keeps_what_it_does_not_write_witness :
  id3_get (py "TDRC")
    (id3_load
       (add_metadata [sample_input] one_track
          {| info_artist := py "Artist"; info_album := py "Album"; info_year := None |}
          [(sample_input, [(py "TDRC", py "1969")])])
       sample_input)
  = Some (py "1969").
Proof.
  rewrite (add_metadata_keeps_what_it_does_not_write [sample_input] one_track
             {| info_artist := py "Artist"; info_album := py "Album";
                info_year := None |}
             [(sample_input, [(py "TDRC", py "1969")])] sample_input (py "TDRC")).
  - reflexivity.
  - right. left. split; [reflexivity | left; reflexivity].
Defined.


(** The tags the loop saves, in order, and the frames each one carries. *)
Lemma tag_loop_saves (info : album_info) (n : nat)
  (pairs : list (path * (str * str))) :
  forall i store,
  exists writes,
    tag_loop info n i pairs store = rev writes ++ store
    /\ map fst writes = map fst pairs
    /\ forall k file title ts,
         nth_error pairs k = Some (file, (title, ts)) ->
         exists tag,
           nth_error writes k = Some (file, tag)
           /\ id3_get (py "TIT2") tag = Some title
           /\ id3_get (py "TPE1") tag = Some (info_artist info)
           /\ id3_get (py "TALB") tag = Some (info_album info)
           /\ id3_get (py "TRCK") tag = Some (track_number_text (i + k) n)
           /\ (falsy (info_year info) = false ->
               id3_get (py "TDRC") tag = info_year info).
Proof.
  induction pairs as [|[file [title ts]] rest IH]; intros i store.
  - exists []. repeat split. intros k f t s H. destruct k; discriminate.
  - simpl.
    destruct (tag_file_frames info n store i file title)
      as (tag & -> & Htit & Hart & Halb & Htrck & Hyear & _).
    destruct (IH (S i) ((file, tag) :: store)) as (writes & -> & Hfiles & Hall).
    exists ((file, tag) :: writes). split; [|split].
    + simpl. rewrite <- app_assoc. reflexivity.
    + simpl. rewrite Hfiles. reflexivity.
    + intros k f t s Hk. destruct k as [|k]; simpl in Hk.
      * injection Hk as <- <- <-. exists tag. rewrite Nat.add_0_r.
        split; [reflexivity|]. split; [exact Htit|]. split; [exact Hart|].
        split; [exact Halb|]. split; [exact Htrck|].
        intros Hy. rewrite Hy in Hyear. exact Hyear.
      * destruct (Hall k f t s Hk) as (tag' & Hw & H).
        exists tag'. replace (i + S k)%nat with (S i + k)%nat by lia. auto.
Qed.

Lemma map_fst_combine {A B : Type} (l : list A) (l' : list B) :
  map fst (combine l l') = firstn (length l') l.
Proof.
  revert l'. induction l as [|a l IH]; intros [|b l']; simpl; try reflexivity.
  rewrite IH. reflexivity.
Qed.

Lemma nth_error_combine {A B : Type} (l : list A) (l' : list B) (k : nat) (a : A) (b : B) :
  nth_error l k = Some a -> nth_error l' k = Some b ->
  nth_error (combine l l') k = Some (a, b).
Proof.
  revert l l'. induction k as [|k IH]; intros [|x l] [|y l']; simpl; try discriminate.
  - congruence.
  - apply IH.
Qed.

(** X10.  [add_metadata] pairs files and entries with [zip]: when the two
    lists differ in length it tags the first [min(len(files),
    len(tracklist))] files and leaves the others alone, without an error;
    the number after the slash in TRCK is [len(tracklist)] all the same. *)
Theorem add_metadata_stops_at_the_shorter_list
  (files : list path) (tracklist : list (str * str)) (info : album_info)
  (store : tag_store) :
  exists writes,
    add_metadata files tracklist info store = rev writes ++ store
    /\ map fst writes = firstn (length tracklist) files
    /\ length writes = Nat.min (length files) (length tracklist)
    /\ forall k file tag,
         nth_error writes k = Some (file, tag) ->
         id3_get (py "TRCK") tag
         = Some (format_d (Z.of_nat (S k)) ++ py "/"
                 ++ format_d (Z.of_nat (length tracklist))).
Proof.
  unfold add_metadata.
  destruct (tag_loop_saves info (length tracklist) (combine files tracklist) 1 store)
    as (writes & Heq & Hfiles & Hall).
  exists writes. split; [exact Heq|].
  rewrite map_fst_combine in Hfiles. split; [exact Hfiles|]. split.
  - rewrite <- (length_map fst), Hfiles, length_firstn. apply Nat.min_comm.
  - intros k file tag Hk.
    assert (k < length (combine files tracklist))%nat as Hlt.
    { rewrite <- (length_map fst), map_fst_combine, <- Hfiles, length_map.
      apply nth_error_Some. congruence. }
    destruct (nth_error (combine files tracklist) k) as [[f [title ts]]|] eqn:Hpair;
      [|apply nth_error_None in Hpair; lia].
    destruct (Hall k f title ts Hpair) as (tag' & Hw & _ & _ & _ & Htrck & _).
    rewrite Hk in Hw. injection Hw as _ <-. exact Htrck.
Qed.

(* ================================================================== *)
(** * From [split_audio] to [add_metadata]                              *)
(* ================================================================== *)

Lemma split_loop_returned
  (ffmpeg : ffmpeg_call -> result Z) (input_file output_dir : path)
  (tracklist : list (str * str)) (T : float) (todo : list (str * str)) :
  forall i out files,
    snd (split_loop ffmpeg input_file output_dir tracklist T i todo out) = Ok files ->
    files = out ++ map ff_output
                     (fst (split_loop ffmpeg input_file output_dir tracklist T i todo out))
    /\ length (fst (split_loop ffmpeg input_file output_dir tracklist T i todo out))
       = length todo.
Proof.
  induction todo as [|entry rest IH]; intros i out files H; simpl in *.
  - injection H as <-. rewrite app_nil_r. auto.
  - destruct (plan_segment input_file output_dir tracklist T i entry) as [c|e];
      [|discriminate].
    destruct (run_checked ffmpeg c) as [u|e]; [|discriminate].
    specialize (IH (S i) (out ++ [ff_output c]) files).
    destruct (split_loop ffmpeg input_file output_dir tracklist T (S i) rest
                (out ++ [ff_output c])) as [calls r].
    simpl in *. destruct (IH H) as [-> ->]. rewrite <- app_assoc. auto.
Qed.

(** The tag of a file that was saved once is the tag saved. *)
Lemma id3_load_saved (writes : list (path * id3)) (store : tag_store)
  (file : path) (tag : id3) :
  NoDup (map fst writes) -> In (file, tag) writes ->
  id3_load (writes ++ store) file = tag.
Proof.
  induction writes as [|[f t] writes IH]; intros Hnodup Hin; [destruct Hin|].
  simpl in *. inversion Hnodup as [|? ? Hnotin Hrest]; subst.
  destruct Hin as [Heq|Hin].
  - injection Heq as -> ->. rewrite path_eqb_refl. reflexivity.
  - destruct (path_eqb f file) eqn:E; [|apply IH; assumption].
    apply path_eqb_eq in E. subst f. exfalso. apply Hnotin.
    apply (in_map fst) in Hin. exact Hin.
Qed.

(** X11.  When [split_audio] returns, the file it wrote for the entry at
    position [k] is named after the track number [k+1] and the title with
    [/] replaced, and [add_metadata], handed the returned files, leaves in
    that file the title as the configuration has it (slashes included), the
    artist, the album and the track number [k+1] of [n]: no file gets the
    tag of another track. *)
Theorem tracks_are_tagged_with_their_own_titles
  (ffmpeg : ffmpeg_call -> result Z) (input_file output_dir : path)
  (tracklist : list (str * str)) (T : float) (info : album_info)
  (store : tag_store) (files : list path) :
  snd (split_audio ffmpeg input_file output_dir tracklist T) = Ok files ->
  forall k title start_time,
    nth_error tracklist k = Some (title, start_time) ->
    let file :=
      joinpath output_dir
        (format_02d (Z.of_nat (S k)) ++ py " - " ++ replace "/" "-" title ++ py ".mp3") in
    let tag := id3_load (add_metadata files tracklist info store) file in
    nth_error files k = Some file
    /\ id3_get (py "TIT2") tag = Some title
    /\ id3_get (py "TPE1") tag = Some (info_artist info)
    /\ id3_get (py "TALB") tag = Some (info_album info)
    /\ id3_get (py "TRCK") tag
       = Some (format_d (Z.of_nat (S k)) ++ py "/"
               ++ format_d (Z.of_nat (length tracklist))).
Proof.
  intros Hfiles k title start_time Hentry file tag.
  destruct (split_loop_returned ffmpeg input_file output_dir tracklist T
              tracklist 1 [] files Hfiles) as [Heq Hlen].
  fold (split_audio ffmpeg input_file output_dir tracklist T) in Heq, Hlen.
  simpl in Heq.
  assert (nth_error files k = Some file) as Hfile.
  { destruct (nth_error (fst (split_audio ffmpeg input_file output_dir tracklist T)) k)
      as [call|] eqn:Hcall.
    - destruct (split_audio_output _ _ _ _ _ _ _ Hcall) as (t & s & Ht & _ & Hout).
      rewrite Hentry in Ht. injection Ht as <- <-.
      rewrite Heq, nth_error_map, Hcall. simpl. f_equal.
      rewrite Hout. symmetry. apply track_file_is_one_component.
    - apply nth_error_None in Hcall.
      assert (k < length tracklist)%nat by (apply nth_error_Some; congruence). lia. }
  split; [exact Hfile|].
  assert (NoDup files) as Hnodup.
  { rewrite Heq. apply NoDup_map_index. intros i j ci cj.
    apply split_audio_output_index. }
  assert (length files = length tracklist) as Hsame
    by (rewrite Heq, length_map; exact Hlen).
  subst tag. unfold add_metadata.
  destruct (tag_loop_saves info (length tracklist) (combine files tracklist) 1 store)
    as (writes & -> & Hfst & Hall).
  destruct (Hall k file title start_time (nth_error_combine _ _ _ _ _ Hfile Hentry))
    as (t & Hw & Htit & Hart & Halb & Htrck & _).
  rewrite (id3_load_saved (rev writes) store file t).
  - auto.
  - rewrite map_rev. apply NoDup_rev.
    rewrite Hfst, map_fst_combine, <- Hsame, firstn_all. exact Hnodup.
  - apply in_rev. rewrite rev_involutive. apply (nth_error_In _ k), Hw.
Qed.

Lemma tracks_are_tagged_with_their_own_titles_witness :
  let tag :=
    id3_load
      (add_metadata
         [joinpath sample_output (py "01 - Intro.mp3");
          joinpath sample_output (py "02 - Middle.mp3");
          joinpath sample_output (py "03 - End.mp3")]
         three_tracks sample_info [])
      (joinpath sample_output (py "02 - Middle.mp3")) in
  id3_get (py "TIT2") tag = Some (py "Middle")
  /\ id3_get (py "TRCK") tag = Some (py "2/3").
Proof.
  destruct (tracks_are_tagged_with_their_own_titles accept_all sample_input
              sample_output three_tracks 400%float sample_info [] _ eq_refl
              1%nat (py "Middle") (py "2:05") eq_refl)
    as (_ & Htit & _ & _ & Htrck).
  split; [exact Htit | exact Htrck].
Defined.

(* ================================================================== *)
(** * [main]: how it ends                                               *)
(* ================================================================== *)

Lemma parse_config_Ok (file : option str) (printed : list message) (cfg : config) :
  parse_config file = (printed, Ok cfg) ->
  exists u a b,
    url cfg = Some u /\ u <> [] /\ artist cfg = Some a /\ a <> []
    /\ album cfg = Some b /\ b <> [] /\ tracklist cfg <> [].
Proof.
  destruct file as [content|]; [|discriminate]. unfold parse_config.
  destruct (parse_lines empty_config (splitlines content)) as [cfg'|e]; [|discriminate].
  destruct (missing_fields cfg') as [|name names] eqn:Hmissing; [|discriminate].
  injection 1 as _ <-. apply missing_fields_nil in Hmissing.
  destruct Hmissing as (Hu & Ha & Hb & Ht).
  apply falsy_false in Hu, Ha, Hb.
  destruct Hu as (u & Hu & Hu'), Ha as (a & Ha & Ha'), Hb as (b & Hb & Hb').
  exists u, a, b. repeat split; auto. destruct (tracklist cfg'); discriminate.
Qed.

Lemma parse_config_Raise (file : option str) (printed : list message) (e : exn) :
  parse_config file = (printed, Raise e) -> e = SystemExit 1.
Proof.
  destruct file as [content|]; [|injection 1 as _ <-; reflexivity]. unfold parse_config.
  destruct (parse_lines_total (splitlines content) empty_config) as (cfg & ->).
  destruct (negb (is_empty (missing_fields cfg))); [|discriminate].
  injection 1 as _ <-. reflexivity.
Qed.

(** Reading the configuration: the text was read and parsed, or nothing
    is returned. *)
Lemma parse_config_file_read (w : world) (printed : list message) (cfg : config) :
  parse_config (w_config w) = (printed, Ok cfg) ->
  parse_config_file (w_album_txt w) = (printed, Returned cfg).
Proof.
  unfold w_config, parse_config_file.
  destruct (w_album_txt w) as [|e|content]; try discriminate.
  intros ->. reflexivity.
Qed.

Lemma main_without_config (w : world) (printed : list message) (e : exn) :
  parse_config (w_config w) = (printed, Raise e) ->
  (exists e', w_album_txt w = unreadable e'
              /\ main w = ({| trace := []; tags := w_tags w |}, Failed e'))
  \/ main w = ({| trace := []; tags := w_tags w |}, Failed (Other (SystemExit 1))).
Proof.
  intros Hcfg. pose proof (parse_config_Raise _ _ _ Hcfg) as ->.
  unfold main, parse_config_file. unfold w_config in Hcfg.
  destruct (w_album_txt w) as [|e'|content].
  - right. reflexivity.
  - left. exists e'. auto.
  - right. rewrite Hcfg. reflexivity.
Qed.

(** [main] once the configuration is read. *)
Lemma main_with_config (w : world) (printed : list message) (cfg : config) :
  parse_config (w_config w) = (printed, Ok cfg) ->
  exists the_url,
    url cfg = Some the_url
    /\ main w
       = and_then (perform (ev_mkdir (output_dir_of cfg)) (w_mkdir w (output_dir_of cfg)))
           (fun _ => guarded (main_body w the_url (info_of cfg) (tracklist cfg)
                                (output_dir_of cfg)))
           {| trace := []; tags := w_tags w |}.
Proof.
  intros Hcfg.
  destruct (parse_config_Ok _ _ _ Hcfg) as (u & a & b & Hu & _ & Ha & _ & Hb & _).
  exists u. split; [exact Hu|].
  unfold main, output_dir_of, info_of.
  rewrite (parse_config_file_read w printed cfg Hcfg), Hu, Ha, Hb. reflexivity.
Qed.



(** The sixth way: a configuration file that is not UTF-8.  [main] does
    nothing and [UnicodeDecodeError] escapes. *)
Example main_with_undecodable_config :
  main world_with_undecodable_config
  = ({| trace := []; tags := [] |}, Failed UnicodeDecodeError).
Proof. reflexivity. Qed.

(* ================================================================== *)
(** * [main]: the steps of a run                                        *)
(* ================================================================== *)









(** The tagging loop, when no file makes the library raise and when one
    does. *)
Lemma run_tag_loop_run (w : world) (info : album_info) (n : nat)
  (pairs : list (path * (str * str))) :
  forall (i : nat) (s : state),
    (Forall (fun pair => w_tag_error w (fst pair) = None) pairs
     /\ run_tag_loop w info n i pairs s
        = ({| trace := trace s; tags := tag_loop info n i pairs (tags s) |},
           Returned tt))
    \/ (exists k pair e,
           nth_error pairs k = Some pair
           /\ w_tag_error w (fst pair) = Some e
           /\ Forall (fun pair => w_tag_error w (fst pair) = None) (firstn k pairs)
           /\ run_tag_loop w info n i pairs s
              = ({| trace := trace s;
                    tags := tag_loop info n i (firstn k pairs) (tags s) |},
                 Failed e)).
Proof.
  induction pairs as [|[file [title ts]] rest IH]; intros i s.
  - left. split; [constructor|]. destruct s. reflexivity.
  - cbn [run_tag_loop tag_loop].
    destruct (w_tag_error w file) as [e|] eqn:Herr.
    + right. exists 0%nat, (file, (title, ts)), e. cbn [nth_error firstn fst tag_loop].
      split; [reflexivity|]. split; [exact Herr|]. split; [constructor|].
      destruct s. reflexivity.
    + destruct (IH (S i) {| trace := trace s;
                            tags := tag_file info n (tags s) i file title |})
        as [(Hall & Hrun)|(k & pair & e & Hk & He & Hall & Hrun)].
      * left. split; [constructor; [exact Herr | exact Hall]|]. exact Hrun.
      * right. exists (S k), pair, e. cbn [nth_error firstn tag_loop].
        split; [exact Hk|]. split; [exact He|].
        split; [constructor; [exact Herr | exact Hall]|]. exact Hrun.
Qed.

Lemma firstn_combine_left {A B : Type} (k : nat) (l : list A) (l' : list B) :
  firstn k (combine l l') = combine (firstn k l) l'.
Proof.
  revert l l'. induction k as [|k IH]; intros [|a l] [|b l']; simpl;
    try reflexivity.
  rewrite IH. reflexivity.
Qed.

Lemma nth_error_combine_inv {A B : Type} (l : list A) (l' : list B) (k : nat) (p : A * B) :
  nth_error (combine l l') k = Some p ->
  nth_error l k = Some (fst p) /\ nth_error l' k = Some (snd p).
Proof.
  revert l l'. induction k as [|k IH]; intros [|a l] [|b l']; simpl;
    try discriminate.
  - injection 1 as <-. auto.
  - apply IH.
Qed.

Lemma Forall_combine_fst {A B : Type} (P : A -> Prop) (l : list A) (l' : list B) :
  (length l <= length l')%nat ->
  Forall (fun p => P (fst p)) (combine l l') -> Forall P l.
Proof.
  revert l'. induction l as [|a l IH]; intros [|b l'] Hlen H; simpl in *;
    try lia; try constructor.
  - inversion H; subst. assumption.
  - inversion H; subst. apply (IH l'); [lia | assumption].
Qed.

(** [add_metadata] as a step of [main], for as many files as entries:
    either no file makes the library raise and all are tagged, or the
    first file that does ends the step, with the files before it tagged. *)
Lemma run_add_metadata_run (w : world) (files : list path)
  (tracklist : list (str * str)) (info : album_info) (s : state) :
  length files = length tracklist ->
  ((forall file, In file files -> w_tag_error w file = None)
   /\ run_add_metadata w files tracklist info s
      = ({| trace := trace s; tags := add_metadata files tracklist info (tags s) |},
         Returned tt))
  \/ (exists k file e,
         nth_error files k = Some file
         /\ w_tag_error w file = Some e
         /\ (forall file', In file' (firstn k files) -> w_tag_error w file' = None)
         /\ run_add_metadata w files tracklist info s
            = ({| trace := trace s;
                  tags := add_metadata (firstn k files) tracklist info (tags s) |},
               Failed e)).
Proof.
  intros Hlen. unfold run_add_metadata, add_metadata.
  destruct (run_tag_loop_run w info (length tracklist) (combine files tracklist) 1 s)
    as [(Hall & Hrun)|(k & pair & e & Hk & He & Hall & Hrun)].
  - left. split; [|exact Hrun].
    apply Forall_forall.
    apply (Forall_combine_fst (fun file => w_tag_error w file = None)
             files tracklist); [lia | exact Hall].
  - right. exists k, (fst pair), e.
    destruct (nth_error_combine_inv _ _ _ _ Hk) as [Hfile _].
    split; [exact Hfile|]. split; [exact He|].
    rewrite firstn_combine_left in Hall, Hrun. split; [|exact Hrun].
    apply Forall_forall.
    apply (Forall_combine_fst (fun file => w_tag_error w file = None)
             (firstn k files) tracklist); [|exact Hall].
    rewrite length_firstn. lia.
Qed.


Lemma temp_dir_eq : joinpath (path_of_str (py "output")) (py ".temp") = temp_dir.
Proof. reflexivity. Qed.

Lemma downloaded_audio_eq : joinpath temp_dir (py "full_audio.mp3") = downloaded_audio.
Proof. reflexivity. Qed.




(** ** What a run does, whether it returns or raises *)

Lemma download_audio_run (w : world) (url : str) (output_path : path) (s : state) :
  (exists evs e,
      download_audio w url output_path s
      = ({| trace := trace s ++ evs; tags := tags s |}, Failed e)
      /\ forall ev, In ev evs -> exists cmd, ev = ev_yt_dlp cmd)
  \/ (exists cmd,
         download_audio w url output_path s
         = ({| trace := trace s ++ [ev_yt_dlp cmd]; tags := tags s |},
            Returned (joinpath output_path (py "full_audio.mp3")))
         /\ yt_url cmd = url /\ w_yt_dlp w cmd = Ok 0
         /\ w_exists w (joinpath output_path (py "full_audio.mp3")) = Ok true).
Proof.
  unfold download_audio, and_then, query, perform, lift, ret, fail.
  destruct (w_exists w (path_of_str COOKIES_FILE)) as [c|e].
  2:{ left. exists [], (with_stderr not_captured e). rewrite app_nil_r.
      destruct s. split; [reflexivity | intros ev []]. }
  match goal with
  | |- context [w_yt_dlp w ?c] => set (cmd := c)
  end.
  destruct (w_yt_dlp w cmd) as [status|e] eqn:Hrun.
  2:{ left. exists [ev_yt_dlp cmd], (with_stderr not_captured e).
      split; [reflexivity|]. intros ev [<-|[]]. eauto. }
  destruct (status =? 0) eqn:Hstatus.
  2:{ left. exists [ev_yt_dlp cmd], (CalledProcessError_with status not_captured).
      split; [reflexivity|]. intros ev [<-|[]]. eauto. }
  apply Z.eqb_eq in Hstatus. subst status.
  destruct (w_exists w (joinpath output_path (py "full_audio.mp3"))) as [[]|e] eqn:Hfound.
  - right. exists cmd. auto.
  - left. exists [ev_yt_dlp cmd], (FileNotFoundError (joinpath output_path (py "full_audio.mp3"))).
    split; [reflexivity|]. intros ev [<-|[]]. eauto.
  - left. exists [ev_yt_dlp cmd], (with_stderr not_captured e).
    split; [reflexivity|]. intros ev [<-|[]]. eauto.
Qed.

Lemma get_audio_duration_run (w : world) (file : path) (s : state) :
  (exists e,
      get_audio_duration w file s
      = ({| trace := trace s ++ [ev_ffprobe file]; tags := tags s |}, Failed e))
  \/ (exists r T,
         get_audio_duration w file s
         = ({| trace := trace s ++ [ev_ffprobe file]; tags := tags s |}, Returned T)
         /\ w_ffprobe w file = Ok r /\ cp_returncode r = 0
         /\ float_of_str (strip (cp_stdout r)) = Some T).
Proof.
  unfold get_audio_duration, and_then, perform, lift, ret, fail.
  destruct (w_ffprobe w file) as [r|e]; [|left; eauto].
  destruct (cp_returncode r =? 0) eqn:Hrc; [|left; eauto].
  apply Z.eqb_eq in Hrc.
  destruct (float_of_str (strip (cp_stdout r))) as [T|] eqn:HT; [|left; eauto].
  right. exists r, T. auto.
Qed.

Lemma and_then_eq {A B : Type} (m : run A) (k : A -> run B)
  (s s1 : state) (a : A) :
  m s = (s1, Returned a) -> and_then m k s = k a s1.
Proof. unfold and_then. intros ->. reflexivity. Qed.

Lemma and_then_failed {A B : Type} (m : run A) (k : A -> run B)
  (s s1 : state) (e : raised) :
  m s = (s1, Failed e) -> and_then m k s = (s1, Failed e).
Proof. unfold and_then. intros ->. reflexivity. Qed.

Lemma perform_Ok {A : Type} (ev : event) (r : result A) (s : state) (a : A) :
  r = Ok a ->
  perform ev r s = ({| trace := trace s ++ [ev]; tags := tags s |}, Returned a).
Proof. intros ->. reflexivity. Qed.

Lemma perform_Raise {A : Type} (ev : event) (r : result A) (s : state) (e : exn) :
  r = Raise e ->
  perform ev r s
  = ({| trace := trace s ++ [ev]; tags := tags s |}, Failed (with_stderr not_captured e)).
Proof. intros ->. reflexivity. Qed.

(** The last steps of the body, which only ask: they change nothing. *)
Lemma main_listing (w : world) (output_dir : path) (s : state) :
  fst (and_then (if anchored output_dir then ret output_dir else query (w_getcwd w))
         (fun _ => and_then (query (w_iterdir w output_dir)) (fun _ => ret tt)) s)
  = s.
Proof.
  unfold and_then, query, ret.
  destruct (anchored output_dir); [|destruct (lift (w_getcwd w))];
    try destruct (lift (w_iterdir w output_dir)); reflexivity.
Qed.

(** The body of [main]'s [try], step by step.  Either it stops before the
    first transcoder run, having only created the temporary directory and
    run the downloader and the prober; or it reaches [split_audio], and
    then tags if [split_audio] returned, and cleans up if tagging did. *)
Lemma main_body_run (w : world) (url : str) (info : album_info)
  (tracklist : list (str * str)) (output_dir : path) (s : state) :
  let r := main_body w url info tracklist output_dir s in
  (exists evs e,
      r = ({| trace := trace s ++ evs; tags := tags s |}, Failed e)
      /\ forall ev, In ev evs ->
                    ev = ev_mkdir temp_dir \/ (exists cmd, ev = ev_yt_dlp cmd)
                    \/ ev = ev_ffprobe downloaded_audio)
  \/ (exists cmd T late,
         let split :=
           split_audio (w_ffmpeg w) downloaded_audio output_dir tracklist T in
         trace (fst r)
         = trace s ++ [ev_mkdir temp_dir; ev_yt_dlp cmd; ev_ffprobe downloaded_audio]
           ++ map ev_ffmpeg (fst split) ++ late
         /\ ((late = [] /\ tags (fst r) = tags s
              /\ exists e e', snd split = Raise e /\ snd r = Failed e')
             \/ (exists files,
                    snd split = Ok files
                    /\ (((forall file, In file files -> w_tag_error w file = None)
                         /\ tags (fst r) = add_metadata files tracklist info (tags s)
                         /\ (late = [ev_unlink downloaded_audio]
                             \/ late = [ev_unlink downloaded_audio; ev_rmdir temp_dir]))
                        \/ (exists k file e,
                               nth_error files k = Some file
                               /\ w_tag_error w file = Some e
                               /\ (forall file', In file' (firstn k files) ->
                                                 w_tag_error w file' = None)
                               /\ late = []
                               /\ tags (fst r)
                                  = add_metadata (firstn k files) tracklist info (tags s)
                               /\ snd r = Failed e))))).
Proof.
  cbv zeta.
  destruct (main_body w url info tracklist output_dir s) as [final o] eqn:Hrun.
  cbn [fst snd]. unfold main_body in Hrun. rewrite temp_dir_eq in Hrun.
  destruct (w_mkdir w temp_dir) as [[]|e] eqn:Hmk.
  2:{ rewrite (and_then_failed _ _ _ _ _ (perform_Raise _ _ s e eq_refl)) in Hrun.
      injection Hrun as <- <-.
      left. exists [ev_mkdir temp_dir], (with_stderr not_captured e).
      split; [reflexivity|]. intros ev [<-|[]]. auto. }
  rewrite (and_then_eq _ _ _ _ _ (perform_Ok _ _ s tt eq_refl)) in Hrun.
  destruct (download_audio_run w url temp_dir
              {| trace := trace s ++ [ev_mkdir temp_dir]; tags := tags s |})
    as [(evs & e & Hdl & Hevs)|(cmd & Hdl & _ & _ & _)].
  { rewrite (and_then_failed _ _ _ _ _ Hdl) in Hrun. injection Hrun as <- <-.
    left. exists (ev_mkdir temp_dir :: evs), e. cbn [trace tags].
    rewrite <- app_assoc. split; [reflexivity|].
    intros ev [<-|Hin]; [auto|]. right. left. apply Hevs, Hin. }
  rewrite (and_then_eq _ _ _ _ _ Hdl) in Hrun. clear Hdl.
  rewrite downloaded_audio_eq in Hrun. cbn [trace tags] in Hrun.
  destruct (get_audio_duration_run w downloaded_audio
              {| trace := (trace s ++ [ev_mkdir temp_dir]) ++ [ev_yt_dlp cmd];
                 tags := tags s |})
    as [(e & Hprobe)|(r & T & Hprobe & _ & _ & _)].
  { rewrite (and_then_failed _ _ _ _ _ Hprobe) in Hrun. injection Hrun as <- <-.
    left. exists [ev_mkdir temp_dir; ev_yt_dlp cmd; ev_ffprobe downloaded_audio], e.
    cbn [trace tags]. rewrite <- !app_assoc. split; [reflexivity|].
    intros ev [<-|[<-|[<-|[]]]]; eauto. }
  rewrite (and_then_eq _ _ _ _ _ Hprobe) in Hrun. clear Hprobe.
  cbn [trace tags] in Hrun.
  right. exists cmd, T.
  unfold and_then at 1 in Hrun. unfold run_split_audio at 1 in Hrun.
  pose proof (split_audio_returns_one_file_per_entry (w_ffmpeg w) downloaded_audio
                output_dir tracklist T) as Hlen.
  destruct (split_audio (w_ffmpeg w) downloaded_audio output_dir tracklist T)
    as [calls [files|e]]; cbn [trace tags fst snd] in *.
  2:{ injection Hrun as <- <-. exists []. cbn [trace tags].
      rewrite <- !app_assoc, app_nil_r. split; [reflexivity|].
      left. repeat split. eauto. }
  specialize (Hlen files eq_refl).
  match type of Hrun with
  | and_then _ _ ?s0 = _ =>
      destruct (run_add_metadata_run w files tracklist info s0 Hlen)
        as [(Hall & Htag)|(k & file & e & Hk & He & Hbefore & Htag)]
  end.
  2:{ rewrite (and_then_failed _ _ _ _ _ Htag) in Hrun. injection Hrun as <- <-.
      exists []. cbn [fst snd trace tags].
      rewrite <- !app_assoc, app_nil_r. split; [reflexivity|].
      right. exists files. split; [reflexivity|].
      right. exists k, file, e. repeat split; auto. }
  rewrite (and_then_eq _ _ _ _ _ Htag) in Hrun. clear Htag.
  cbn [trace tags] in Hrun.
  destruct (w_unlink w downloaded_audio) as [[]|e] eqn:Hunlink.
  2:{ rewrite (and_then_failed _ _ _ _ _ (perform_Raise _ _ _ e eq_refl)) in Hrun.
      injection Hrun as <- <-.
      exists [ev_unlink downloaded_audio]. cbn [fst snd trace tags].
      rewrite <- !app_assoc. split; [reflexivity|]. right. exists files.
      split; [reflexivity|]. left. auto. }
  rewrite (and_then_eq _ _ _ _ _ (perform_Ok _ _ _ tt eq_refl)) in Hrun.
  cbn [trace tags] in Hrun.
  exists [ev_unlink downloaded_audio; ev_rmdir temp_dir].
  destruct (w_rmdir w temp_dir) as [[]|e] eqn:Hrmdir.
  2:{ rewrite (and_then_failed _ _ _ _ _ (perform_Raise _ _ _ e eq_refl)) in Hrun.
      injection Hrun as <- <-. cbn [fst snd trace tags]. rewrite <- !app_assoc.
      split; [reflexivity|]. right. exists files.
      split; [reflexivity|]. left. auto. }
  rewrite (and_then_eq _ _ _ _ _ (perform_Ok _ _ _ tt eq_refl)) in Hrun.
  cbn [trace tags] in Hrun.
  apply (f_equal fst) in Hrun. rewrite main_listing in Hrun. cbn [fst] in Hrun.
  subst final. cbn [trace tags]. rewrite <- !app_assoc.
  split; [reflexivity|]. right. exists files.
  split; [reflexivity|]. left. auto.
Qed.

Lemma guarded_fst {A : Type} (body : run A) (s : state) :
  fst (guarded body s) = fst (body s).
Proof. unfold guarded. destruct (body s) as [s' [a|e]]; reflexivity. Qed.

(** A run of [main], step by step: no configuration; or a run that stops
    before the first transcoder run; or one that reaches [split_audio]. *)
Lemma main_run (w : world) :
  (exists e, main w = ({| trace := []; tags := w_tags w |}, Failed e))
  \/ exists printed cfg,
       parse_config (w_config w) = (printed, Ok cfg)
       /\ ((exists evs,
               fst (main w)
               = {| trace := ev_mkdir (output_dir_of cfg) :: evs; tags := w_tags w |}
               /\ (exists e, snd (main w) = Failed e)
               /\ forall ev, In ev evs ->
                             ev = ev_mkdir temp_dir \/ (exists cmd, ev = ev_yt_dlp cmd)
                             \/ ev = ev_ffprobe downloaded_audio)
           \/ (exists cmd T late,
                  let split :=
                    split_audio (w_ffmpeg w) downloaded_audio (output_dir_of cfg)
                      (tracklist cfg) T in
                  trace (fst (main w))
                  = [ev_mkdir (output_dir_of cfg); ev_mkdir temp_dir; ev_yt_dlp cmd;
                     ev_ffprobe downloaded_audio]
                    ++ map ev_ffmpeg (fst split) ++ late
                  /\ ((late = [] /\ tags (fst (main w)) = w_tags w
                       /\ exists e e', snd split = Raise e /\ snd (main w) = Failed e')
                      \/ (exists files,
                             snd split = Ok files
                             /\ (((forall file, In file files -> w_tag_error w file = None)
                                  /\ tags (fst (main w))
                                     = add_metadata files (tracklist cfg) (info_of cfg)
                                         (w_tags w)
                                  /\ (late = [ev_unlink downloaded_audio]
                                      \/ late = [ev_unlink downloaded_audio;
                                                 ev_rmdir temp_dir]))
                                 \/ (exists k file e,
                                        nth_error files k = Some file
                                        /\ w_tag_error w file = Some e
                                        /\ (forall file', In file' (firstn k files) ->
                                                          w_tag_error w file' = None)
                                        /\ late = []
                                        /\ tags (fst (main w))
                                           = add_metadata (firstn k files) (tracklist cfg)
                                               (info_of cfg) (w_tags w)
                                        /\ snd (main w) = Failed (handle e))))))).
Proof.
  destruct (parse_config (w_config w)) as [printed [cfg|e]] eqn:Hcfg.
  2:{ left. destruct (main_without_config w printed e Hcfg) as [(e' & _ & ->)| ->];
        eauto. }
  right. exists printed, cfg. split; [reflexivity|].
  destruct (main_with_config w printed cfg Hcfg) as (u & Hu & ->).
  destruct (w_mkdir w (output_dir_of cfg)) as [[]|e] eqn:Hmk.
  2:{ rewrite (and_then_failed _ _ _ _ _ (perform_Raise _ _ _ e eq_refl)).
      left. exists []. split; [reflexivity|]. split; [cbn [snd]; eauto|]. intros ev []. }
  rewrite (and_then_eq _ _ _ _ _ (perform_Ok _ _ _ tt eq_refl)).
  rewrite guarded_fst. cbn [trace tags app].
  pose proof (main_body_run w u (info_of cfg) (tracklist cfg) (output_dir_of cfg)
                {| trace := [ev_mkdir (output_dir_of cfg)]; tags := w_tags w |}) as Hrun.
  cbv zeta in Hrun. cbn [trace tags] in Hrun.
  destruct Hrun as [(evs & e & Hrun & Hevs)|(cmd & T & late & Htrace & Hrest)].
  - left. exists evs. unfold guarded. rewrite Hrun. cbn [fst snd]. eauto.
  - right. exists cmd, T, late. split; [exact Htrace|].
    destruct Hrest as [(-> & Htags & e & e' & Hsplit & Hfail)
                      |(files & Hfiles & [Hdone|(k & file & e & Hk & He & Hbefore
                                                & -> & Htags & Hfail)])].
    + left. split; [reflexivity|]. split; [exact Htags|]. exists e.
      unfold guarded. destruct (main_body _ _ _ _ _ _) as [s' o].
      simpl in Hfail. subst o. cbn [snd]. eauto.
    + right. exists files. split; [exact Hfiles|]. left. exact Hdone.
    + right. exists files. split; [exact Hfiles|]. right. exists k, file, e.
      split; [exact Hk|]. split; [exact He|]. split; [exact Hbefore|].
      split; [reflexivity|]. split; [exact Htags|].
      unfold guarded. destruct (main_body _ _ _ _ _ _) as [s' o].
      simpl in Hfail. subst o. reflexivity.
Qed.

Lemma transcoder_runs_app (t t' : list event) :
  transcoder_runs (t ++ t') = transcoder_runs t ++ transcoder_runs t'.
Proof. apply flat_map_app. Qed.

Lemma transcoder_runs_map (calls : list ffmpeg_call) :
  transcoder_runs (map ev_ffmpeg calls) = calls.
Proof. induction calls as [|c calls IH]; simpl; [|rewrite IH]; reflexivity. Qed.

Lemma transcoder_runs_In (t : list event) (call : ffmpeg_call) :
  In call (transcoder_runs t) <-> In (ev_ffmpeg call) t.
Proof.
  unfold transcoder_runs. rewrite in_flat_map. split.
  - intros ([] & Hin & Hcall); simpl in Hcall; try tauto.
    destruct Hcall as [<-|[]]. exact Hin.
  - intros Hin. exists (ev_ffmpeg call). simpl. auto.
Qed.

Lemma no_removal_before_cleanup (cfg : config) (cmd : ytdlp_call)
  (calls : list ffmpeg_call) (file : path) :
  let t := [ev_mkdir (output_dir_of cfg); ev_mkdir temp_dir; ev_yt_dlp cmd;
            ev_ffprobe downloaded_audio] ++ map ev_ffmpeg calls ++ [] in
  ~ In (ev_unlink file) t /\ ~ In (ev_rmdir file) t.
Proof.
  cbv zeta. rewrite app_nil_r.
  split; intros H; apply in_app_or in H; destruct H as [H|H];
    try (simpl in H; intuition discriminate);
    apply in_map_iff in H; destruct H as (c & H & _); discriminate.
Qed.

(** X14.  Tagging comes only after the last track is cut, and cleaning up
    only after the last file is tagged.  A run of [main] is of one of three
    kinds.  Nothing was tagged and the run ended with an exception.  Or
    [split_audio] returned one file per track, the transcoder runs in the
    trace are exactly its runs, no file made the tagging library raise, all
    files were tagged, and removing the download was attempted.  Or
    [split_audio] returned in this way and the tagging library raised for
    one of the files: then the files before it are tagged, the others are
    not, and [main] ends as its [except] clauses have it, with status 1 for
    an [Exception].  In the first and the third case neither the download
    nor any directory was removed: a failure rolls nothing back. *)
Theorem main_tags_and_cleans_up_only_after_every_track (w : world) :
  (tags (fst (main w)) = w_tags w
   /\ (exists e, snd (main w) = Failed e)
   /\ forall file, ~ In (ev_unlink file) (trace (fst (main w)))
                   /\ ~ In (ev_rmdir file) (trace (fst (main w))))
  \/ (exists printed cfg T files,
         parse_config (w_config w) = (printed, Ok cfg)
         /\ split_audio (w_ffmpeg w) downloaded_audio (output_dir_of cfg) (tracklist cfg) T
            = (transcoder_runs (trace (fst (main w))), Ok files)
         /\ length files = length (tracklist cfg)
         /\ (((forall file, In file files -> w_tag_error w file = None)
              /\ In (ev_unlink downloaded_audio) (trace (fst (main w)))
              /\ tags (fst (main w))
                 = add_metadata files (tracklist cfg) (info_of cfg) (w_tags w))
             \/ (exists k file e,
                    nth_error files k = Some file
                    /\ w_tag_error w file = Some e
                    /\ (forall file', In file' (firstn k files) ->
                                      w_tag_error w file' = None)
                    /\ tags (fst (main w))
                       = add_metadata (firstn k files) (tracklist cfg) (info_of cfg)
                           (w_tags w)
                    /\ snd (main w) = Failed (handle e)
                    /\ forall file, ~ In (ev_unlink file) (trace (fst (main w)))
                                    /\ ~ In (ev_rmdir file) (trace (fst (main w)))))).
Proof.
  destruct (main_run w) as [(e & ->)|(printed & cfg & Hcfg & [Hearly|Hsplit])].
  - left. simpl. split; [reflexivity|]. split; [eauto|]. intros file. split; intros [].
  - left. destruct Hearly as (evs & -> & Hfail & Hevs). simpl.
    split; [reflexivity|]. split; [exact Hfail|].
    intros file. split; intros [H|H]; try discriminate;
      destruct (Hevs _ H) as [H'|[(cmd & H')|H']]; discriminate.
  - destruct Hsplit as (cmd & T & late & Htrace & Hrest). cbv zeta in *.
    destruct Hrest as [(-> & Htags & e & e' & Hraise & Hfail)|(files & Hfiles & Hrest)].
    + left. split; [exact Htags|]. split; [eauto|].
      intros file. rewrite Htrace. apply no_removal_before_cleanup.
    + right. exists printed, cfg, T, files. split; [exact Hcfg|].
      assert (transcoder_runs late = []) as Hlate.
      { destruct Hrest as [(_ & _ & [-> | ->])|(k & file & e & _ & _ & _ & -> & _)];
          reflexivity. }
      assert (transcoder_runs (trace (fst (main w)))
              = fst (split_audio (w_ffmpeg w) downloaded_audio (output_dir_of cfg)
                       (tracklist cfg) T)) as Hruns.
      { rewrite Htrace.
        change ([ev_mkdir (output_dir_of cfg); ev_mkdir temp_dir; ev_yt_dlp cmd;
                 ev_ffprobe downloaded_audio] ++ ?x)
          with (ev_mkdir (output_dir_of cfg) :: ev_mkdir temp_dir :: ev_yt_dlp cmd
                :: ev_ffprobe downloaded_audio :: x).
        cbn [transcoder_runs flat_map app].
        fold (transcoder_runs
                (map ev_ffmpeg
                   (fst (split_audio (w_ffmpeg w) downloaded_audio (output_dir_of cfg)
                           (tracklist cfg) T)) ++ late)).
        rewrite transcoder_runs_app, transcoder_runs_map, Hlate. apply app_nil_r. }
      split.
      { rewrite Hruns, <- Hfiles. apply surjective_pairing. }
      split.
      { apply (split_audio_returns_one_file_per_entry _ _ _ _ _ _ Hfiles). }
      destruct Hrest as [(Hall & Htags & Hlate')
                        |(k & file & e & Hk & He & Hbefore & -> & Htags & Hfail)].
      * left. split; [exact Hall|]. split; [|exact Htags].
        rewrite Htrace. apply in_or_app. right. apply in_or_app. right.
        destruct Hlate' as [-> | ->]; simpl; auto.
      * right. exists k, file, e.
        split; [exact Hk|]. split; [exact He|]. split; [exact Hbefore|].
        split; [exact Htags|]. split; [exact Hfail|].
        intros file0. rewrite Htrace. apply no_removal_before_cleanup.
Qed.

(** The third kind of run: three tracks are cut, the library raises on the
    second file; the first file is tagged, the others are not, the download
    stays, and [main] exits with status 1. *)
Example main_with_untaggable_track :
  let final := main (world_with_untaggable_track sample_config) in
  snd final = Failed (Other (SystemExit 1))
  /\ length (transcoder_runs (trace (fst final))) = 3%nat
  /\ tags (fst final)
     = add_metadata [path_of_str (py "output/Artist - Album/01 - Intro.mp3")]
         [(py "Intro", py "0:00"); (py "Middle / Part", py "2:05");
          (py "End", py "1:00:00")]
         {| info_artist := py "Artist"; info_album := py "Album"; info_year := None |}
         []
  /\ exists dir cmd,
       trace (fst final)
       = [ev_mkdir dir; ev_mkdir temp_dir; ev_yt_dlp cmd; ev_ffprobe downloaded_audio]
         ++ map ev_ffmpeg (transcoder_runs (trace (fst final))).
Proof.
  cbv zeta. split; [reflexivity|]. split; [reflexivity|].
  split; [vm_compute; reflexivity|].
  do 2 eexists. vm_compute. reflexivity.
Qed.

(** X15.  Every transcoder run [main] makes reads the downloaded audio and
    writes another file, an entry of the album directory: no run
    overwrites its own input. *)
Theorem main_never_overwrites_the_download (w : world) (call : ffmpeg_call) :
  In (ev_ffmpeg call) (trace (fst (main w))) ->
  ff_input call = downloaded_audio
  /\ ff_output call <> downloaded_audio
  /\ exists printed cfg name,
       parse_config (w_config w) = (printed, Ok cfg)
       /\ anchored (ff_output call) = anchored (output_dir_of cfg)
       /\ parts (ff_output call) = parts (output_dir_of cfg) ++ [name].
Proof.
  intros Hin.
  destruct (main_run w) as [(e & Hmain)|(printed & cfg & Hcfg & [Hearly|Hsplit])].
  - rewrite Hmain in Hin. destruct Hin.
  - destruct Hearly as (evs & Hmain & _ & Hevs). rewrite Hmain in Hin.
    destruct Hin as [H|H]; [discriminate|].
    destruct (Hevs _ H) as [H'|[(cmd & H')|H']]; discriminate.
  - destruct Hsplit as (cmd & T & late & Htrace & Hrest). cbv zeta in *.
    assert (In call (fst (split_audio (w_ffmpeg w) downloaded_audio (output_dir_of cfg)
                            (tracklist cfg) T))) as Hcall.
    { rewrite Htrace in Hin. apply in_app_or in Hin. destruct Hin as [H|H].
      { exfalso. simpl in H. intuition discriminate. }
      apply in_app_or in H. destruct H as [H|H].
      - apply in_map_iff in H. destruct H as (c & Hc & H). injection Hc as ->. exact H.
      - exfalso.
        destruct Hrest as [(-> & _)
                          |(files & _ & [(_ & _ & [-> | ->])
                                        |(k & file & e & _ & _ & _ & -> & _)])];
          simpl in H; intuition discriminate. }
    apply In_nth_error in Hcall. destruct Hcall as (k & Hk).
    destruct (split_audio_output _ _ _ _ _ _ _ Hk) as (title & ts & _ & Hinput & Hout).
    split; [exact Hinput|]. split.
    + rewrite Hout. intros Heq. apply (f_equal parts) in Heq. cbn [parts] in Heq.
      apply (f_equal (@rev _)) in Heq. rewrite rev_app_distr in Heq.
      simpl in Heq. injection Heq as Heq _.
      unfold track_file_name in Heq.
      destruct (format_02d_nat (S k)) as (d & rest & Hd & Hdigit & _).
      rewrite Hd in Heq. injection Heq as -> _. discriminate.
    + exists printed, cfg, (track_file_name (S k) title).
      rewrite Hout. auto.
Qed.

Lemma main_never_overwrites_the_download_witness :
  exists call,
    In (ev_ffmpeg call) (trace (fst (main (fine_world sample_config (py "4000.000000")))))
    /\ ff_input call = downloaded_audio
    /\ ff_output call <> downloaded_audio.
Proof.
  assert (exists call,
             In (ev_ffmpeg call)
               (trace (fst (main (fine_world sample_config (py "4000.000000"))))))
    as (call & Hin).
  { eexists. vm_compute. do 4 right. left. reflexivity. }
  exists call. split; [exact Hin|].
  destruct (main_never_overwrites_the_download _ call Hin) as (Hinput & Houtput & _).
  auto.
Defined.

(* ================================================================== *)
(** * [main]: how a failed program is reported                          *)
(* ================================================================== *)

Lemma query_Ok {A : Type} (r : result A) (s : state) (a : A) :
  r = Ok a -> query r s = (s, Returned a).
Proof. intros ->. reflexivity. Qed.

Lemma download_audio_Ok (w : world) (url : str) (output_path : path) (s : state)
  (has_cookies : bool) :
  w_exists w (path_of_str (py "cookies.txt")) = Ok has_cookies ->
  (forall cmd, w_yt_dlp w cmd = Ok 0) ->
  w_exists w (joinpath output_path (py "full_audio.mp3")) = Ok true ->
  exists cmd,
    download_audio w url output_path s
    = ({| trace := trace s ++ [ev_yt_dlp cmd]; tags := tags s |},
       Returned (joinpath output_path (py "full_audio.mp3"))).
Proof.
  intros Hcookies Hyt Haudio. eexists.
  unfold download_audio, and_then, query, perform, lift, ret, COOKIES_FILE.
  rewrite Hcookies, Hyt. cbn [Z.eqb]. rewrite Haudio. reflexivity.
Qed.

(** The run up to the prober, when the directories can be created and the
    downloader does its work. *)
Lemma main_reaches_the_prober (w : world) (printed : list message) (cfg : config)
  (has_cookies : bool) :
  parse_config (w_config w) = (printed, Ok cfg) ->
  (forall dir, w_mkdir w dir = Ok tt) ->
  w_exists w (path_of_str (py "cookies.txt")) = Ok has_cookies ->
  (forall cmd, w_yt_dlp w cmd = Ok 0) ->
  w_exists w downloaded_audio = Ok true ->
  exists the_url cmd,
    url cfg = Some the_url
    /\ main w
       = guarded
           (and_then (get_audio_duration w downloaded_audio)
              (fun total_duration =>
                 and_then (run_split_audio w downloaded_audio (output_dir_of cfg)
                             (tracklist cfg) total_duration)
                   (fun track_files =>
                      and_then (run_add_metadata w track_files (tracklist cfg)
                                  (info_of cfg))
                        (fun _ =>
                           and_then (perform (ev_unlink downloaded_audio)
                                       (w_unlink w downloaded_audio))
                             (fun _ =>
                                and_then (perform (ev_rmdir temp_dir) (w_rmdir w temp_dir))
                                  (fun _ =>
                                     and_then
                                       (if anchored (output_dir_of cfg)
                                        then ret (output_dir_of cfg)
                                        else query (w_getcwd w))
                                       (fun _ =>
                                          and_then (query (w_iterdir w (output_dir_of cfg)))
                                            (fun _ => ret tt))))))))
           {| trace := [ev_mkdir (output_dir_of cfg); ev_mkdir temp_dir; ev_yt_dlp cmd];
              tags := w_tags w |}.
Proof.
  intros Hcfg Hmkdir Hcookies Hyt Haudio.
  destruct (main_with_config w printed cfg Hcfg) as (u & Hu & ->).
  destruct (download_audio_Ok w u temp_dir
              {| trace := [ev_mkdir (output_dir_of cfg); ev_mkdir temp_dir];
                 tags := w_tags w |} has_cookies Hcookies Hyt Haudio) as (cmd & Hdl).
  exists u, cmd. split; [exact Hu|].
  rewrite (and_then_eq _ _ _ _ _ (perform_Ok _ _ _ tt (Hmkdir _))).
  unfold guarded, main_body. rewrite temp_dir_eq.
  rewrite (and_then_eq _ _ _ _ _ (perform_Ok _ _ _ tt (Hmkdir _))).
  cbn [trace tags app].
  rewrite (and_then_eq _ _ _ _ _ Hdl). rewrite downloaded_audio_eq. reflexivity.
Qed.

(** X16.  When the prober exits with a status other than 0, the run is
    made with [text=True], so [e.stderr] is a [str]: if the prober wrote
    nothing to its standard error [main] exits with status 1, and if it
    wrote anything, [e.stderr.decode()] in the [except] clause raises
    [AttributeError], which escapes from [main].  Either way no transcoder
    run is made and nothing is tagged. *)
Theorem main_reports_a_failed_probe
  (w : world) (printed : list message) (cfg : config) (has_cookies : bool)
  (r : completed) :
  parse_config (w_config w) = (printed, Ok cfg) ->
  (forall dir, w_mkdir w dir = Ok tt) ->
  w_exists w (path_of_str (py "cookies.txt")) = Ok has_cookies ->
  (forall cmd, w_yt_dlp w cmd = Ok 0) ->
  w_exists w downloaded_audio = Ok true ->
  w_ffprobe w downloaded_audio = Ok r ->
  cp_returncode r <> 0 ->
  snd (main w)
  = Failed (if is_empty (cp_stderr r) then Other (SystemExit 1) else AttributeError)
  /\ transcoder_runs (trace (fst (main w))) = []
  /\ tags (fst (main w)) = w_tags w.
Proof.
  intros Hcfg Hmkdir Hcookies Hyt Haudio Hprobe Hrc.
  destruct (main_reaches_the_prober w printed cfg has_cookies Hcfg Hmkdir Hcookies
              Hyt Haudio) as (u & cmd & _ & ->).
  unfold guarded.
  assert (forall s,
             get_audio_duration w downloaded_audio s
             = ({| trace := trace s ++ [ev_ffprobe downloaded_audio]; tags := tags s |},
                Failed (CalledProcessError_with (cp_returncode r)
                          (captured_text (cp_stderr r))))) as Hfail.
  { intros s. unfold get_audio_duration.
    rewrite (and_then_eq _ _ _ _ _ (perform_Ok _ _ _ r Hprobe)).
    apply Z.eqb_neq in Hrc. rewrite Hrc. reflexivity. }
  rewrite (and_then_failed _ _ _ _ _ (Hfail _)).
  cbn [fst snd trace tags]. repeat split.
Qed.

Lemma main_reports_a_failed_probe_witness :
  snd (main (world_without_duration sample_config)) = Failed AttributeError.
Proof.
  exact (proj1 (main_reports_a_failed_probe (world_without_duration sample_config)
                  [] _ false _ eq_refl (fun _ => eq_refl) eq_refl (fun _ => eq_refl)
                  eq_refl eq_refl ltac:(discriminate))).
Defined.

(** X17.  When a transcoder run exits with a status other than 0, the runs
    made so far are the only ones, nothing is tagged, and [main] exits with
    status 1 provided what the failed run wrote to its standard error is
    empty or decodes as UTF-8; otherwise [e.stderr.decode()] raises
    [UnicodeDecodeError], which escapes from [main]. *)
Theorem main_reports_a_failed_transcoder_run
  (w : world) (printed : list message) (cfg : config) (has_cookies : bool)
  (r : completed) (T : float) (calls : list ffmpeg_call) (call : ffmpeg_call)
  (status : Z) :
  parse_config (w_config w) = (printed, Ok cfg) ->
  (forall dir, w_mkdir w dir = Ok tt) ->
  w_exists w (path_of_str (py "cookies.txt")) = Ok has_cookies ->
  (forall cmd, w_yt_dlp w cmd = Ok 0) ->
  w_exists w downloaded_audio = Ok true ->
  w_ffprobe w downloaded_audio = Ok r ->
  cp_returncode r = 0 ->
  float_of_str (strip (cp_stdout r)) = Some T ->
  split_audio (w_ffmpeg w) downloaded_audio (output_dir_of cfg) (tracklist cfg) T
  = (calls ++ [call], Raise (CalledProcessError status)) ->
  snd (main w)
  = Failed (if is_empty (w_ffmpeg_stderr w call) || utf8_valid (w_ffmpeg_stderr w call)
            then Other (SystemExit 1) else UnicodeDecodeError)
  /\ transcoder_runs (trace (fst (main w))) = calls ++ [call]
  /\ tags (fst (main w)) = w_tags w.
Proof.
  intros Hcfg Hmkdir Hcookies Hyt Haudio Hprobe Hrc HT Hsplit.
  destruct (main_reaches_the_prober w printed cfg has_cookies Hcfg Hmkdir Hcookies
              Hyt Haudio) as (u & cmd & _ & ->).
  unfold guarded.
  assert (forall s,
             get_audio_duration w downloaded_audio s
             = ({| trace := trace s ++ [ev_ffprobe downloaded_audio]; tags := tags s |},
                Returned T)) as Hduration.
  { intros s. unfold get_audio_duration.
    rewrite (and_then_eq _ _ _ _ _ (perform_Ok _ _ _ r Hprobe)).
    rewrite Hrc, HT. reflexivity. }
  rewrite (and_then_eq _ _ _ _ _ (Hduration _)).
  assert (forall s,
             run_split_audio w downloaded_audio (output_dir_of cfg) (tracklist cfg) T s
             = ({| trace := trace s ++ map ev_ffmpeg (calls ++ [call]); tags := tags s |},
                Failed (CalledProcessError_with status
                          (captured_bytes (w_ffmpeg_stderr w call))))) as Hfail.
  { intros s. unfold run_split_audio. rewrite Hsplit, rev_app_distr. reflexivity. }
  rewrite (and_then_failed _ _ _ _ _ (Hfail _)).
  cbn [fst snd trace tags handle].
  split; [reflexivity|]. split; [|reflexivity].
  change ([ev_mkdir (output_dir_of cfg); ev_mkdir temp_dir; ev_yt_dlp cmd]
          ++ [ev_ffprobe downloaded_audio])
    with ([ev_mkdir (output_dir_of cfg); ev_mkdir temp_dir; ev_yt_dlp cmd;
           ev_ffprobe downloaded_audio]).
  rewrite transcoder_runs_app, transcoder_runs_map. reflexivity.
Qed.

Lemma main_reports_a_failed_transcoder_run_witness :
  snd (main (world_without_transcoder sample_config [Byte.xff]))
  = Failed UnicodeDecodeError
  /\ snd (main (world_without_transcoder sample_config [])) = Failed (Other (SystemExit 1)).
Proof.
  split.
  - exact (proj1 (main_reports_a_failed_transcoder_run
                    (world_without_transcoder sample_config [Byte.xff])
                    [] _ false _ 4000%float [] _ 1
                    eq_refl (fun _ => eq_refl) eq_refl (fun _ => eq_refl)
                    eq_refl eq_refl eq_refl eq_refl eq_refl)).
  - exact (proj1 (main_reports_a_failed_transcoder_run
                    (world_without_transcoder sample_config [])
                    [] _ false _ 4000%float [] _ 1
                    eq_refl (fun _ => eq_refl) eq_refl (fun _ => eq_refl)
                    eq_refl eq_refl eq_refl eq_refl eq_refl)).
Defined.

(* ================================================================== *)
(** * [main]: the album directory                                       *)
(* ================================================================== *)

Lemma not_In_forallb (c : ascii) (s : str) :
  ~ In c s -> forallb (fun x => negb (Ascii.eqb x c)) s = true.
Proof.
  intros Hnot. apply forallb_forall. intros x Hx.
  destruct (Ascii.eqb x c) eqn:E; [|reflexivity].
  apply Ascii.eqb_eq in E. subst x. contradiction.
Qed.

(** A name without a slash that is not empty and not [.] is one component. *)
Lemma joinpath_one_component (p : path) (name : str) :
  ~ In "/"%char name -> name <> [] -> name <> dot ->
  joinpath p name = {| anchored := anchored p; parts := parts p ++ [name] |}.
Proof.
  intros Hslash Hempty Hdot. unfold joinpath, path_of_str.
  rewrite (split_no_sep "/" name (not_In_forallb _ _ Hslash)).
  assert (startswith (py "/") name = false) as ->.
  { destruct name as [|c name]; [reflexivity|].
    change (startswith (py "/") (c :: name)) with (Ascii.eqb "/" c && true).
    destruct (Ascii.eqb "/" c) eqn:E; [|reflexivity].
    apply Ascii.eqb_eq in E. subst c. exfalso. apply Hslash. left. reflexivity. }
  cbn [anchored parts filter].
  assert (is_empty name = false) as -> by (destruct name; [congruence | reflexivity]).
  assert (str_eqb name dot = false) as ->.
  { destruct (str_eqb name dot) eqn:E; [|reflexivity].
    apply str_eqb_eq in E. contradiction. }
  reflexivity.
Qed.

Lemma output_dir_of_eq (cfg : config) (a b : str) :
  artist cfg = Some a -> album cfg = Some b ->
  output_dir_of cfg
  = joinpath (path_of_str (py "output"))
      (a ++ py " - " ++ b
       ++ match year cfg with
          | Some (c :: y) => py " (" ++ c :: y ++ py ")"
          | _ => []
          end).
Proof.
  intros Ha Hb. unfold output_dir_of, album_folder, info_of. rewrite Ha, Hb.
  cbn [info_artist info_album info_year].
  destruct (year cfg) as [[|c y]|]; cbn [is_empty];
    rewrite <- ?app_assoc, ?app_nil_r; reflexivity.
Qed.

Lemma main_first_event (w : world) (printed : list message) (cfg : config) :
  parse_config (w_config w) = (printed, Ok cfg) ->
  hd_error (trace (fst (main w))) = Some (ev_mkdir (output_dir_of cfg)).
Proof.
  intros Hcfg. destruct (main_with_config w printed cfg Hcfg) as (u & _ & ->).
  destruct (w_mkdir w (output_dir_of cfg)) as [[]|e] eqn:Hmk.
  - rewrite (and_then_eq _ _ _ _ _ (perform_Ok _ _ _ tt eq_refl)), guarded_fst.
    cbn [trace tags app].
    pose proof (main_body_run w u (info_of cfg) (tracklist cfg) (output_dir_of cfg)
                  {| trace := [ev_mkdir (output_dir_of cfg)]; tags := w_tags w |})
      as Hrun.
    cbv zeta in Hrun. cbn [trace tags] in Hrun.
    destruct Hrun as [(evs & e & -> & _)|(cmd & T & late & -> & _)]; reflexivity.
  - rewrite (and_then_failed _ _ _ _ _ (perform_Raise _ _ _ e eq_refl)). reflexivity.
Qed.

Lemma split_piece (sep c : ascii) (s : str) :
  In c s -> c <> sep -> exists piece, In piece (split sep s) /\ In c piece.
Proof.
  intros Hin Hne. induction s as [|x s IH]; [destruct Hin|].
  simpl. destruct (Ascii.eqb x sep) eqn:E.
  - apply Ascii.eqb_eq in E. subst x.
    destruct Hin as [->|Hin]; [contradiction|].
    destruct (IH Hin) as (piece & Hpiece & Hc). exists piece. simpl. auto.
  - destruct Hin as [->|Hin].
    + destruct (split sep s) as [|field fields].
      * exists [c]. split; left; reflexivity.
      * exists (c :: field). split; left; reflexivity.
    + destruct (IH Hin) as (piece & Hpiece & Hc).
      destruct (split sep s) as [|field fields]; [destruct Hpiece|].
      destruct Hpiece as [->|Hpiece].
      * exists (x :: piece). simpl. auto.
      * exists piece. simpl. auto.
Qed.

(** A name with a space in it never stands for the temporary directory. *)
Lemma joinpath_not_temp_dir (name : str) :
  In " "%char name -> joinpath (path_of_str (py "output")) name <> temp_dir.
Proof.
  intros Hspace Heq. unfold joinpath in Heq.
  destruct (anchored (path_of_str name)) eqn:Habs.
  - apply (f_equal anchored) in Heq. rewrite Habs in Heq. discriminate.
  - apply (f_equal parts) in Heq. cbn [parts] in Heq.
    change (parts (path_of_str (py "output")) ++ parts (path_of_str name))
      with (py "output" :: parts (path_of_str name)) in Heq.
    change (parts temp_dir) with [py "output"; py ".temp"] in Heq.
    injection Heq as Heq.
    destruct (split_piece "/" " " name Hspace ltac:(discriminate))
      as (piece & Hpiece & Hc).
    assert (In piece [py ".temp"]) as Hin.
    { refine (eq_ind _ (fun l => In piece l) _ _ Heq).
      apply filter_In. split; [exact Hpiece|].
      destruct piece as [|x piece]; [destruct Hc|]. cbn [is_empty negb andb].
      destruct (str_eqb (x :: piece) dot) eqn:E; [|reflexivity].
      apply str_eqb_eq in E. rewrite E in Hc. simpl in Hc. intuition discriminate. }
    destruct Hin as [<-|[]].
    simpl in Hc. intuition discriminate.
Qed.

(** X18.  The first thing [main] does to the outside is to create the
    album directory, [output / "<artist> - <album>"], with [" (<year>)"]
    appended when the year is set and not empty.  When the name holds no
    [/] the directory is the entry of that name in [output]; but artist
    and album are used as they are, and an artist that starts with [/]
    makes the directory an absolute path, outside [output].  Whatever the
    names are, the album directory is not the temporary directory. *)
Theorem main_creates_the_album_directory_first
  (w : world) (printed : list message) (cfg : config) (a b : str) :
  parse_config (w_config w) = (printed, Ok cfg) ->
  artist cfg = Some a -> album cfg = Some b ->
  let folder :=
    a ++ py " - " ++ b
    ++ match year cfg with
       | Some (c :: y) => py " (" ++ c :: y ++ py ")"
       | _ => []
       end in
  let dir := joinpath (path_of_str (py "output")) folder in
  hd_error (trace (fst (main w))) = Some (ev_mkdir dir)
  /\ (~ In "/"%char folder ->
      dir = {| anchored := false; parts := [py "output"; folder] |})
  /\ (startswith (py "/") a = true -> dir = path_of_str folder /\ anchored dir = true)
  /\ dir <> temp_dir.
Proof.
  intros Hcfg Ha Hb folder dir.
  assert (output_dir_of cfg = dir) as Hdir by apply (output_dir_of_eq cfg a b Ha Hb).
  split; [rewrite <- Hdir; apply (main_first_event w printed cfg Hcfg)|].
  split; [|split].
  - intros Hslash. unfold dir. rewrite joinpath_one_component; [reflexivity|exact Hslash| |].
    + unfold folder. intros H. apply (f_equal (@length _)) in H.
      rewrite !length_app in H. simpl in H. lia.
    + unfold folder, dot. intros H. apply (f_equal (@length _)) in H.
      rewrite !length_app in H. simpl in H. lia.
  - intros Habs.
    assert (anchored (path_of_str folder) = true) as Hq.
    { unfold path_of_str. cbn [anchored]. unfold folder.
      apply startswith_app in Habs. destruct Habs as (rest & ->).
      reflexivity. }
    unfold dir, joinpath. rewrite Hq. auto.
  - apply joinpath_not_temp_dir. unfold folder.
    apply in_or_app. right. left. reflexivity.
Qed.

Lemma main_creates_the_album_directory_first_witness :
  hd_error (trace (fst (main (fine_world sample_config (py "4000.000000")))))
  = Some (ev_mkdir {| anchored := false; parts := [py "output"; py "Artist - Album"] |}).
Proof.
  destruct (main_creates_the_album_directory_first
              (fine_world sample_config (py "4000.000000")) [] _
              (py "Artist") (py "Album") eq_refl eq_refl eq_refl)
    as (Hfirst & _).
  rewrite Hfirst. reflexivity.
Defined.

(* ================================================================== *)
(** * [get_audio_duration]: an answer that is no number                 *)
(* ================================================================== *)

Lemma strip_blank (s : str) : forallb is_space s = true -> strip s = [].
Proof.
  intros H. unfold strip, rstrip, lstrip.
  rewrite (dropwhile_nil is_space (rev s)) by (rewrite forallb_rev; exact H).
  reflexivity.
Qed.

(** X19.  When the prober exits with status 0 but its answer is empty or
    only whitespace, [get_audio_duration] raises the [ValueError] of
    [float("")], after the one prober run. *)
Theorem get_audio_duration_needs_an_answer
  (w : world) (file : path) (s : state) (r : completed) :
  w_ffprobe w file = Ok r ->
  cp_returncode r = 0 ->
  forallb is_space (cp_stdout r) = true ->
  get_audio_duration w file s
  = ({| trace := trace s ++ [ev_ffprobe file]; tags := tags s |},
     Failed (ValueError_float [])).
Proof.
  intros Hprobe Hrc Hblank. unfold get_audio_duration.
  rewrite (and_then_eq _ _ _ _ _ (perform_Ok _ _ _ r Hprobe)).
  rewrite Hrc, (strip_blank _ Hblank). reflexivity.
Qed.

Lemma get_audio_duration_needs_an_answer_witness :
  snd (get_audio_duration (fine_world sample_config [LF]) downloaded_audio
         {| trace := []; tags := [] |})
  = Failed (ValueError_float []).
Proof.
  rewrite (get_audio_duration_needs_an_answer (fine_world sample_config [LF])
             downloaded_audio {| trace := []; tags := [] |} _ eq_refl eq_refl eq_refl).
  reflexivity.
Defined.

(* ================================================================== *)
(** * [main]: a download that leaves no file                            *)
(* ================================================================== *)

(** X20.  When the downloader exits with status 0 but
    [output/.temp/full_audio.mp3] is not there, [download_audio] raises
    [FileNotFoundError] and [main] exits with status 1: the prober and the
    transcoder are not run, nothing is tagged, and the temporary directory
    stays. *)
Theorem main_misses_the_download
  (w : world) (printed : list message) (cfg : config) (has_cookies : bool) :
  parse_config (w_config w) = (printed, Ok cfg) ->
  (forall dir, w_mkdir w dir = Ok tt) ->
  w_exists w (path_of_str (py "cookies.txt")) = Ok has_cookies ->
  (forall cmd, w_yt_dlp w cmd = Ok 0) ->
  w_exists w downloaded_audio = Ok false ->
  (forall s url,
      snd (download_audio w url temp_dir s) = Failed (FileNotFoundError downloaded_audio))
  /\ snd (main w) = Failed (Other (SystemExit 1))
  /\ (exists cmd,
         trace (fst (main w))
         = [ev_mkdir (output_dir_of cfg); ev_mkdir temp_dir; ev_yt_dlp cmd]
         /\ yt_url cmd = match url cfg with Some u => u | None => [] end
         /\ yt_cookies cmd
            = if has_cookies then Some (path_of_str (py "cookies.txt")) else None)
  /\ tags (fst (main w)) = w_tags w.
Proof.
  intros Hcfg Hmkdir Hcookies Hyt Haudio.
  assert (forall s url,
             download_audio w url temp_dir s
             = ({| trace := trace s
                      ++ [ev_yt_dlp
                            {| yt_output := joinpath temp_dir (py "full_audio.%(ext)s");
                               yt_cookies := if has_cookies
                                             then Some (path_of_str (py "cookies.txt"))
                                             else None;
                               yt_url := url |}];
                   tags := tags s |},
                Failed (FileNotFoundError downloaded_audio))) as Hdl.
  { intros s url.
    unfold download_audio, and_then, query, perform, lift, fail, COOKIES_FILE.
    rewrite Hcookies, Hyt. cbn [Z.eqb]. rewrite downloaded_audio_eq, Haudio.
    reflexivity. }
  split; [intros s url; rewrite Hdl; reflexivity|].
  destruct (main_with_config w printed cfg Hcfg) as (u & Hu & ->).
  rewrite (and_then_eq _ _ _ _ _ (perform_Ok _ _ _ tt (Hmkdir _))).
  unfold guarded, main_body. rewrite temp_dir_eq.
  rewrite (and_then_eq _ _ _ _ _ (perform_Ok _ _ _ tt (Hmkdir _))).
  rewrite (and_then_failed _ _ _ _ _ (Hdl _ _)).
  cbn [fst snd trace tags handle app]. split; [reflexivity|]. split; [|reflexivity].
  eexists. split; [reflexivity|]. rewrite Hu. split; reflexivity.
Qed.

Lemma main_misses_the_download_witness :
  snd (main (world_without_download sample_config)) = Failed (Other (SystemExit 1))
  /\ length (trace (fst (main (world_without_download sample_config)))) = 3%nat.
Proof.
  destruct (main_misses_the_download (world_without_download sample_config)
              [] _ false eq_refl (fun _ => eq_refl) eq_refl (fun _ => eq_refl) eq_refl)
    as (_ & Hexit & (cmd & Htrace & _) & _).
  split; [exact Hexit|]. rewrite Htrace. reflexivity.
Defined.
